(** * ytsr: anonymous YouTube search -- query execution and pagination

    A shallow embedding of the TypeScript sources ([utils], [parseItem] and
    the entry point [ytsr]) together with the properties of the search
    engine that the specification states about them.

    - JavaScript values that the code treats as [unknown] (the JSON
      documents of the platform) are kept dynamically typed ([value]);
      what the code validates with zod is validated here by [Zod.safeParse]
      over the same schemas.
    - What TypeScript types statically ([SearchOptions],
      [NormalizedOptions], the request context) is a record.
    - The process-wide [CACHE], the caller's options object, the network
      and the requests issued so far form the [World] that every
      asynchronous function threads through; a rejected promise or a
      thrown exception is the [Throw] outcome. *)

From Stdlib Require Import String Ascii List ZArith QArith Qround Bool Lia.
From stdpp Require Import base option gmap strings.
From Stdlib Require Import Sorted Permutation.
Import ListNotations.

Open Scope string_scope.
Open Scope list_scope.

Set Warnings "-register-all".

(** ** JavaScript numbers

    A number is NaN, an infinity or a finite value.  Finite values are
    exact rationals; the arithmetic of the code (a subtraction of small
    integers, comparisons) is exact on them.  Where the code reads a
    number from a run of digits, [nearest] gives the double it gets. *)

Inductive number : Type :=
| NaN
| Num (q : Q)
| PosInf
| NegInf.

Module JsNum.

Definition of_Z (z : Z) : number := Num (inject_Z z).
Definition of_nat (n : nat) : number := of_Z (Z.of_nat n).

(** The double nearest to the natural number [z], ties to the even
    mantissa: [z] itself below 2^53, a multiple of a power of two with a
    mantissa of 53 bits above, and [Infinity] when that reaches 2^1024. *)
Definition nearest (z : Z) : number :=
  if (z <? 9007199254740992)%Z then of_Z z
  else
    let shift := (Z.log2 z - 52)%Z in
    let q := Z.shiftr z shift in
    let r := (z - Z.shiftl q shift)%Z in
    let half := Z.shiftl 1 (shift - 1) in
    let q :=
      if (half <? r)%Z || ((r =? half)%Z && Z.odd q) then (q + 1)%Z else q in
    let v := Z.shiftl q shift in
    if (2 ^ 1024 <=? v)%Z then PosInf else of_Z v.

Definition Qltb (p q : Q) : bool := negb (Qle_bool q p).

(** [a < b] of JavaScript: false as soon as one side is NaN. *)
Definition ltb (a b : number) : bool :=
  match a, b with
  | NaN, _ | _, NaN => false
  | NegInf, NegInf => false
  | NegInf, _ => true
  | _, NegInf => false
  | PosInf, _ => false
  | Num _, PosInf => true
  | Num p, Num q => Qltb p q
  end.

(** [a <= b] of JavaScript. *)
Definition leb (a b : number) : bool :=
  match a, b with
  | NaN, _ | _, NaN => false
  | NegInf, _ => true
  | _, NegInf => false
  | _, PosInf => true
  | PosInf, Num _ => false
  | Num p, Num q => Qle_bool p q
  end.

Definition isNaN (a : number) : bool :=
  match a with NaN => true | _ => false end.

(** [a - b]. *)
Definition sub (a b : number) : number :=
  match a, b with
  | NaN, _ | _, NaN => NaN
  | PosInf, PosInf | NegInf, NegInf => NaN
  | PosInf, _ => PosInf
  | NegInf, _ => NegInf
  | Num _, PosInf => NegInf
  | Num _, NegInf => PosInf
  | Num p, Num q => Num (p - q)
  end.

(** ToBoolean on a number: [0] and NaN are falsy. *)
Definition truthy (a : number) : bool :=
  match a with
  | NaN => false
  | Num q => negb (Qeq_bool q 0)
  | _ => true
  end.

(** The number is an integer value. *)
Definition is_integer (a : number) : Prop :=
  exists z : Z, a = of_Z z.

End JsNum.

(** ** JavaScript values *)

Inductive value : Type :=
| VUndef
| VNull
| VBool (b : bool)
| VNum (n : number)
| VStr (s : string)
| VArr (items : list value)
| VObj (fields : list (string * value)).

Module Js.

(** ToBoolean. *)
Definition truthy (v : value) : bool :=
  match v with
  | VUndef | VNull => false
  | VBool b => b
  | VNum n => JsNum.truthy n
  | VStr s => negb (String.eqb s "")
  | VArr _ | VObj _ => true
  end.

(** [a || b]. *)
Definition or (a b : value) : value := if truthy a then a else b.

(** Own-property lookup in a field list; a missing key reads
    [undefined]. *)
Fixpoint lookup (k : string) (fs : list (string * value)) : value :=
  match fs with
  | [] => VUndef
  | (k', v) :: fs' => if String.eqb k k' then v else lookup k fs'
  end.

Fixpoint has (k : string) (fs : list (string * value)) : bool :=
  match fs with
  | [] => false
  | (k', _) :: fs' => if String.eqb k k' then true else has k fs'
  end.

(** [v.k] (and [v?.k]: the documents read this way are validated objects,
    anything else reads [undefined]). *)
Definition get (k : string) (v : value) : value :=
  match v with
  | VObj fs => lookup k fs
  | _ => VUndef
  end.

(** ['k' in v]. *)
Definition has_key (k : string) (v : value) : bool :=
  match v with
  | VObj fs => has k fs
  | _ => false
  end.

(** [v[i]] on an array. *)
Definition at_index (i : nat) (v : value) : value :=
  match v with
  | VArr l => nth i l VUndef
  | _ => VUndef
  end.

Definition elements (v : value) : list value :=
  match v with
  | VArr l => l
  | _ => []
  end.

Definition is_string (v : value) : bool :=
  match v with VStr _ => true | _ => false end.

Definition str (v : value) : string :=
  match v with VStr s => s | _ => "" end.

(** [Array.prototype.find]. *)
Definition find (p : value -> bool) (l : list value) : value :=
  match List.find p l with
  | Some x => x
  | None => VUndef
  end.

(** [a.filter((_, index) => index < limit)]. *)
Fixpoint filter_index_lt {A : Type} (limit : number) (i : nat) (l : list A)
  : list A :=
  match l with
  | [] => []
  | x :: l' =>
      if JsNum.ltb (JsNum.of_nat i) limit
      then x :: filter_index_lt limit (S i) l'
      else filter_index_lt limit (S i) l'
  end.

End Js.

(** ** zod

    The part of the zod (v3) validation library that the sources use,
    following its documented behaviour: [safeParse] returns the parsed data
    on success.  An object schema strips the keys it does not declare unless
    it is [passthrough]; a union returns the data of its first alternative
    that validates; [z.number()] refuses NaN; a key declared [optional] or
    [unknown] may be missing. *)

Module Zod.

Inductive schema : Type :=
| string_
| number_
| boolean_
| unknown_
| custom_
| literal_ (s : string)
| enum_ (options : list string)
| array_ (element : schema)
| record_ (element : schema)
| object_ (shape : list (string * schema)) (passthrough : bool)
| optional_ (inner : schema)
| nullable_ (inner : schema)
| union_ (alternatives : list schema).

Fixpoint traverse {A B : Type} (f : A -> option B) (l : list A)
  : option (list B) :=
  match l with
  | [] => Some []
  | x :: l' =>
      match f x with
      | None => None
      | Some y =>
          match traverse f l' with
          | None => None
          | Some ys => Some (y :: ys)
          end
      end
  end.

Definition on_entry (f : value -> option value) (kv : string * value)
  : option (string * value) :=
  match f (snd kv) with
  | None => None
  | Some v' => Some (fst kv, v')
  end.

(** The keys of the input that the shape does not declare, in the order
    of the input. *)
Definition extra_keys (shape : list (string * schema))
  (fs : list (string * value)) : list (string * value) :=
  List.filter
    (fun kv => negb (existsb (fun ks => String.eqb (fst kv) (fst ks)) shape))
    fs.

Definition is_undef (v : value) : bool :=
  match v with VUndef => true | _ => false end.

(** The declared keys of an object schema, each parsed by its own schema
    ([parse]); a key is set in the output when the input has it or its
    parsed value is defined. *)
Fixpoint parseShape (parse : schema -> value -> option value)
  (fs : list (string * value)) (shape : list (string * schema))
  : option (list (string * value)) :=
  match shape with
  | [] => Some []
  | (k, sk) :: shape' =>
      match parse sk (Js.lookup k fs) with
      | None => None
      | Some r =>
          match parseShape parse fs shape' with
          | None => None
          | Some out =>
              Some (if Js.has k fs || negb (is_undef r)
                    then (k, r) :: out else out)
          end
      end
  end.

(** The data of the first alternative of a union that validates. *)
Fixpoint firstValid (parse : schema -> value -> option value)
  (alternatives : list schema) (v : value) : option value :=
  match alternatives with
  | [] => None
  | a :: alternatives' =>
      match parse a v with
      | Some r => Some r
      | None => firstValid parse alternatives' v
      end
  end.

Fixpoint safeParse (s : schema) (v : value) {struct s} : option value :=
  match s with
  | string_ => match v with VStr _ => Some v | _ => None end
  | number_ =>
      match v with
      | VNum n => if JsNum.isNaN n then None else Some v
      | _ => None
      end
  | boolean_ => match v with VBool _ => Some v | _ => None end
  | unknown_ | custom_ => Some v
  | literal_ l =>
      match v with
      | VStr x => if String.eqb x l then Some v else None
      | _ => None
      end
  | enum_ options =>
      match v with
      | VStr x => if existsb (String.eqb x) options then Some v else None
      | _ => None
      end
  | array_ element =>
      match v with
      | VArr l =>
          match traverse (safeParse element) l with
          | Some l' => Some (VArr l')
          | None => None
          end
      | _ => None
      end
  | record_ element =>
      match v with
      | VObj fs =>
          match traverse (on_entry (safeParse element)) fs with
          | Some fs' => Some (VObj fs')
          | None => None
          end
      | _ => None
      end
  | object_ shape passthrough =>
      match v with
      | VObj fs =>
          match parseShape safeParse fs shape with
          | Some out =>
              Some (VObj (out ++ if passthrough then extra_keys shape fs else []))
          | None => None
          end
      | _ => None
      end
  | optional_ inner =>
      match v with
      | VUndef => Some VUndef
      | _ => safeParse inner v
      end
  | nullable_ inner =>
      match v with
      | VNull => Some VNull
      | _ => safeParse inner v
      end
  | union_ alternatives => firstValid safeParse alternatives v
  end.

(** [z.object({...})] and [z.object({...}).passthrough()]. *)
Definition object (shape : list (string * schema)) : schema :=
  object_ shape false.
Definition passthrough (shape : list (string * schema)) : schema :=
  object_ shape true.

End Zod.

(** ** Exceptions, requests and the platform's built-ins *)

Inductive exn : Type :=
| Error (message : string)
| TypeError
| ZodError
| SyntaxError
| FetchError.

Inductive outcome (A : Type) : Type :=
| Return (a : A)
| Throw (e : exn).
Arguments Return {A} a.
Arguments Throw {A} e.

(** What [new URL(input, base)] exposes to the code. *)
Record URL : Type := mkURL {
  href : string;
  pathname : string;
  searchParams : list (string * string)
}.

(** String-keyed objects whose insertion order the code observes
    ([Record<string, string>], [Headers]): an association list where
    setting a key keeps its place. *)
Module Dict.

Fixpoint get (k : string) (d : list (string * string)) : option string :=
  match d with
  | [] => None
  | (k', v) :: d' => if String.eqb k k' then Some v else get k d'
  end.

Fixpoint set (k v : string) (d : list (string * string))
  : list (string * string) :=
  match d with
  | [] => [(k, v)]
  | (k', v') :: d' =>
      if String.eqb k k' then (k, v) :: d' else (k', v') :: set k v d'
  end.

(** [{...a, ...b}]. *)
Definition spread (a b : list (string * string)) : list (string * string) :=
  fold_left (fun acc kv => set (fst kv) (snd kv) acc) b a.

End Dict.

(** The Fetch [Headers] class: names are case-insensitive, a name given
    twice at construction has its values joined, and a name or a value
    that is not valid is refused with a [TypeError]. *)
Module Headers.

Definition t : Type := list (string * string).

Definition lower_ascii (c : ascii) : ascii :=
  let n := nat_of_ascii c in
  if (65 <=? n)%nat && (n <=? 90)%nat then ascii_of_nat (n + 32) else c.

Fixpoint lower (s : string) : string :=
  match s with
  | EmptyString => EmptyString
  | String c s' => String (lower_ascii c) (lower s')
  end.

Definition get (name : string) (h : t) : option string :=
  Dict.get (lower name) h.

(** [headers.set(name, value)].  The code sets the names [cookie] and
    [Content-Type] only, to a constant or to a value of the headers
    followed by a constant, which pass the checks of [append]. *)
Definition set (name v : string) (h : t) : t := Dict.set (lower name) v h.

Fixpoint all_chars (p : ascii -> bool) (s : string) : bool :=
  match s with
  | EmptyString => true
  | String c s' => p c && all_chars p s'
  end.

(** A character of a header name: a token character of HTTP. *)
Definition is_token_char (c : ascii) : bool :=
  let n := nat_of_ascii c in
  ((48 <=? n) && (n <=? 57) || (65 <=? n) && (n <=? 90)
   || (97 <=? n) && (n <=? 122))%nat
  || existsb (Ascii.eqb c) (list_ascii_of_string "!#$%&'*+-.^_`|~").

Definition valid_name (name : string) : bool :=
  negb (String.eqb name "") && all_chars is_token_char name.

(** The whitespace of HTTP: tab, line feed, carriage return and space. *)
Definition is_whitespace (c : ascii) : bool :=
  let n := nat_of_ascii c in
  ((n =? 9) || (n =? 10) || (n =? 13) || (n =? 32))%nat.

Fixpoint trim_start (s : string) : string :=
  match s with
  | EmptyString => EmptyString
  | String c s' => if is_whitespace c then trim_start s' else s
  end.

Fixpoint trim_end (s : string) : string :=
  match s with
  | EmptyString => EmptyString
  | String c s' =>
      match trim_end s' with
      | EmptyString =>
          if is_whitespace c then EmptyString else String c EmptyString
      | rest => String c rest
      end
  end.

(** A value as it is stored: without the whitespace around it. *)
Definition normalize (v : string) : string := trim_end (trim_start v).

(** A stored value holds no NUL, line feed or carriage return. *)
Definition valid_value (v : string) : bool :=
  all_chars
    (fun c =>
       let n := nat_of_ascii c in
       negb ((n =? 0) || (n =? 10) || (n =? 13))%nat)
    v.

(** [headers.append(name, value)]: [None] for the [TypeError] on a name
    or a value that is not valid.  The values of a name are joined with a
    comma, those of [cookie] with a semicolon. *)
Definition append (name v : string) (h : t) : option t :=
  let v := normalize v in
  if valid_name name && valid_value v then
    Some
      match get name h with
      | Some old =>
          let delimiter :=
            if String.eqb (lower name) "cookie" then "; " else ", " in
          Dict.set (lower name) (old ++ delimiter ++ v) h
      | None => Dict.set (lower name) v h
      end
  else None.

(** [new Headers(init)] for an [init] given by names and values, the
    empty list for a missing one: [None] when it throws. *)
Definition new (init : list (string * string)) : option t :=
  fold_left
    (fun h kv =>
       match h with
       | Some h => append (fst kv) (snd kv) h
       | None => None
       end)
    init (Some []).

(** [new Headers(h)] for a [Headers] object [h], whose names and values
    have passed the checks: a copy, made without any exception. *)
Definition copy (h : t) : t := h.

End Headers.

(** [RequestInit]: the fields the code reads or writes, and the rest of
    the caller's fields, which it only copies. *)
Module RequestInit.
Record t : Type := mk {
  headers : list (string * string);
  method : option string;
  keepalive : option bool;
  body : option string;
  others : list (string * value)
}.
(** [{}]. *)
Definition empty : t := mk [] None None None [].
End RequestInit.

Inductive SearchType : Type := video | playlist.

Definition SearchType_eqb (a b : SearchType) : bool :=
  match a, b with
  | video, video | playlist, playlist => true
  | _, _ => false
  end.

Definition SearchType_name (t : SearchType) : string :=
  match t with video => "video" | playlist => "playlist" end.

(** The options object of the caller (interface [SearchOptions]).  The
    [type] field is kept dynamic: [checkArgs] re-validates it. *)
Module SearchOptions.
Record t : Type := mk {
  safeSearch : option bool;
  limit : option number;
  hl : option string;
  gl : option string;
  utcOffsetMinutes : option number;
  type : value;
  requestOptions : option RequestInit.t
}.
(** [{}]. *)
Definition empty : t := mk None None None None None VUndef None.
Definition set_type (v : value) (o : t) : t :=
  mk (safeSearch o) (limit o) (hl o) (gl o) (utcOffsetMinutes o) v
     (requestOptions o).
End SearchOptions.

(** [NormalizedOptions], the type inferred from [NormalizedOptionsSchema]. *)
Module NormalizedOptions.
Record t : Type := mk {
  limit : number;
  safeSearch : bool;
  type : SearchType;
  requestOptions : option RequestInit.t;
  query : list (string * string);
  search : string;
  gl : option string;
  hl : option string;
  utcOffsetMinutes : option number
}.
Definition set_limit (n : number) (o : t) : t :=
  mk n (safeSearch o) (type o) (requestOptions o) (query o) (search o)
     (gl o) (hl o) (utcOffsetMinutes o).
Definition set_requestOptions (r : option RequestInit.t) (o : t) : t :=
  mk (limit o) (safeSearch o) (type o) r (query o) (search o)
     (gl o) (hl o) (utcOffsetMinutes o).
End NormalizedOptions.

(** The request context ([DEFAULT_CONTEXT] and [ParsedBody['context']]). *)
Module Context.
Record client_t : Type := mkClient {
  utcOffsetMinutes : number;
  gl : string;
  hl : string;
  clientName : string;
  clientVersion : string
}.
Record user_t : Type := mkUser {
  enableSafetyMode : option bool
}.
Record t : Type := mk {
  client : client_t;
  user : user_t
}.
End Context.

(** [ParsedBody]. *)
Module ParsedBody.
Record t : Type := mk {
  json : value;
  apiKey : option string;
  context : option Context.t
}.
Definition set_json (j : value) (p : t) : t := mk j (apiKey p) (context p).
Definition set_context (c : option Context.t) (p : t) : t :=
  mk (json p) (apiKey p) c.
End ParsedBody.

(** ** The schemas of [utils] *)

(** The double quote character, as a string. *)
Definition dquote : string := String (ascii_of_nat 34) EmptyString.

Definition BASE_URL : string := "https://www.youtube.com/".
Definition CONSENT_COOKIE : string := "SOCS=CAI".
Definition DEFAULT_OPTIONS_limit : number := JsNum.of_Z 10.
Definition DEFAULT_OPTIONS_safeSearch : bool := false.
Definition DEFAULT_QUERY : list (string * string) := [("gl", "US"); ("hl", "en")].
Definition DEFAULT_CONTEXT : Context.t :=
  Context.mk
    (Context.mkClient (JsNum.of_Z (-300)) "US" "en" "WEB" "<important information>")
    (Context.mkUser None).

Definition YouTubeTextSchema : Zod.schema :=
  Zod.union_
    [ Zod.object [("simpleText", Zod.string_)];
      Zod.object [("runs", Zod.array_ (Zod.object [("text", Zod.string_)]))] ].

Definition YouTubeImageSchema : Zod.schema :=
  Zod.passthrough
    [("url", Zod.string_); ("width", Zod.number_); ("height", Zod.number_)].

Definition YouTubeInitialDataSchema : Zod.schema :=
  Zod.passthrough
    [("responseContext",
      Zod.object
        [("serviceTrackingParams",
          Zod.array_
            (Zod.object
               [("params",
                 Zod.optional_
                   (Zod.array_
                      (Zod.object
                         [("key", Zod.string_); ("value", Zod.string_)])))]))])].

Definition YouTubeItemSectionRendererSchema : Zod.schema :=
  Zod.object
    [("itemSectionRenderer",
      Zod.object [("contents", Zod.array_ (Zod.record_ Zod.unknown_))])].

Definition YouTubeRichItemRendererSchema : Zod.schema :=
  Zod.object
    [("richItemRenderer", Zod.object [("content", Zod.record_ Zod.unknown_)])].

Definition YouTubeRichSectionRendererSchema : Zod.schema :=
  Zod.object
    [("richSectionRenderer", Zod.object [("content", Zod.record_ Zod.unknown_)])].

Definition YouTubeRendererItemSchema : Zod.schema :=
  Zod.union_
    [ YouTubeItemSectionRendererSchema;
      YouTubeRichItemRendererSchema;
      YouTubeRichSectionRendererSchema;
      Zod.object [("continuationItemRenderer", Zod.unknown_)] ].

Definition YouTubePrimaryContentsSchema : Zod.schema :=
  Zod.union_
    [ Zod.object
        [("sectionListRenderer",
          Zod.object [("contents", Zod.array_ YouTubeRendererItemSchema)])];
      Zod.object
        [("richGridRenderer",
          Zod.object [("contents", Zod.array_ YouTubeRendererItemSchema)])] ].

Definition YouTubeSearchResponseSchema : Zod.schema :=
  Zod.object
    [("contents",
      Zod.object
        [("twoColumnSearchResultsRenderer",
          Zod.object [("primaryContents", YouTubePrimaryContentsSchema)])]);
     ("estimatedResults",
      Zod.optional_ (Zod.union_ [Zod.string_; Zod.number_]))].

Definition YouTubeContinuationItemRendererSchema : Zod.schema :=
  Zod.object
    [("continuationItemRenderer",
      Zod.object
        [("continuationEndpoint",
          Zod.object
            [("continuationCommand",
              Zod.object [("token", Zod.string_)])])])].

Definition YouTubeContinuationItemsActionSchema : Zod.schema :=
  Zod.object
    [("appendContinuationItemsAction",
      Zod.object [("continuationItems", Zod.array_ Zod.unknown_)])].

Definition YouTubePage2ResponseSchema : Zod.schema :=
  Zod.object
    [("onResponseReceivedCommands",
      Zod.array_ YouTubeContinuationItemsActionSchema)].

Definition YouTubeSearchHeaderSchema : Zod.schema :=
  let filter :=
    Zod.object
      [("searchFilterRenderer",
        Zod.object
          [("navigationEndpoint",
            Zod.object
              [("searchEndpoint", Zod.object [("params", Zod.string_)])])])] in
  let group :=
    Zod.object
      [("searchFilterGroupRenderer",
        Zod.object [("filters", Zod.array_ filter)])] in
  let dialog :=
    Zod.object
      [("searchFilterOptionsDialogRenderer",
        Zod.object [("groups", Zod.array_ group)])] in
  let command :=
    Zod.object [("openPopupAction", Zod.object [("popup", dialog)])] in
  let button :=
    Zod.object [("buttonRenderer", Zod.object [("command", command)])] in
  Zod.object
    [("header",
      Zod.object
        [("searchHeaderRenderer",
          Zod.object [("searchFilterButton", button)])])].

(** The token a validated continuation element carries:
    [continuation.continuationItemRenderer.continuationEndpoint
       .continuationCommand.token]. *)
Definition continuation_token (continuation : value) : value :=
  Js.get "token"
    (Js.get "continuationCommand"
       (Js.get "continuationEndpoint"
          (Js.get "continuationItemRenderer" continuation))).

(** ** The schemas of [parseItem] *)

Definition BASE_VIDEO_URL : string := "https://www.youtube.com/watch?v=".

Definition ImageSchema : Zod.schema :=
  Zod.object
    [("url", Zod.nullable_ Zod.string_); ("width", Zod.number_);
     ("height", Zod.number_)].

Definition AuthorSchema : Zod.schema :=
  Zod.object
    [("name", Zod.string_); ("channelID", Zod.string_); ("url", Zod.string_);
     ("bestAvatar", Zod.nullable_ ImageSchema);
     ("avatars", Zod.array_ ImageSchema);
     ("ownerBadges", Zod.array_ Zod.string_);
     ("verified", Zod.boolean_)].

Definition VideoSchema : Zod.schema :=
  Zod.object
    [("type", Zod.literal_ "video"); ("name", Zod.string_);
     ("id", Zod.string_); ("url", Zod.string_); ("thumbnail", Zod.string_);
     ("thumbnails", Zod.array_ ImageSchema); ("isUpcoming", Zod.boolean_);
     ("upcoming", Zod.nullable_ Zod.number_); ("isLive", Zod.boolean_);
     ("badges", Zod.array_ Zod.string_);
     ("author", Zod.nullable_ AuthorSchema); ("description", Zod.string_);
     ("views", Zod.nullable_ Zod.number_); ("duration", Zod.string_);
     ("uploadedAt", Zod.string_)].

Definition PlaylistSchema : Zod.schema :=
  Zod.object
    [("type", Zod.literal_ "playlist"); ("id", Zod.string_);
     ("name", Zod.string_); ("url", Zod.string_);
     ("owner", Zod.nullable_ AuthorSchema);
     ("publishedAt", Zod.nullable_ Zod.string_); ("length", Zod.number_)].

Definition YouTubeMetadataBadgeSchema : Zod.schema :=
  Zod.passthrough
    [("metadataBadgeRenderer",
      Zod.object
        [("label", Zod.string_); ("tooltip", Zod.optional_ Zod.string_)])].

Definition YouTubeNavigationEndpointSchema : Zod.schema :=
  Zod.object
    [("browseEndpoint",
      Zod.object
        [("browseId", Zod.string_);
         ("canonicalBaseUrl", Zod.optional_ Zod.string_)]);
     ("commandMetadata",
      Zod.optional_
        (Zod.object
           [("webCommandMetadata",
             Zod.object [("url", Zod.optional_ Zod.string_)])]))].

Definition YouTubeUpcomingEventDataSchema : Zod.schema :=
  Zod.object [("startTime", Zod.string_)].

(** [z.union([z.string(), z.object({}).passthrough()])]. *)
Definition stringOrObject : Zod.schema :=
  Zod.union_ [Zod.string_; Zod.passthrough []].

Definition YouTubeThumbnailOverlaySchema : Zod.schema :=
  Zod.passthrough
    [("thumbnailOverlayTimeStatusRenderer",
      Zod.optional_ (Zod.object [("text", stringOrObject)]))].

Definition YouTubeThumbnailSchemas : Zod.schema :=
  Zod.object
    [("thumbnails",
      Zod.array_
        (Zod.object
           [("url", Zod.string_); ("width", Zod.number_);
            ("height", Zod.number_)]))].

Definition ownerRuns : Zod.schema :=
  Zod.array_
    (Zod.object
       [("text", Zod.string_);
        ("navigationEndpoint", YouTubeNavigationEndpointSchema)]).

Definition YouTubeVideoRendererSchema : Zod.schema :=
  Zod.passthrough
    [("videoId", Zod.string_);
     ("title", Zod.optional_ stringOrObject);
     ("lengthText", Zod.optional_ stringOrObject);
     ("thumbnail", YouTubeThumbnailSchemas);
     ("thumbnailOverlays",
      Zod.optional_ (Zod.array_ YouTubeThumbnailOverlaySchema));
     ("badges", Zod.optional_ (Zod.array_ YouTubeMetadataBadgeSchema));
     ("upcomingEventData", Zod.optional_ YouTubeUpcomingEventDataSchema);
     ("descriptionSnippet", Zod.optional_ stringOrObject);
     ("viewCountText", Zod.optional_ stringOrObject);
     ("publishedTimeText", Zod.optional_ stringOrObject);
     ("channelThumbnailSupportedRenderers",
      Zod.optional_
        (Zod.object
           [("channelThumbnailWithLinkRenderer",
             Zod.object [("thumbnail", YouTubeThumbnailSchemas)])]));
     ("ownerText", Zod.optional_ (Zod.object [("runs", ownerRuns)]));
     ("ownerBadges", Zod.optional_ (Zod.array_ YouTubeMetadataBadgeSchema))].

Definition YouTubePlaylistRendererSchema : Zod.schema :=
  Zod.passthrough
    [("playlistId", Zod.string_);
     ("title", Zod.optional_ stringOrObject);
     ("videoCount", Zod.optional_ (Zod.union_ [Zod.string_; Zod.number_]));
     ("publishedTimeText", Zod.optional_ stringOrObject);
     ("shortBylineText",
      Zod.optional_
        (Zod.object
           [("simpleText", Zod.optional_ Zod.string_);
            ("runs", Zod.optional_ ownerRuns)]));
     ("longBylineText", Zod.optional_ (Zod.object [("runs", ownerRuns)]));
     ("ownerBadges", Zod.optional_ (Zod.array_ YouTubeMetadataBadgeSchema))].

Definition YouTubeItemSchema : Zod.schema :=
  Zod.union_
    [ Zod.object [("videoRenderer", YouTubeVideoRendererSchema)];
      Zod.object [("playlistRenderer", YouTubePlaylistRendererSchema)];
      Zod.object [("gridVideoRenderer", YouTubeVideoRendererSchema)] ].

(** Built-ins of the JavaScript platform that the code calls and that are
    not modelled: the JSON reader ([None] when [JSON.parse] throws) and
    printer, the URL parser ([None] when [new URL] throws) and the reading
    of a string as a number for strings other than plain runs of decimal
    digits. *)
Record Builtins : Type := mkBuiltins {
  JSON_parse : string -> option value;
  JSON_stringify : value -> string;
  URL_new : string -> string -> option URL;
  StringToNumber : string -> number
}.

(** ** [utils] *)

Section Ytsr.

(** The built-ins of the platform the sources run on. *)
Variable platform : Builtins.

Definition is_digit (c : ascii) : bool :=
  let n := nat_of_ascii c in (48 <=? n)%nat && (n <=? 57)%nat.

Fixpoint all_digits (s : string) : bool :=
  match s with
  | EmptyString => true
  | String c s' => is_digit c && all_digits s'
  end.

Fixpoint digits_value (acc : Z) (s : string) : Z :=
  match s with
  | EmptyString => acc
  | String c s' =>
      digits_value (10 * acc + Z.of_nat (nat_of_ascii c - 48)) s'
  end.

(** [Number(s)] on a string: a run of digits (the empty one included)
    reads as the double nearest to its decimal value, which is that value
    for up to 15 digits. *)
Definition Number_of_string (s : string) : number :=
  if all_digits s then JsNum.nearest (digits_value 0 s)
  else StringToNumber platform s.

(** A property key that is an array index: the canonical decimal form
    of an integer below 2^32 - 1. *)
Definition is_array_index (k : string) : bool :=
  negb (String.eqb k "") && all_digits k
  && (String.eqb k "0" || negb (String.prefix "0" k))
  && (digits_value 0 k <? 4294967295)%Z.

Fixpoint insert_by_index (kv : string * string) (l : list (string * string))
  : list (string * string) :=
  match l with
  | [] => [kv]
  | kv' :: l' =>
      if (digits_value 0 (fst kv) <? digits_value 0 (fst kv'))%Z
      then kv :: l
      else kv' :: insert_by_index kv l'
  end.

(** [Object.entries(o)] of an object whose properties were added in the
    order of the list: the array indices among the keys come first, in
    ascending order, then the other keys in the order they were added. *)
Definition Object_entries (o : list (string * string))
  : list (string * string) :=
  fold_right insert_by_index []
    (List.filter (fun kv => is_array_index (fst kv)) o)
  ++ List.filter (fun kv => negb (is_array_index (fst kv))) o.

(** [s.replace(/\D+/g, '')]. *)
Fixpoint remove_non_digits (s : string) : string :=
  match s with
  | EmptyString => EmptyString
  | String c s' =>
      if is_digit c then String c (remove_non_digits s')
      else remove_non_digits s'
  end.

(** [haystack.slice(pos)]. *)
Definition slice_from (pos : nat) (haystack : string) : string :=
  String.substring pos (String.length haystack - pos) haystack.

Definition between (haystack left right : string) : string :=
  match String.index 0 left haystack with
  | None => ""
  | Some pos =>
      let pos := pos + String.length left in
      let haystack := slice_from pos haystack in
      match String.index 0 right haystack with
      | None => ""
      | Some pos => String.substring 0 pos haystack
      end
  end.

(** [s.lastIndexOf(sub)]: the last position where [sub] starts. *)
Fixpoint lastIndexOf (sub s : string) : option nat :=
  match s with
  | EmptyString => if String.prefix sub s then Some 0%nat else None
  | String _ s' =>
      match lastIndexOf sub s' with
      | Some pos => Some (S pos)
      | None => if String.prefix sub s then Some 0%nat else None
      end
  end.

Definition betweenFromRight (haystack left right : string) : string :=
  match String.index 0 right haystack with
  | None => ""
  | Some pos =>
      let haystack := String.substring 0 pos haystack in
      match lastIndexOf left haystack with
      | None => ""
      | Some pos =>
          let pos := pos + String.length left in
          slice_from pos haystack
      end
  end.

Definition tryParseBetween (body left right : string) (addEndCurly : bool)
  : value :=
  let data := between body left right in
  if String.eqb data "" then VNull
  else
    let data := if addEndCurly then (data ++ "}")%string else data in
    match JSON_parse platform data with
    | Some v => v
    | None => VNull
    end.

Definition is_str (s : string) (v : value) : bool :=
  match v with
  | VStr x => String.eqb x s
  | _ => false
  end.

(** The loop of [getClientVersion] over [serviceTrackingParams]. *)
Fixpoint getClientVersion_loop (services : list value) : option string :=
  match services with
  | [] => None
  | service :: rest =>
      let params := Js.get "params" service in
      if negb (Js.truthy params) then getClientVersion_loop rest
      else
        let param :=
          Js.find (fun p => is_str "cver" (Js.get "key" p))
                  (Js.elements params) in
        if negb (Js.truthy param) || negb (Js.truthy (Js.get "value" param))
        then getClientVersion_loop rest
        else Some (Js.str (Js.get "value" param))
  end.

Definition getClientVersion (json : value) : option string :=
  match Zod.safeParse YouTubeInitialDataSchema json with
  | None => None
  | Some data =>
      getClientVersion_loop
        (Js.elements
           (Js.get "serviceTrackingParams" (Js.get "responseContext" data)))
  end.

Definition nonempty (s : string) : bool := negb (String.eqb s "").

Definition buildPostContext (clientVersion : string)
  (options : NormalizedOptions.t) : Context.t :=
  let c := Context.client DEFAULT_CONTEXT in
  let gl :=
    match NormalizedOptions.gl options with
    | Some g => if nonempty g then g else Context.gl c
    | None => Context.gl c
    end in
  let hl :=
    match NormalizedOptions.hl options with
    | Some h => if nonempty h then h else Context.hl c
    | None => Context.hl c
    end in
  let utc :=
    match NormalizedOptions.utcOffsetMinutes options with
    | Some u => if JsNum.truthy u then u else Context.utcOffsetMinutes c
    | None => Context.utcOffsetMinutes c
    end in
  Context.mk
    (Context.mkClient utc gl hl (Context.clientName c) clientVersion)
    (Context.mkUser
       (if NormalizedOptions.safeSearch options then Some true
        else Context.enableSafetyMode (Context.user DEFAULT_CONTEXT))).

(** The delimiters of [parseBody] that hold a double quote. *)
Definition window_ytInitialData : string :=
  ("window[" ++ dquote ++ "ytInitialData" ++ dquote ++ "] = ")%string.
Definition quoted_colon_quote : string := (dquote ++ ":" ++ dquote)%string.

Definition parseBody (body : string) (options : NormalizedOptions.t)
  : ParsedBody.t :=
  let json :=
    Js.or (tryParseBetween body "var ytInitialData = " "};" true)
      (Js.or (tryParseBetween body window_ytInitialData "};" true)
         (Js.or (tryParseBetween body "var ytInitialData = " ";</script>" false)
            (tryParseBetween body window_ytInitialData ";</script>" false))) in
  let clientVersion :=
    match getClientVersion json with
    | Some v => v
    | None =>
        let b :=
          between body
            ("INNERTUBE_CONTEXT_CLIENT_VERSION" ++ quoted_colon_quote)%string
            dquote in
        if nonempty b then b
        else
          between body
            ("innertube_context_client_version" ++ quoted_colon_quote)%string
            dquote
    end in
  let context := buildPostContext clientVersion options in
  ParsedBody.mk json None (Some context).

Definition parseText (txt : value) : string :=
  match Zod.safeParse YouTubeTextSchema txt with
  | None => ""
  | Some data =>
      if Js.has_key "simpleText" data then Js.str (Js.get "simpleText" data)
      else
        String.concat ""
          (map (fun a => Js.str (Js.get "text" a))
               (Js.elements (Js.get "runs" data)))
  end.

Definition parseIntegerFromText (x : value) : number :=
  match x with
  | VStr s => Number_of_string s
  | _ => Number_of_string (remove_non_digits (parseText x))
  end.

(** [{...o, k: v}] on an object value. *)
Fixpoint set_field (k : string) (v : value) (fs : list (string * value))
  : list (string * value) :=
  match fs with
  | [] => [(k, v)]
  | (k', v') :: fs' =>
      if String.eqb k k' then (k, v) :: fs' else (k', v') :: set_field k v fs'
  end.

Definition with_field (k : string) (v : value) (o : value) : value :=
  match o with
  | VObj fs => VObj (set_field k v fs)
  | _ => o
  end.

(** One step of the [map] of [prepImg]; [new URL] may throw. *)
Definition prepImg_image (x : value) : outcome (option value) :=
  match Zod.safeParse YouTubeImageSchema x with
  | None => Return None
  | Some data =>
      let url := Js.str (Js.get "url" data) in
      if nonempty url then
        match URL_new platform url BASE_URL with
        | None => Throw TypeError
        | Some u => Return (Some (with_field "url" (VStr (href u)) data))
        end
      else Return (Some (with_field "url" VNull data))
  end.

Fixpoint prepImg_images (img : list value) : outcome (list value) :=
  match img with
  | [] => Return []
  | x :: img' =>
      match prepImg_image x with
      | Throw e => Throw e
      | Return r =>
          match prepImg_images img' with
          | Throw e => Throw e
          | Return rest =>
              Return (match r with Some i => i :: rest | None => rest end)
          end
      end
  end.

Definition width_of (image : value) : number :=
  match Js.get "width" image with
  | VNum n => n
  | _ => NaN
  end.

(** The comparator [(a, b) => b.width - a.width] is positive. *)
Definition sorts_after (a b : value) : bool :=
  JsNum.ltb (JsNum.of_Z 0) (JsNum.sub (width_of b) (width_of a)).

(** [Array.prototype.sort] is stable: insertion from the right. *)
Fixpoint sort_insert (x : value) (sorted : list value) : list value :=
  match sorted with
  | [] => [x]
  | y :: rest => if sorts_after x y then y :: sort_insert x rest else x :: sorted
  end.

Definition sort_by_width_desc (images : list value) : list value :=
  fold_right sort_insert [] images.

Definition prepImg (img : list value) : outcome (list value) :=
  match prepImg_images img with
  | Throw e => Throw e
  | Return images => Return (sort_by_width_desc images)
  end.

Record SearchResponse : Type := mkSearchResponse {
  primaryContents : value;
  estimatedResults : value
}.

Definition parseSearchResponse (json : value) : option SearchResponse :=
  match Zod.safeParse YouTubeSearchResponseSchema json with
  | None => None
  | Some data =>
      Some (mkSearchResponse
              (Js.get "primaryContents"
                 (Js.get "twoColumnSearchResultsRenderer"
                    (Js.get "contents" data)))
              (Js.get "estimatedResults" data))
  end.

(** What the two unwrappers return; a [null] continuation is [None]. *)
Record Wrapper : Type := mkWrapper {
  rawItems : list value;
  continuation : option value
}.

Fixpoint filter_map {A B : Type} (f : A -> option B) (l : list A) : list B :=
  match l with
  | [] => []
  | x :: l' =>
      match f x with
      | Some y => y :: filter_map f l'
      | None => filter_map f l'
      end
  end.

(** The callback of the [map] in the grid branch of [parseWrapper]. *)
Definition richContent (x : value) : option value :=
  let fromSection :=
    if Js.has_key "richSectionRenderer" x then
      match Zod.safeParse YouTubeRichSectionRendererSchema x with
      | Some d => Some (Js.get "content" (Js.get "richSectionRenderer" d))
      | None => None
      end
    else None in
  if Js.has_key "richItemRenderer" x then
    match Zod.safeParse YouTubeRichItemRendererSchema x with
    | Some d => Some (Js.get "content" (Js.get "richItemRenderer" d))
    | None => fromSection
    end
  else fromSection.

(** [contents.find(x => 'continuationItemRenderer' in x)] and its
    validation. *)
Definition findContinuation (contents : list value) : option value :=
  let contItem := Js.find (Js.has_key "continuationItemRenderer") contents in
  if Js.truthy contItem
  then Zod.safeParse YouTubeContinuationItemRendererSchema contItem
  else None.

Definition parseWrapper (primaryContents : value) : Wrapper :=
  match Zod.safeParse YouTubePrimaryContentsSchema primaryContents with
  | None => mkWrapper [] None
  | Some data =>
      if Js.has_key "sectionListRenderer" data then
        let contents :=
          Js.elements (Js.get "contents" (Js.get "sectionListRenderer" data)) in
        let itemSection := Js.find (Js.has_key "itemSectionRenderer") contents in
        let rawItems :=
          if Js.truthy itemSection && Js.has_key "itemSectionRenderer" itemSection
          then
            match Zod.safeParse YouTubeItemSectionRendererSchema itemSection with
            | Some d =>
                Js.elements (Js.get "contents" (Js.get "itemSectionRenderer" d))
            | None => []
            end
          else [] in
        mkWrapper rawItems (findContinuation contents)
      else if Js.has_key "richGridRenderer" data then
        let contents :=
          Js.elements (Js.get "contents" (Js.get "richGridRenderer" data)) in
        let rawItems :=
          filter_map richContent
            (List.filter
               (fun x => negb (Js.has_key "continuationItemRenderer" x))
               contents) in
        mkWrapper rawItems (findContinuation contents)
      else mkWrapper [] None
  end.

Definition parsePage2Response (json : value) : option (list value) :=
  match Zod.safeParse YouTubePage2ResponseSchema json with
  | None => None
  | Some data =>
      match Js.elements (Js.get "onResponseReceivedCommands" data) with
      | [] => None
      | firstCommand :: _ =>
          if Js.truthy firstCommand
          then Some (Js.elements
                       (Js.get "continuationItems"
                          (Js.get "appendContinuationItemsAction" firstCommand)))
          else None
      end
  end.

(** The body of the loop of [parsePage2Wrapper]. *)
Definition parsePage2Wrapper_step (acc : Wrapper) (ci : value) : Wrapper :=
  match Zod.safeParse YouTubeRendererItemSchema ci with
  | None => acc
  | Some data =>
      if Js.has_key "itemSectionRenderer" data then
        match Zod.safeParse YouTubeItemSectionRendererSchema data with
        | Some d =>
            mkWrapper
              (rawItems acc ++
               Js.elements (Js.get "contents" (Js.get "itemSectionRenderer" d)))
              (continuation acc)
        | None => acc
        end
      else if Js.has_key "richItemRenderer" data then
        match Zod.safeParse YouTubeRichItemRendererSchema data with
        | Some d =>
            mkWrapper
              (rawItems acc ++ [Js.get "content" (Js.get "richItemRenderer" d)])
              (continuation acc)
        | None => acc
        end
      else if Js.has_key "richSectionRenderer" data then
        match Zod.safeParse YouTubeRichSectionRendererSchema data with
        | Some d =>
            mkWrapper
              (rawItems acc ++ [Js.get "content" (Js.get "richSectionRenderer" d)])
              (continuation acc)
        | None => acc
        end
      else if Js.has_key "continuationItemRenderer" data then
        match Zod.safeParse YouTubeContinuationItemRendererSchema data with
        | Some d => mkWrapper (rawItems acc) (Some d)
        | None => acc
        end
      else acc
  end.

Definition parsePage2Wrapper (continuationItems : list value) : Wrapper :=
  fold_left parsePage2Wrapper_step continuationItems (mkWrapper [] None).

(** [ParsedBodySchema.safeParse] succeeds on a [ParsedBody.t]: only a NaN
    among its numbers is refused. *)
Definition ParsedBodySchema_accepts (parsed : ParsedBody.t) : bool :=
  match ParsedBody.context parsed with
  | None => true
  | Some c => negb (JsNum.isNaN (Context.utcOffsetMinutes (Context.client c)))
  end.

Definition getPlaylistParams (parsed : ParsedBody.t) : option string :=
  if negb (ParsedBodySchema_accepts parsed)
     || negb (Js.truthy (ParsedBody.json parsed))
  then None
  else
    match Zod.safeParse YouTubeSearchHeaderSchema (ParsedBody.json parsed) with
    | None => None
    | Some header =>
        let groups :=
          Js.elements
            (Js.get "groups"
               (Js.get "searchFilterOptionsDialogRenderer"
                  (Js.get "popup"
                     (Js.get "openPopupAction"
                        (Js.get "command"
                           (Js.get "buttonRenderer"
                              (Js.get "searchFilterButton"
                                 (Js.get "searchHeaderRenderer"
                                    (Js.get "header" header)))))))))
        in
        if (length groups <? 2)%nat then None
        else
          let group := nth 1 groups VUndef in
          if negb (Js.truthy group) then None
          else
            let filters :=
              Js.elements
                (Js.get "filters" (Js.get "searchFilterGroupRenderer" group)) in
            if (length filters <? 3)%nat then None
            else
              let filter := nth 2 filters VUndef in
              if negb (Js.truthy filter) then None
              else
                match
                  Js.get "params"
                    (Js.get "searchEndpoint"
                       (Js.get "navigationEndpoint"
                          (Js.get "searchFilterRenderer" filter)))
                with
                | VStr params => Some params
                | _ => None
                end
    end.

(** [s.includes(sub)]. *)
Definition includes (sub s : string) : bool :=
  match String.index 0 sub s with
  | Some _ => true
  | None => false
  end.

Definition SearchType_of_value (v : value) : option SearchType :=
  match v with
  | VStr s =>
      if String.eqb s "video" then Some video
      else if String.eqb s "playlist" then Some playlist
      else None
  | _ => None
  end.

(** The cookie header [checkArgs] sends: the caller's, with the consent
    cookie added when it has none. *)
Definition withConsentCookie (headers : Headers.t) : Headers.t :=
  let cookie :=
    match Headers.get "cookie" headers with
    | Some c => if nonempty c then Some c else Headers.get "Cookie" headers
    | None => Headers.get "Cookie" headers
    end in
  match cookie with
  | None => Headers.set "cookie" CONSENT_COOKIE headers
  | Some c =>
      if negb (nonempty c) then Headers.set "cookie" CONSENT_COOKIE headers
      else if negb (includes "SOCS=" c)
      then Headers.set "cookie" (c ++ "; " ++ CONSENT_COOKIE) headers
      else headers
  end.

(** The query of a filter link: every key of the link with its first
    value, in the order the keys are added to the object ([Object_entries]
    gives the order in which they are read back). *)
Definition queryOfSearchParams (params : list (string * string))
  : list (string * string) :=
  fold_left
    (fun query key =>
       Dict.set key
         (match Dict.get key params with Some v => v | None => "" end) query)
    (map fst params) [].

(** [checkArgs] after its first checks and its write to [options.type]:
    the copy [obj], its corrections, the headers, the query and the final
    validation by [NormalizedOptionsSchema]. *)
Definition normalizeOptions (searchString : string) (options : SearchOptions.t)
  : outcome NormalizedOptions.t :=
  let type :=
    match SearchType_of_value (SearchOptions.type options) with
    | Some t => t
    | None => video
    end in
  (* const obj = { ...DEFAULT_OPTIONS, ...options } *)
  let obj_limit :=
    match SearchOptions.limit options with
    | Some l =>
        if JsNum.isNaN l || JsNum.leb l (JsNum.of_Z 0)
        then DEFAULT_OPTIONS_limit else l
    | None => DEFAULT_OPTIONS_limit
    end in
  let obj_safeSearch :=
    match SearchOptions.safeSearch options with
    | Some b => b
    | None => DEFAULT_OPTIONS_safeSearch
    end in
  let requestOptionsValue :=
    match SearchOptions.requestOptions options with
    | Some r => r
    | None => RequestInit.empty
    end in
  match Headers.new (RequestInit.headers requestOptionsValue) with
  | None => Throw TypeError
  | Some headers =>
      let headers := withConsentCookie headers in
      let obj_requestOptions :=
        RequestInit.mk headers
          (RequestInit.method requestOptionsValue)
          (RequestInit.keepalive requestOptionsValue)
          (RequestInit.body requestOptionsValue)
          (RequestInit.others requestOptionsValue) in
      match URL_new platform searchString BASE_URL with
      | None => Throw TypeError
      | Some inputURL =>
          let isFilterLink :=
            String.prefix BASE_URL searchString
            && String.eqb (pathname inputURL) "/results"
            && match Dict.get "sp" (searchParams inputURL) with
               | Some _ => true
               | None => false
               end in
          let missingSearch :=
            match Dict.get "search_query" (searchParams inputURL) with
            | Some q => negb (nonempty q)
            | None => true
            end in
          if isFilterLink && missingSearch then
            Throw (Error ("filter links have to include a " ++ dquote
                          ++ "search_string" ++ dquote ++ " query"))
          else
            let query :=
              if isFilterLink then queryOfSearchParams (searchParams inputURL)
              else [("search_query", searchString)] in
            let search := Dict.get "search_query" query in
            let query := Dict.spread DEFAULT_QUERY query in
            let query :=
              match SearchOptions.gl options with
              | Some g => if nonempty g then Dict.set "gl" g query else query
              | None => query
              end in
            let query :=
              match SearchOptions.hl options with
              | Some h => if nonempty h then Dict.set "hl" h query else query
              | None => query
              end in
            (* NormalizedOptionsSchema.parse *)
            match search, SearchOptions.utcOffsetMinutes options with
            | None, _ => Throw ZodError
            | Some _, Some NaN => Throw ZodError
            | Some search, utcOffsetMinutes =>
                Return
                  (NormalizedOptions.mk obj_limit obj_safeSearch type
                     (Some obj_requestOptions) query search
                     (SearchOptions.gl options) (SearchOptions.hl options)
                     utcOffsetMinutes)
            end
      end
  end.

(** The write of [checkArgs] into the caller's object:
    [options.type = 'video'] unless the type is a search type. *)
Definition defaultType (options : SearchOptions.t) : SearchOptions.t :=
  match SearchType_of_value (SearchOptions.type options) with
  | Some _ => options
  | None => SearchOptions.set_type (VStr "video") options
  end.

(** [checkArgs(searchString, options)]: the caller's options object after
    the call, and the normalized options or the exception thrown. *)
Definition checkArgs (searchString : string) (options : SearchOptions.t)
  : SearchOptions.t * outcome NormalizedOptions.t :=
  if String.eqb searchString "" then
    (options, Throw (Error "search string is mandatory"))
  else
    let options := defaultType options in
    (options, normalizeOptions searchString options).

(** ** The world of a search

    The process-wide [CACHE], the options object of the caller (the same
    object is handed to every retry), the environment variable the code
    reads, the replies the network will give to the next requests and the
    requests issued so far.  Once the replies are used up a request
    fails. *)

Inductive reply : Type :=
| NetworkFailure
| Response (text : string) (json : option value).

Inductive payload : Type :=
| SearchPayload (context : option Context.t) (query : string)
| PlaylistPayload (context : option Context.t) (params : option string)
    (query : string)
| ContinuationPayload (context : option Context.t) (token : string).

Inductive request : Type :=
| GET (url : string) (query : list (string * string))
    (init : option RequestInit.t)
| POST (url : string) (init : option RequestInit.t) (body : payload).

Record World : Type := mkWorld {
  CACHE : gmap string string;
  options : SearchOptions.t;
  YTSR_DISABLE_KEEPALIVE : option string;
  network : list reply;
  requests : list request
}.

Definition set_CACHE (c : gmap string string) (w : World) : World :=
  mkWorld c (options w) (YTSR_DISABLE_KEEPALIVE w) (network w) (requests w).
Definition set_options (o : SearchOptions.t) (w : World) : World :=
  mkWorld (CACHE w) o (YTSR_DISABLE_KEEPALIVE w) (network w) (requests w).
Definition set_network (n : list reply) (r : list request) (w : World) : World :=
  mkWorld (CACHE w) (options w) (YTSR_DISABLE_KEEPALIVE w) n r.

(** Computations that read and write the world and may throw. *)
Definition M (A : Type) : Type := World -> outcome A * World.

Definition ret {A : Type} (a : A) : M A := fun w => (Return a, w).
Definition throw {A : Type} (e : exn) : M A := fun w => (Throw e, w).
Definition bind {A B : Type} (m : M A) (k : A -> M B) : M B :=
  fun w =>
    match m w with
    | (Return a, w') => k a w'
    | (Throw e, w') => (Throw e, w')
    end.
(** [try { m } catch (e) { handler(e) }]. *)
Definition try_catch {A : Type} (m : M A) (handler : exn -> M A) : M A :=
  fun w =>
    match m w with
    | (Return a, w') => (Return a, w')
    | (Throw e, w') => handler e w'
    end.
Definition lift {A : Type} (o : outcome A) : M A := fun w => (o, w).
Definition gets {A : Type} (f : World -> A) : M A := fun w => (Return (f w), w).
Definition modify (f : World -> World) : M unit := fun w => (Return tt, f w).

Notation "'let*' x := m 'in' k" := (bind m (fun x => k))
  (at level 10, x name, m at level 100, k at level 200).
Notation "'do' m 'in' k" := (bind m (fun _ => k))
  (at level 10, m at level 100, k at level 200).

(** ** [parseItem] *)

(** [Number(v)] on the values the code applies it to (strings, numbers
    and [undefined]). *)
Definition Number_of_value (v : value) : number :=
  match v with
  | VNum n => n
  | VStr s => Number_of_string s
  | VNull => JsNum.of_Z 0
  | VBool b => JsNum.of_Z (if b then 1 else 0)
  | _ => NaN
  end.

Definition is_null (v : value) : bool :=
  match v with VNull => true | _ => false end.

(** [prepImg(x)[0]], [undefined] on an empty list. *)
Definition first_image (images : list value) : value :=
  match images with
  | [] => VUndef
  | i :: _ => i
  end.

(** The owner badges' tooltips:
    [obj.ownerBadges.map((a) => a.metadataBadgeRenderer.tooltip)]. *)
Definition ownerBadgeTooltips (ownerBadges : value) : list value :=
  if Js.truthy ownerBadges
  then map (fun a => Js.get "tooltip" (Js.get "metadataBadgeRenderer" a))
           (Js.elements ownerBadges)
  else [].

(** [isOfficial || isVerified]. *)
Definition verifiedBadge (ownerBadges : value) : bool :=
  if Js.truthy ownerBadges then
    let ownerBadgesString := JSON_stringify platform ownerBadges in
    includes "OFFICIAL" ownerBadgesString || includes "VERIFIED" ownerBadgesString
  else false.

(** [browseEndpoint.canonicalBaseUrl ||
     navigationEndpoint.commandMetadata?.webCommandMetadata?.url]. *)
Definition channelUrl (navigationEndpoint : value) : value :=
  Js.or (Js.get "canonicalBaseUrl" (Js.get "browseEndpoint" navigationEndpoint))
        (Js.get "url"
           (Js.get "webCommandMetadata"
              (Js.get "commandMetadata" navigationEndpoint))).

(** The object [result] that [parseAuthor] builds. *)
Definition authorResult (obj author : value) (url : URL) (avatars : list value)
  : value :=
  VObj
    [("name", Js.get "text" author);
     ("channelID",
      Js.get "browseId" (Js.get "browseEndpoint" (Js.get "navigationEndpoint" author)));
     ("url", VStr (href url));
     ("bestAvatar", Js.or (first_image avatars) VNull);
     ("avatars", VArr avatars);
     ("ownerBadges", VArr (ownerBadgeTooltips (Js.get "ownerBadges" obj)));
     ("verified", VBool (verifiedBadge (Js.get "ownerBadges" obj)))].

Definition parseAuthor (obj : value) : outcome value :=
  let ctsr := Js.get "channelThumbnailSupportedRenderers" obj in
  let authorImg :=
    Js.or (Js.get "channelThumbnailWithLinkRenderer" ctsr)
          (VObj [("thumbnail", VObj [("thumbnails", VArr [])])]) in
  let author := Js.at_index 0 (Js.get "runs" (Js.get "ownerText" obj)) in
  if negb (Js.truthy author)
     || negb (Js.truthy (Js.get "navigationEndpoint" author))
  then Return VNull
  else
    let navigationEndpoint := Js.get "navigationEndpoint" author in
    let browseEndpoint := Js.get "browseEndpoint" navigationEndpoint in
    let authorUrl := channelUrl navigationEndpoint in
    if negb (Js.truthy authorUrl)
       || negb (Js.truthy (Js.get "browseId" browseEndpoint))
    then Return VNull
    else
      match URL_new platform (Js.str authorUrl) BASE_VIDEO_URL with
      | None => Throw TypeError
      | Some url =>
          match
            prepImg (Js.elements (Js.get "thumbnails" (Js.get "thumbnail" authorImg)))
          with
          | Throw e => Throw e
          | Return avatars =>
              match Zod.safeParse AuthorSchema (authorResult obj author url avatars) with
              | Some a => Return a
              | None => Return VNull
              end
          end
      end.

(** The object [result] that [parseVideo] builds, given the prepared
    thumbnails and the parsed author. *)
Definition videoResult (obj : value) (thumbnails : list value) (author : value)
  : value :=
  let badges :=
    if Js.truthy (Js.get "badges" obj)
    then map (fun a => Js.get "label" (Js.get "metadataBadgeRenderer" a))
             (Js.elements (Js.get "badges" obj))
    else [] in
  let isLive :=
    existsb (fun b => is_str "LIVE NOW" b || is_str "LIVE" b) badges in
  let upcoming :=
    if Js.truthy (Js.get "upcomingEventData" obj)
    then VNum (Number_of_string
                 (Js.str (Js.get "startTime" (Js.get "upcomingEventData" obj))
                  ++ "000"))
    else VNull in
  let lengthFallback :=
    Js.find (Js.has_key "thumbnailOverlayTimeStatusRenderer")
            (Js.elements (Js.get "thumbnailOverlays" obj)) in
  let lengthText :=
    Js.get "text" (Js.get "thumbnailOverlayTimeStatusRenderer" lengthFallback) in
  let length := Js.or (Js.get "lengthText" obj) lengthText in
  VObj
    [("type", VStr "video");
     ("name", VStr (parseText (Js.get "title" obj)));
     ("id", Js.get "videoId" obj);
     ("url", VStr (BASE_VIDEO_URL ++ Js.str (Js.get "videoId" obj)));
     ("thumbnail", Js.or (Js.get "url" (first_image thumbnails)) (VStr ""));
     ("thumbnails", VArr thumbnails);
     ("isUpcoming", VBool (Js.truthy upcoming));
     ("upcoming", upcoming);
     ("isLive", VBool isLive);
     ("badges", VArr badges);
     ("author", author);
     ("description", VStr (parseText (Js.get "descriptionSnippet" obj)));
     ("views",
      if Js.truthy (Js.get "viewCountText" obj)
      then VNum (parseIntegerFromText (Js.get "viewCountText" obj))
      else VNull);
     ("duration", VStr (parseText length));
     ("uploadedAt", VStr (parseText (Js.get "publishedTimeText" obj)))].

Definition parseVideo (obj : value) : outcome (option value) :=
  match prepImg (Js.elements (Js.get "thumbnails" (Js.get "thumbnail" obj))) with
  | Throw e => Throw e
  | Return thumbnails =>
      match parseAuthor obj with
      | Throw e => Throw e
      | Return author =>
          Return (Zod.safeParse VideoSchema (videoResult obj thumbnails author))
      end
  end.

Definition parseOwner (obj : value) : outcome value :=
  if Js.truthy (Js.get "simpleText" (Js.get "shortBylineText" obj))
  then Return VNull
  else
    let owner :=
      Js.or (Js.at_index 0 (Js.get "runs" (Js.get "shortBylineText" obj)))
            (Js.at_index 0 (Js.get "runs" (Js.get "longBylineText" obj))) in
    if negb (Js.truthy (Js.get "navigationEndpoint" owner)) then Return VNull
    else
      let navigationEndpoint := Js.get "navigationEndpoint" owner in
      let browseEndpoint := Js.get "browseEndpoint" navigationEndpoint in
      let ownerUrl := channelUrl navigationEndpoint in
      if negb (Js.truthy ownerUrl)
         || negb (Js.truthy (Js.get "browseId" browseEndpoint))
      then Return VNull
      else
        match URL_new platform (Js.str ownerUrl) BASE_VIDEO_URL with
        | None => Throw TypeError
        | Some url =>
            let result :=
              VObj
                [("name", Js.get "text" owner);
                 ("channelID", Js.get "browseId" browseEndpoint);
                 ("url", VStr (href url));
                 ("ownerBadges",
                  VArr (ownerBadgeTooltips (Js.get "ownerBadges" obj)));
                 ("verified", VBool (verifiedBadge (Js.get "ownerBadges" obj)));
                 ("bestAvatar", VNull);
                 ("avatars", VArr [])]
            in
            match Zod.safeParse AuthorSchema result with
            | Some a => Return a
            | None => Return VNull
            end
        end.

Definition parsePlaylist (obj : value) : outcome (option value) :=
  match parseOwner obj with
  | Throw e => Throw e
  | Return owner =>
      let result :=
        VObj
          [("type", VStr "playlist");
           ("id", Js.get "playlistId" obj);
           ("name", VStr (parseText (Js.get "title" obj)));
           ("url",
            VStr ("https://www.youtube.com/playlist?list="
                  ++ Js.str (Js.get "playlistId" obj)));
           ("owner", owner);
           ("publishedAt", VStr (parseText (Js.get "publishedTimeText" obj)));
           ("length", VNum (Number_of_value (Js.get "videoCount" obj)))]
      in
      Return (Zod.safeParse PlaylistSchema result)
  end.

(** [parseItem(item)]: the entity, [None] for [null]; [Throw] when a URL
    of the renderer does not parse. *)
Definition parseItem (item : value) : outcome (option value) :=
  match Zod.safeParse YouTubeItemSchema item with
  | None => Return None
  | Some itemData =>
      if Js.has_key "videoRenderer" itemData
      then parseVideo (Js.get "videoRenderer" itemData)
      else if Js.has_key "playlistRenderer" itemData
      then parsePlaylist (Js.get "playlistRenderer" itemData)
      else if Js.has_key "gridVideoRenderer" itemData
      then parseVideo (Js.get "gridVideoRenderer" itemData)
      else Return None
  end.

(** ** The entry point *)

Definition BASE_SEARCH_URL : string := "https://www.youtube.com/results".
Definition BASE_API_URL : string := "https://www.youtube.com/youtubei/v1/search".

(** The [CACHE] map as the module creates it. *)
Definition CACHE_at_load : gmap string string :=
  <["playlistParams" := "EgIQAw%3D%3D"]>
    (<["clientVersion" := "2.20240606.06.00"]> ∅).

(** [CACHE.has(key)]. *)
Definition CACHE_has (key : string) (cache : gmap string string) : bool :=
  match cache !! key with
  | Some _ => true
  | None => false
  end.

Record Result : Type := mkResult {
  query : string;
  items : list value;
  results : number
}.

(** The first statement of [saveCache]: the client version of the parsed
    page is cached, or else the cached one makes the context. *)
Definition saveClientVersion (parsed : ParsedBody.t) (opts : NormalizedOptions.t)
  : M ParsedBody.t :=
  let clientVersion :=
    match ParsedBody.context parsed with
    | Some c => Context.clientVersion (Context.client c)
    | None => ""
    end in
  if nonempty clientVersion then
    do modify (fun w => set_CACHE (<["clientVersion" := clientVersion]> (CACHE w)) w)
    in ret parsed
  else
    let* cache := gets CACHE in
    match cache !! "clientVersion" with
    | Some cached =>
        ret (ParsedBody.set_context (Some (buildPostContext cached opts)) parsed)
    | None => ret parsed
    end.

(** The last two statements of [saveCache]. *)
Definition savePlaylistParams (parsed : ParsedBody.t) : M ParsedBody.t :=
  match getPlaylistParams parsed with
  | Some plParams =>
      if nonempty plParams then
        do modify (fun w => set_CACHE (<["playlistParams" := plParams]> (CACHE w)) w)
        in ret parsed
      else ret parsed
  | None => ret parsed
  end.

(** [saveCache(parsed, opts)]; it returns [parsed] as the call leaves
    it. *)
Definition saveCache (parsed : ParsedBody.t) (opts : NormalizedOptions.t)
  : M ParsedBody.t :=
  let* parsed := saveClientVersion parsed opts in
  savePlaylistParams parsed.

(** The init a POST is sent with:
    [{ ...opts.requestOptions, method: 'POST', headers }], where [headers]
    is [new Headers(opts.requestOptions?.headers)], a copy of the
    [Headers] object that [checkArgs] made, with the JSON content type. *)
Definition postInit (opts : NormalizedOptions.t) : RequestInit.t :=
  let requestOptions :=
    match NormalizedOptions.requestOptions opts with
    | Some r => r
    | None => RequestInit.empty
    end in
  RequestInit.mk
    (Headers.set "Content-Type" "application/json"
       (Headers.copy (RequestInit.headers requestOptions)))
    (Some "POST")
    (RequestInit.keepalive requestOptions)
    (RequestInit.body requestOptions)
    (RequestInit.others requestOptions).

(** What [doPost] resolves to on a reply: [fetch] rejects on a network
    failure, [r.json()] on a body that is not JSON. *)
Definition doPost_reply (r : option reply) : outcome value :=
  match r with
  | None | Some NetworkFailure => Throw FetchError
  | Some (Response _ None) => Throw SyntaxError
  | Some (Response _ (Some json)) => Return json
  end.

Definition doPost (url : string) (opts : RequestInit.t) (body : payload)
  : M value :=
  fun w =>
    (doPost_reply (head (network w)),
     set_network (tail (network w)) (requests w ++ [POST url (Some opts) body]) w).

(** [fetch(url, fetchOpts)] followed by [res.text()]. *)
Definition fetchText (url : string) (query : list (string * string))
  (fetchOpts : option RequestInit.t) : M string :=
  fun w =>
    (match head (network w) with
     | None | Some NetworkFailure => Throw FetchError
     | Some (Response text _) => Return text
     end,
     set_network (tail (network w)) (requests w ++ [GET url query fetchOpts]) w).

Fixpoint parseItems (rawItems : list value) : outcome (list (option value)) :=
  match rawItems with
  | [] => Return []
  | a :: rest =>
      match parseItem a with
      | Throw e => Throw e
      | Return r =>
          match parseItems rest with
          | Throw e => Throw e
          | Return rs => Return (r :: rs)
          end
      end
  end.

Definition has_type (t : SearchType) (r : value) : bool :=
  is_str (SearchType_name t) (Js.get "type" r).

(** The chain both [ytsr] and [parsePage2] apply to the raw items:
    [rawItems.map(parseItem)
       .filter((r) => r !== null && r.type === opts.type)
       .filter((_, index) => index < opts.limit)]. *)
Definition selectItems (rawItems : list value) (opts : NormalizedOptions.t)
  : outcome (list value) :=
  match parseItems rawItems with
  | Throw e => Throw e
  | Return parsed =>
      Return
        (Js.filter_index_lt (NormalizedOptions.limit opts) 0
           (List.filter (has_type (NormalizedOptions.type opts))
              (filter_map (fun r => r) parsed)))
  end.

(** [opts.limit -= items.length]. *)
Definition spend (n : nat) (opts : NormalizedOptions.t) : NormalizedOptions.t :=
  NormalizedOptions.set_limit
    (JsNum.sub (NormalizedOptions.limit opts) (JsNum.of_nat n)) opts.

(** The token of the continuation, [null] without one. *)
Definition tokenOf (continuation : option value) : value :=
  match continuation with
  | Some c => continuation_token c
  | None => VNull
  end.

(** [!token || opts.limit < 1]. *)
Definition done (token : value) (opts : NormalizedOptions.t) : bool :=
  negb (Js.truthy token)
  || JsNum.ltb (NormalizedOptions.limit opts) (JsNum.of_Z 1).

(** [parsePage2], by recursion on the replies still to come: every call
    takes one.  It returns the items (or the rejection), the options object
    as the call left it, the replies left and the requests issued. *)
Fixpoint parsePage2_on (net : list reply) (log : list request)
  (token : string) (context : option Context.t) (opts : NormalizedOptions.t)
  {struct net}
  : outcome (list value) * NormalizedOptions.t * list reply * list request :=
  let log :=
    log ++ [POST BASE_API_URL (Some (postInit opts))
              (ContinuationPayload context token)] in
  match net with
  | [] => (Throw FetchError, opts, [], log)
  | r :: net' =>
      match doPost_reply (Some r) with
      | Throw e => (Throw e, opts, net', log)
      | Return json =>
          match parsePage2Response json with
          | None => (Return [], opts, net', log)
          | Some items =>
              (* try *)
              let wrapper := parsePage2Wrapper items in
              match selectItems (rawItems wrapper) opts with
              | Throw _ => (Return [], opts, net', log)
              | Return parsedItems =>
                  let opts := spend (length parsedItems) opts in
                  let nextToken := tokenOf (continuation wrapper) in
                  if done nextToken opts then (Return parsedItems, opts, net', log)
                  else
                    match
                      parsePage2_on net' log (Js.str nextToken) context opts
                    with
                    | (Throw _, opts', net'', log') =>
                        (Return [], opts', net'', log')
                    | (Return nestedResp, opts', net'', log') =>
                        (Return
                           (parsedItems
                            ++ List.filter (fun item => negb (is_null item)) nestedResp),
                         opts', net'', log')
                    end
              end
          end
      end
  end.

Definition parsePage2 (token : string) (context : option Context.t)
  (opts : NormalizedOptions.t) : M (list value * NormalizedOptions.t) :=
  fun w =>
    match parsePage2_on (network w) (requests w) token context opts with
    | (Return r, opts', net', log') => (Return (r, opts'), set_network net' log' w)
    | (Throw e, _, net', log') => (Throw e, set_network net' log' w)
    end.

(** [checkArgs(searchString, options)] on the caller's object. *)
Definition checkArgs_options (searchString : string) : M NormalizedOptions.t :=
  fun w =>
    let (options', r) := checkArgs searchString (options w) in
    (r, set_options options' w).

(** The page fetch of an attempt:
    [fetch(url, fetchOpts)], [res.text()] and [parseBody]. *)
Definition fetchPage (opts : NormalizedOptions.t)
  : M (ParsedBody.t * NormalizedOptions.t) :=
  let* env := gets YTSR_DISABLE_KEEPALIVE in
  let disable :=
    match env with Some v => String.eqb v "true" | None => false end in
  let fetchOpts :=
    match NormalizedOptions.requestOptions opts with
    | Some r => r
    | None => RequestInit.empty
    end in
  let fetchOpts :=
    if disable then
      RequestInit.mk (RequestInit.headers fetchOpts) (RequestInit.method fetchOpts)
        (Some false) (RequestInit.body fetchOpts) (RequestInit.others fetchOpts)
    else fetchOpts in
  (* fetchOpts is opts.requestOptions itself when there is one *)
  let opts :=
    match NormalizedOptions.requestOptions opts with
    | Some _ => NormalizedOptions.set_requestOptions (Some fetchOpts) opts
    | None => opts
    end in
  let* body :=
    fetchText BASE_SEARCH_URL (Object_entries (NormalizedOptions.query opts))
      (Some fetchOpts) in
  ret (parseBody body opts, opts).

(** [estimatedResults] as a number. *)
Definition resultsOf (estimatedResults : value) : number :=
  match estimatedResults with
  | VNum n => n
  | VStr s =>
      let n := Number_of_string s in
      if JsNum.truthy n then n else JsNum.of_Z 0
  | _ => JsNum.of_Z 0
  end.

(** [shouldFetch]. *)
Definition shouldFetch (opts : NormalizedOptions.t) (cache : gmap string string)
  : bool :=
  negb (NormalizedOptions.safeSearch opts)
  || negb (CACHE_has "clientVersion" cache)
  || negb (CACHE_has "playlistParams" cache).

(** The result object: the items of the requested type. *)
Definition resultOf (opts : NormalizedOptions.t) (items : list value)
  (results : number) : Result :=
  mkResult (NormalizedOptions.search opts)
    (List.filter (has_type (NormalizedOptions.type opts)) items) results.

(** The first lines of [ytsr]: the second attempt of three forgets the
    cached parameters. *)
Definition forgetOnSecondAttempt (retries : nat) : M unit :=
  if Nat.eqb retries 2 then
    modify (fun w =>
      set_CACHE (delete "playlistParams" (delete "clientVersion" (CACHE w))) w)
  else ret tt.

(** The branch of [ytsr] on [opts.type]: the POST of the search when one
    is due (always for playlists; for videos under safe search or without
    JSON from the page).  It returns [parsed] with the JSON to unwrap. *)
Definition postSearch (searchString : string) (retries : nat)
  (parsed : ParsedBody.t) (opts : NormalizedOptions.t) : M ParsedBody.t :=
  match NormalizedOptions.type opts with
  | playlist =>
      let* cache := gets CACHE in
      let params := cache !! "playlistParams" in
      let* json :=
        doPost BASE_API_URL (postInit opts)
          (PlaylistPayload (ParsedBody.context parsed) params searchString) in
      if negb (Js.truthy json)
      then throw (Error "Cannot searching for Playlist!")
      else ret (ParsedBody.set_json json parsed)
  | video =>
      if NormalizedOptions.safeSearch opts
         || negb (Js.truthy (ParsedBody.json parsed))
      then
        try_catch
          (let* json :=
             doPost BASE_API_URL (postInit opts)
               (SearchPayload (ParsedBody.context parsed) searchString) in
           ret (ParsedBody.set_json json parsed))
          (fun e => if Nat.eqb retries 1 then throw e else ret parsed)
      else ret parsed
  end.

(** The end of [ytsr], from [if (!parsed.json)] on: the unwrapping of the
    first page and the walk of the continuations.  [retry] is the call
    [ytsr(searchString, options, retries - 1)]. *)
Definition collect (retry : M Result) (parsed : ParsedBody.t)
  (opts : NormalizedOptions.t) : M Result :=
  if negb (Js.truthy (ParsedBody.json parsed)) then retry
  else
    match parseSearchResponse (ParsedBody.json parsed) with
    | None => retry
    | Some searchResponse =>
        let wrapper := parseWrapper (primaryContents searchResponse) in
        let* items := lift (selectItems (rawItems wrapper) opts) in
        let opts := spend (length items) opts in
        let results := resultsOf (estimatedResults searchResponse) in
        let token := tokenOf (continuation wrapper) in
        if done token opts then ret (resultOf opts items results)
        else
          let* nested :=
            parsePage2 (Js.str token) (ParsedBody.context parsed) opts in
          let allItems :=
            items ++ List.filter (fun item => negb (is_null item)) (fst nested) in
          ret (resultOf opts allItems results)
    end.

(** One attempt: the body of [ytsr] from [checkArgs] on. *)
Definition attempt (searchString : string) (retries : nat) (retry : M Result)
  : M Result :=
  let* opts := checkArgs_options searchString in
  let parsed := ParsedBody.mk VUndef None None in
  let* cache := gets CACHE in
  let* fetched :=
    if shouldFetch opts cache then fetchPage opts else ret (parsed, opts) in
  let parsed := fst fetched in
  let opts := snd fetched in
  let* parsed := saveCache parsed opts in
  let* parsed := postSearch searchString retries parsed opts in
  collect retry parsed opts.

(** [ytsr(searchString, options, retries)], the options object being the
    one of the world. *)
Fixpoint ytsr (searchString : string) (retries : nat) {struct retries}
  : M Result :=
  do forgetOnSecondAttempt retries in
  match retries with
  | 0 => throw (Error "Unable to find JSON!")
  | S retries' => attempt searchString retries (ytsr searchString retries')
  end.

End Ytsr.

(** ** [parseItem], the version with lockup view models

    A later version of the [parseItem] module: the same schemas and
    parsers, and a first branch of [parseItem] for items that carry a
    [lockupViewModel], from which [parsePlaylistFromLockup] reads a
    playlist field by field. *)

Module Lockup.

(** [x && typeof x === 'object']: an object or an array. *)
Definition is_objectish (v : value) : bool :=
  match v with
  | VObj _ | VArr _ => true
  | _ => false
  end.

(** The run of digits a string starts with. *)
Fixpoint take_digits (s : string) : string :=
  match s with
  | EmptyString => EmptyString
  | String c s' => if is_digit c then String c (take_digits s') else EmptyString
  end.

(** [text.match(/(\d+)/)]: the first run of digits, [None] without one. *)
Fixpoint firstDigits (text : string) : option string :=
  match text with
  | EmptyString => None
  | String c text' =>
      if is_digit c then Some (take_digits text) else firstDigits text'
  end.

(** The owner read from the first part of the first metadata row; [null]
    as soon as a level is missing. *)
Definition ownerOf (lockupMeta : value) : value :=
  let contentMetadata := Js.get "metadata" lockupMeta in
  if negb (is_objectish contentMetadata) then VNull
  else
    let contentMetaViewModel :=
      Js.get "contentMetadataViewModel" contentMetadata in
    if negb (is_objectish contentMetaViewModel) then VNull
    else
      match Js.get "metadataRows" contentMetaViewModel with
      | VArr (firstRow :: _) =>
          if negb (is_objectish firstRow) then VNull
          else
            match Js.get "metadataParts" firstRow with
            | VArr (firstPart :: _) =>
                if negb (is_objectish firstPart) then VNull
                else
                  let text := Js.get "text" firstPart in
                  if negb (is_objectish text) then VNull
                  else
                    match Js.get "content" text with
                    | VStr ownerName =>
                        VObj [("name", VStr ownerName);
                              ("channelID", VStr "");
                              ("url", VStr "");
                              ("ownerBadges", VArr []);
                              ("verified", VBool false);
                              ("bestAvatar", VNull);
                              ("avatars", VArr [])]
                    | _ => VNull
                    end
            | _ => VNull
            end
      | _ => VNull
      end.

Section WithPlatform.
Variable platform : Builtins.

(** One step of the inner loop: the number in the text of a badge. *)
Definition badgeCount (tb : value) : option number :=
  if negb (is_objectish tb) then None
  else
    let tbm := Js.get "thumbnailBadgeViewModel" tb in
    if negb (is_objectish tbm) then None
    else
      match Js.get "text" tbm with
      | VStr text =>
          match firstDigits text with
          | Some digits => Some (Number_of_string platform digits)
          | None => None
          end
      | _ => None
      end.

(** The inner loop, which stops at the first badge with a number. *)
Fixpoint firstCount (thumbnailBadges : list value) : option number :=
  match thumbnailBadges with
  | [] => None
  | tb :: rest =>
      match badgeCount tb with
      | Some n => Some n
      | None => firstCount rest
      end
  end.

(** The body of the outer loop: the number an overlay assigns to
    [length], if any. *)
Definition overlayCount (overlay : value) : option number :=
  if negb (is_objectish overlay) then None
  else
    let badge := Js.get "thumbnailOverlayBadgeViewModel" overlay in
    if negb (is_objectish badge) then None
    else
      match Js.get "thumbnailBadges" badge with
      | VArr thumbnailBadges => firstCount thumbnailBadges
      | _ => None
      end.

(** The outer loop: every overlay with a number assigns [length]; the
    [break] leaves the inner loop only. *)
Definition countOverlays (overlays : list value) : number :=
  fold_left
    (fun length overlay =>
       match overlayCount overlay with
       | Some n => n
       | None => length
       end)
    overlays (JsNum.of_Z 0).

(** The video count read from the badges of the thumbnail. *)
Definition lengthOf (lockup : value) : number :=
  let contentImage := Js.get "contentImage" lockup in
  if negb (is_objectish contentImage) then JsNum.of_Z 0
  else
    let collectionThumbnail :=
      Js.get "collectionThumbnailViewModel" contentImage in
    if negb (is_objectish collectionThumbnail) then JsNum.of_Z 0
    else
      let primaryThumbnail := Js.get "primaryThumbnail" collectionThumbnail in
      if negb (is_objectish primaryThumbnail) then JsNum.of_Z 0
      else
        let thumbnailViewModel :=
          Js.get "thumbnailViewModel" primaryThumbnail in
        if negb (is_objectish thumbnailViewModel) then JsNum.of_Z 0
        else
          match Js.get "overlays" thumbnailViewModel with
          | VArr overlays => countOverlays overlays
          | _ => JsNum.of_Z 0
          end.

(** [parsePlaylistFromLockup(lockup)]; whatever is thrown inside is
    caught and gives [null]. *)
Definition parsePlaylistFromLockup (lockup : value) : option value :=
  match Js.get "contentId" lockup with
  | VStr contentId =>
      let metadata := Js.get "metadata" lockup in
      if negb (is_objectish metadata) then None
      else
        let lockupMeta := Js.get "lockupMetadataViewModel" metadata in
        if negb (is_objectish lockupMeta) then None
        else
          let title := Js.get "title" lockupMeta in
          if negb (is_objectish title) then None
          else
            match Js.get "content" title with
            | VStr name =>
                Zod.safeParse PlaylistSchema
                  (VObj [("type", VStr "playlist");
                         ("id", VStr contentId);
                         ("name", VStr name);
                         ("url",
                          VStr ("https://www.youtube.com/playlist?list="
                                ++ contentId));
                         ("owner", ownerOf lockupMeta);
                         ("publishedAt", VNull);
                         ("length", VNum (lengthOf lockup))])
            | _ => None
            end
  | _ => None
  end.

(** [parseItem(item)] of this version: the [in] operator throws on what
    is no object. *)
Definition parseItem (item : value) : outcome (option value) :=
  match item with
  | VObj fs =>
      if Js.has "lockupViewModel" fs
      then Return (parsePlaylistFromLockup (Js.lookup "lockupViewModel" fs))
      else parseItem platform item
  | VArr _ => parseItem platform item
  | _ => Throw TypeError
  end.

End WithPlatform.

End Lockup.

(** * Vocabulary of the properties, and documents for concrete runs *)

(** A platform for search strings and documents that hold no absolute URL,
    no JSON text and no number written with other characters than digits:
    a relative input resolves against the base, and text that is not a run
    of digits reads as NaN. *)
Definition simplePlatform : Builtins :=
  mkBuiltins
    (fun _ => None)
    (fun _ => "")
    (fun input base => Some (mkURL (BASE_URL ++ input) ("/" ++ input) []))
    (fun _ => NaN).

(** The world once both cached parameters are forgotten. *)
Definition forgotten (w : World) : World :=
  set_CACHE (delete "playlistParams" (delete "clientVersion" (CACHE w))) w.

(** The limit and the safe-search flag [checkArgs] puts in its copy. *)
Definition correctedLimit (limit : option number) : number :=
  match limit with
  | Some l =>
      if JsNum.isNaN l || JsNum.leb l (JsNum.of_Z 0)
      then DEFAULT_OPTIONS_limit else l
  | None => DEFAULT_OPTIONS_limit
  end.

(** The request fetches the search page. *)
Definition is_GET (q : request) : bool :=
  match q with
  | GET _ _ _ => true
  | POST _ _ _ => false
  end.

(** [w'] comes after [w]: requests were only added; unless a page was
    fetched in between (a GET among the added requests) every cache entry
    of [w'] is an entry of [w]; and the caller's options object is as it
    was, up to the write of [checkArgs]. *)
Definition follows (w w' : World) : Prop :=
  exists added,
    requests w' = requests w ++ added
    /\ (existsb is_GET added = false ->
        forall key v, CACHE w' !! key = Some v -> CACHE w !! key = Some v)
    /\ (options w' = options w \/ options w' = defaultType (options w)).

(** Whatever world [m] runs in, the world it leaves comes after it. *)
Definition preserves {A : Type} (m : M A) : Prop :=
  forall w, follows w (snd (m w)).

(** The request of one continuation step. *)
Definition continuationRequest (token : string) (context : option Context.t)
  (opts : NormalizedOptions.t) : request :=
  POST BASE_API_URL (Some (postInit opts)) (ContinuationPayload context token).

(** The request for the search page. *)
Definition pageRequest (opts : NormalizedOptions.t) (w : World) : request :=
  GET BASE_SEARCH_URL (Object_entries (NormalizedOptions.query opts))
    (Some
       (let fetchOpts :=
          match NormalizedOptions.requestOptions opts with
          | Some r => r
          | None => RequestInit.empty
          end in
        if match YTSR_DISABLE_KEEPALIVE w with
           | Some v => String.eqb v "true"
           | None => false
           end
        then RequestInit.mk (RequestInit.headers fetchOpts)
               (RequestInit.method fetchOpts) (Some false)
               (RequestInit.body fetchOpts) (RequestInit.others fetchOpts)
        else fetchOpts)).

(** The world an attempt starts its body in: the cache without its two
    keys on the attempt whose counter is 2. *)
Definition atAttempt (retries : nat) (w : World) : World :=
  if Nat.eqb retries 2 then forgotten w else w.

(** [n] items fit a limit: there is none, or the index of the last one
    is below the limit (as [index < limit] of JavaScript reads it). *)
Definition within (limit : number) (n : nat) : Prop :=
  n = 0%nat \/ JsNum.ltb (JsNum.of_nat (n - 1)) limit = true.

(** Every result of [m] holds what fits the corrected limit [L] of the
    caller's options. *)
Definition bounded (L : option number) (m : M Result) : Prop :=
  forall w r w',
    SearchOptions.limit (options w) = L ->
    m w = (Return r, w') ->
    within (correctedLimit L) (length (items r)).

(** An item with a video renderer: a video id, a title, an empty
    thumbnail list and a view-count text object. *)
Definition videoRenderer (id : string) : value :=
  VObj [("videoRenderer",
         VObj [("videoId", VStr id);
               ("title", VObj [("simpleText", VStr "a title")]);
               ("thumbnail", VObj [("thumbnails", VArr [])]);
               ("viewCountText", VObj [("simpleText", VStr "1,234 views")])])].

(** An item-section wrapper around [items]. *)
Definition itemSection (items : list value) : value :=
  VObj [("itemSectionRenderer", VObj [("contents", VArr items)])].

(** A continuation-token wrapper. *)
Definition continuationItem (token : string) : value :=
  VObj [("continuationItemRenderer",
         VObj [("continuationEndpoint",
                VObj [("continuationCommand", VObj [("token", VStr token)])])])].

(** The JSON of a first page whose section list is [contents]. *)
Definition searchResponse (contents : list value) : value :=
  VObj [("contents",
         VObj [("twoColumnSearchResultsRenderer",
                VObj [("primaryContents",
                       VObj [("sectionListRenderer",
                              VObj [("contents", VArr contents)])])])])].

(** The batch a reply carries: the entities of the requested type among
    its items, before the cut at the limit, and the token of its
    continuation ([null] without one). *)
Definition batch (platform : Builtins) (type : SearchType) (r : reply)
  (matching : list value) (next : value) : Prop :=
  exists json continuationItems parsed,
    doPost_reply (Some r) = Return json
    /\ parsePage2Response json = Some continuationItems
    /\ parseItems platform (rawItems (parsePage2Wrapper continuationItems))
       = Return parsed
    /\ List.filter (has_type type) (filter_map (fun r => r) parsed) = matching
    /\ tokenOf (continuation (parsePage2Wrapper continuationItems)) = next.

(** The JSON of a continuation reply. *)
Definition continuationResponse (continuationItems : list value) : value :=
  VObj [("onResponseReceivedCommands",
         VArr [VObj [("appendContinuationItemsAction",
                      VObj [("continuationItems", VArr continuationItems)])]])].

(** A page of four videos followed by a continuation token. *)
Definition pageOfFour (a b c d token : string) : reply :=
  Response ""
    (Some (continuationResponse
             [itemSection [videoRenderer a; videoRenderer b;
                           videoRenderer c; videoRenderer d];
              continuationItem token])).

(** Normalized options of a search for ten videos. *)
Definition tenVideos : NormalizedOptions.t :=
  NormalizedOptions.mk (JsNum.of_Z 10) false video None [] "test" None None None.

(** The entity [parseItem] makes of [videoRenderer id]. *)
Definition videoEntity (id : string) : value :=
  VObj [("type", VStr "video"); ("name", VStr "a title"); ("id", VStr id);
        ("url", VStr (BASE_VIDEO_URL ++ id)); ("thumbnail", VStr "");
        ("thumbnails", VArr []); ("isUpcoming", VBool false);
        ("upcoming", VNull); ("isLive", VBool false); ("badges", VArr []);
        ("author", VNull); ("description", VStr "");
        ("views", VNum (JsNum.of_Z 1234)); ("duration", VStr "");
        ("uploadedAt", VStr "")].

(** A page of four videos without a continuation token. *)
Definition lastPageOfFour (a b c d : string) : reply :=
  Response ""
    (Some (continuationResponse
             [itemSection [videoRenderer a; videoRenderer b;
                           videoRenderer c; videoRenderer d]])).

(** The value is an object. *)
Definition is_object (v : value) : Prop := exists fs, v = VObj fs.

(** The element carries no key [k]. *)
Definition lacks (k : string) (v : value) : Prop := Js.has_key k v = false.

(** An item-section wrapper holding [items]. *)
Definition holdsItems (items : list value) (x : value) : Prop :=
  Js.get "contents" (Js.get "itemSectionRenderer" x) = VArr items.

(** A continuation-token wrapper: the token is where the continuation
    schema wants it, and the element is no other kind of wrapper. *)
Definition carriesToken (token : string) (x : value) : Prop :=
  continuation_token x = VStr token
  /\ lacks "itemSectionRenderer" x
  /\ lacks "richItemRenderer" x
  /\ lacks "richSectionRenderer" x.

(** The value of an option, [undefined] for none. *)
Definition the (o : option value) : value :=
  match o with
  | Some v => v
  | None => VUndef
  end.

(** The parsed form of an element of the section list. *)
Definition parsedElement (x : value) : value :=
  the (Zod.safeParse YouTubeRendererItemSchema x).

(** The document whose section list is [contents]. *)
Definition hasSectionList (contents : list value) (doc : value) : Prop :=
  Js.get "contents" (Js.get "sectionListRenderer" doc) = VArr contents.

(** A first page as the platform sends it: an element of another kind,
    the item section and a continuation wrapper with fields beside the
    token. *)
Definition richContinuationItem (token : string) : value :=
  VObj [("continuationItemRenderer",
         VObj [("trigger", VStr "CONTINUATION_TRIGGER_ON_ITEM_SHOWN");
               ("continuationEndpoint",
                VObj [("clickTrackingParams", VStr "CBQ");
                      ("continuationCommand",
                       VObj [("token", VStr token);
                             ("request", VStr "CONTINUATION_REQUEST_TYPE_SEARCH")])])])].

(** An element that is no wrapper the unwrapper knows. *)
Definition otherElement : value :=
  VObj [("shelfRenderer", VObj [("title", VStr "People also watched")])].

(** The primary contents around a section list. *)
Definition primaryContentsOf (contents : list value) : value :=
  VObj [("sectionListRenderer", VObj [("contents", VArr contents)])].

(** The keys are pairwise distinct. *)
Fixpoint distinct (keys : list string) : bool :=
  match keys with
  | [] => true
  | k :: keys' => negb (existsb (String.eqb k) keys') && distinct keys'
  end.

(** The keys an object schema declares. *)
Definition keysOf (shape : list (string * Zod.schema)) : list string :=
  map fst shape.

(** The data a schema returns is accepted by the schema as it is, and is
    never [undefined]. *)
Definition settled (s : Zod.schema) : Prop :=
  forall x r, Zod.safeParse s x = Some r ->
              Zod.safeParse s r = Some r /\ r <> VUndef.

(** An image as [prepImg] leaves it: accepted by [ImageSchema], with a
    string or [null] for its [url]. *)
Definition prepared (i : value) : Prop :=
  Zod.safeParse ImageSchema i <> None
  /\ (Js.get "url" i = VNull \/ exists s, Js.get "url" i = VStr s).

(** The start time of an upcoming event reads as a number. *)
Definition startKnown (platform : Builtins) (obj : value) : Prop :=
  Js.truthy (Js.get "upcomingEventData" obj) = true ->
  JsNum.isNaN
    (Number_of_string platform
       (Js.str (Js.get "startTime" (Js.get "upcomingEventData" obj)) ++ "000"))
  = false.

(** The view count, when the renderer has one, reads as a number. *)
Definition viewsKnown (platform : Builtins) (obj : value) : Prop :=
  Js.truthy (Js.get "viewCountText" obj) = true ->
  JsNum.isNaN (parseIntegerFromText platform (Js.get "viewCountText" obj)) = false.

(** A video renderer whose view count is the plain string
    ["1,234 views"]. *)
Definition plainViewsRenderer : value :=
  VObj [("videoId", VStr "a");
        ("title", VObj [("simpleText", VStr "a title")]);
        ("thumbnail", VObj [("thumbnails", VArr [])]);
        ("viewCountText", VStr "1,234 views")].

(** The image [a] is at least as wide as [b]. *)
Definition widerOrEqual (a b : value) : Prop :=
  JsNum.leb (width_of b) (width_of a) = true.

(** An image of the given width. *)
Definition image (url : string) (width : Z) : value :=
  VObj [("url", VStr url); ("width", VNum (JsNum.of_Z width));
        ("height", VNum (JsNum.of_Z 90))].

(** Two unwrapped batches taken as one: the items of both in order, and
    the continuation of the second, or else that of the first. *)
Definition joinWrappers (a b : Wrapper) : Wrapper :=
  mkWrapper (rawItems a ++ rawItems b)
            (match continuation b with
             | Some c => Some c
             | None => continuation a
             end).

(** The exception is the [TypeError] of a [new URL] that does not parse
    its input. *)
Definition urlFailure (platform : Builtins) (e : exn) : Prop :=
  e = TypeError /\ exists input base, URL_new platform input base = None.

(** A platform on which no URL parses, and a video with one thumbnail. *)
Definition noURLPlatform : Builtins :=
  mkBuiltins (fun _ => None) (fun _ => "") (fun _ _ => None) (fun _ => NaN).

Definition videoWithThumbnail : value :=
  VObj [("videoRenderer",
         VObj [("videoId", VStr "a");
               ("thumbnail",
                VObj [("thumbnails",
                       VArr [VObj [("url", VStr "http://[");
                                   ("width", VNum (JsNum.of_Z 120));
                                   ("height", VNum (JsNum.of_Z 90))]])])])].

(** The object [result] that [parsePlaylist] builds. *)
Definition playlistResult (platform : Builtins) (obj owner : value) : value :=
  VObj
    [("type", VStr "playlist");
     ("id", Js.get "playlistId" obj);
     ("name", VStr (parseText (Js.get "title" obj)));
     ("url",
      VStr ("https://www.youtube.com/playlist?list="
            ++ Js.str (Js.get "playlistId" obj)));
     ("owner", owner);
     ("publishedAt", VStr (parseText (Js.get "publishedTimeText" obj)));
     ("length", VNum (Number_of_value platform (Js.get "videoCount" obj)))].

(** A playlist renderer with a count, its owner given by a simple text. *)
Definition playlistRenderer (id count : string) : value :=
  VObj [("playlistId", VStr id);
        ("title", VObj [("simpleText", VStr "a playlist")]);
        ("videoCount", VStr count);
        ("shortBylineText", VObj [("simpleText", VStr "an owner")])].

(** A request of the search: the GET of the results page, or a POST to
    the search API whose init has the method POST and the JSON content
    type, and whose body carries the search string unless it asks for a
    continuation. *)
Definition searchRequest (searchString : string) (q : request) : Prop :=
  match q with
  | GET url _ _ => url = BASE_SEARCH_URL
  | POST url init body =>
      url = BASE_API_URL
      /\ (exists i, init = Some i
                    /\ RequestInit.method i = Some "POST"
                    /\ Headers.get "Content-Type" (RequestInit.headers i)
                       = Some "application/json")
      /\ match body with
         | SearchPayload _ query | PlaylistPayload _ _ query =>
             query = searchString
         | ContinuationPayload _ _ => True
         end
  end.

(** Whatever world [m] runs in, it adds requests that satisfy [P] and
    does nothing else to the list of requests. *)
Definition emits {A : Type} (P : request -> Prop) (m : M A) : Prop :=
  forall w, exists added,
    requests (snd (m w)) = requests w ++ added /\ Forall P added.

(** The request is the POST of a search (not of a continuation). *)
Definition is_search_POST (q : request) : bool :=
  match q with
  | POST _ _ (SearchPayload _ _) | POST _ _ (PlaylistPayload _ _ _) => true
  | _ => false
  end.

(** Whatever world [m] runs in, it adds at most [g] page fetches and at
    most [p] search POSTs to the requests. *)
Definition emitsUpTo {A : Type} (g p : nat) (m : M A) : Prop :=
  forall w, exists added,
    requests (snd (m w)) = requests w ++ added
    /\ (length (List.filter is_GET added) <= g)%nat
    /\ (length (List.filter is_search_POST added) <= p)%nat.

(** A caller with a cookie of their own and a language. *)
Definition cookieCaller : SearchOptions.t :=
  SearchOptions.mk None None (Some "de") None None VUndef
    (Some (RequestInit.mk [("Cookie", "PREF=f6=8"); ("Accept", "*/*")]
             None None None [])).

(** A rich-item wrapper around [c]. *)
Definition richItem (c : value) : value :=
  VObj [("richItemRenderer", VObj [("content", c)])].

(** The element is a rich-item wrapper that holds the object [c], and is
    no item-section or continuation wrapper besides. *)
Definition holdsContent (e c : value) : Prop :=
  Js.get "content" (Js.get "richItemRenderer" e) = c
  /\ is_object c
  /\ lacks "itemSectionRenderer" e
  /\ lacks "continuationItemRenderer" e.

(** The document whose rich grid is [contents]. *)
Definition hasRichGrid (contents : list value) (doc : value) : Prop :=
  Js.get "contents" (Js.get "richGridRenderer" doc) = VArr contents.

(** The object that holds [v] under the path [keys]. *)
Fixpoint nested (keys : list string) (v : value) : value :=
  match keys with
  | [] => v
  | k :: keys' => VObj [(k, nested keys' v)]
  end.

(** A search filter with the parameter [p], a group of filters, and the
    search header that offers the groups [gs], as the header schema
    returns them. *)
Definition searchFilter (p : string) : value :=
  nested ["searchFilterRenderer"; "navigationEndpoint"; "searchEndpoint";
          "params"] (VStr p).

Definition filterGroup (ps : list string) : value :=
  nested ["searchFilterGroupRenderer"; "filters"] (VArr (map searchFilter ps)).

Definition searchHeader (gs : list (list string)) : value :=
  nested ["header"; "searchHeaderRenderer"; "searchFilterButton";
          "buttonRenderer"; "command"; "openPopupAction"; "popup";
          "searchFilterOptionsDialogRenderer"; "groups"]
    (VArr (map filterGroup gs)).

(** A page header with two groups of filters, among other fields; the
    second group offers three filters. *)
Definition pageHeader : value :=
  let groups :=
    VArr [filterGroup ["EgIIAQ%3D%3D"];
          filterGroup ["EgIQAQ%3D%3D"; "EgIQAg%3D%3D"; "EgIQAw%3D%3D"]] in
  let dialog :=
    VObj [("title", VStr "Search filters"); ("groups", groups)] in
  let button :=
    VObj [("style", VStr "STYLE_DEFAULT");
          ("command",
           nested ["openPopupAction"; "popup";
                   "searchFilterOptionsDialogRenderer"] dialog)] in
  VObj [("responseContext", VObj []);
        ("header",
         VObj [("searchHeaderRenderer",
                VObj [("query", VStr "test");
                      ("searchFilterButton",
                       VObj [("buttonRenderer", button)])])])].

(** A page whose second service reports the client version. *)
Definition trackedPage : value :=
  nested ["responseContext"; "serviceTrackingParams"]
    (VArr [VObj [("service", VStr "GFEEDBACK")];
           VObj [("service", VStr "CSI");
                 ("params",
                  VArr [VObj [("key", VStr "c"); ("value", VStr "WEB")];
                        VObj [("key", VStr "cver");
                              ("value", VStr "2.20250101.00.00")]])]]).

(** A number read from digits: it is not negative, and so no NaN. *)
Definition counted (n : number) : Prop :=
  JsNum.leb (JsNum.of_Z 0) n = true.

(** A lockup item as the platform sends it for a playlist, with two
    overlays on its thumbnail; it carries a video renderer too. *)
Definition badgeOverlay (texts : list string) : value :=
  nested ["thumbnailOverlayBadgeViewModel"; "thumbnailBadges"]
    (VArr (map (fun t => nested ["thumbnailBadgeViewModel"; "text"] (VStr t))
               texts)).

Definition lockupItem : list (string * value) :=
  [("videoRenderer", VObj [("videoId", VStr "a")]);
   ("lockupViewModel",
    VObj [("contentId", VStr "PL1");
          ("contentImage",
           nested ["collectionThumbnailViewModel"; "primaryThumbnail";
                   "thumbnailViewModel"; "overlays"]
             (VArr [badgeOverlay ["Mix"; "12 videos"; "3 new"];
                    VObj [("thumbnailHoverOverlayViewModel", VObj [])]]));
          ("metadata",
           nested ["lockupMetadataViewModel"]
             (VObj [("title", VObj [("content", VStr "A mix")]);
                    ("metadata",
                     nested ["contentMetadataViewModel"; "metadataRows"]
                       (VArr [nested ["metadataParts"]
                                (VArr [nested ["text"; "content"]
                                         (VStr "An owner")])]))]))])].

(** The type a search is for: the caller's when it is a search type,
    else [video]. *)
Definition requestedType (o : SearchOptions.t) : SearchType :=
  match SearchType_of_value (SearchOptions.type o) with
  | Some t => t
  | None => video
  end.

(** The schema of the entities of a search type. *)
Definition entitySchema (t : SearchType) : Zod.schema :=
  match t with
  | video => VideoSchema
  | playlist => PlaylistSchema
  end.

(** The item is an entity of type [t]: what the schema of the type
    returns on some input. *)
Definition entityOf (t : SearchType) (item : value) : Prop :=
  exists x, Zod.safeParse (entitySchema t) x = Some item.

(** The item is an entity of one of the two types. *)
Definition entity (item : value) : Prop :=
  entityOf video item \/ entityOf playlist item.

(** A result of the search for [searchString] and the type [t]. *)
Definition resultFor (searchString : string) (t : SearchType) (r : Result)
  : Prop :=
  Forall (entityOf t) (items r)
  /\ JsNum.isNaN (results r) = false
  /\ (String.prefix BASE_URL searchString = false -> query r = searchString).

(** The computation returns only results of the search, from a world
    whose options ask for the type [t]. *)
Definition yieldsResult (searchString : string) (t : SearchType)
  (m : M Result) : Prop :=
  forall w r w',
    requestedType (options w) = t ->
    m w = (Return r, w') -> resultFor searchString t r.

(** The request was sent with [keepalive: false]. *)
Definition keepaliveOff (q : request) : Prop :=
  match q with
  | GET _ _ init | POST _ init _ =>
      exists i, init = Some i /\ RequestInit.keepalive i = Some false
  end.

(** The request options of [opts] hold [keepalive: false]. *)
Definition keepaliveOffIn (opts : NormalizedOptions.t) : Prop :=
  exists r, NormalizedOptions.requestOptions opts = Some r
            /\ RequestInit.keepalive r = Some false.

(** The environment switches keep-alive off and the caller did not ask
    for safe search. *)
Definition switchedOff (w : World) : Prop :=
  YTSR_DISABLE_KEEPALIVE w = Some "true"
  /\ SearchOptions.safeSearch (options w) <> Some true.

(** From a world that satisfies [I], [m] adds requests that satisfy [P],
    leaves a world that satisfies [I], and returns what satisfies [Q]. *)
Definition sends {A : Type} (I : World -> Prop) (P : request -> Prop)
  (Q : A -> Prop) (m : M A) : Prop :=
  forall w, I w ->
    exists added,
      requests (snd (m w)) = requests w ++ added
      /\ Forall P added
      /\ I (snd (m w))
      /\ (forall a, fst (m w) = Return a -> Q a).

(** The [keepalive] a request was sent with. *)
Definition keepaliveOf (q : request) : option bool :=
  match q with
  | GET _ _ (Some i) | POST _ (Some i) _ => RequestInit.keepalive i
  | _ => None
  end.

(** A caller who asks for [keepalive: true], with the switch on. *)
Definition keepaliveCaller (safeSearch : option bool) (page : list reply)
  : World :=
  mkWorld CACHE_at_load
    (SearchOptions.mk safeSearch None None None None VUndef
       (Some (RequestInit.mk [] None (Some true) None [])))
    (Some "true")
    (page ++ [Response ""
                (Some (searchResponse [itemSection [videoRenderer "a"]]))])
    [].

(** * Properties *)

(** ** The monad *)

Section MonadLemmas.
Context {A B : Type}.

Lemma bind_Return (m : M A) (k : A -> M B) (w w' : World) (a : A) :
  m w = (Return a, w') -> bind m k w = k a w'.
Proof. intros H. unfold bind. now rewrite H. Qed.

Lemma bind_Throw (m : M A) (k : A -> M B) (w w' : World) (e : exn) :
  m w = (Throw e, w') -> bind m k w = (Throw e, w').
Proof. intros H. unfold bind. now rewrite H. Qed.

End MonadLemmas.

(** ** Retry exhaustion and the second attempt *)

Lemma ytsr_0 (platform : Builtins) (searchString : string) (w : World) :
  ytsr platform searchString 0 w = (Throw (Error "Unable to find JSON!"), w).
Proof. reflexivity. Qed.


(** C6. The attempt whose counter is 2 runs its body (argument check,
    fetches, parsing) in the world where both cache keys have been removed
    and nothing else has changed, whatever the cache held. *)
Theorem ytsr_second_attempt_forgets (platform : Builtins)
  (searchString : string) (w : World) :
  ytsr platform searchString 2 w
  = attempt platform searchString 2 (ytsr platform searchString 1) (forgotten w)
  /\ CACHE (forgotten w) !! "clientVersion" = None
  /\ CACHE (forgotten w) !! "playlistParams" = None
  /\ options (forgotten w) = options w
  /\ network (forgotten w) = network w
  /\ requests (forgotten w) = requests w.
Proof.
  split; [reflexivity|].
  unfold forgotten; simpl.
  split.
  - rewrite lookup_delete_ne by discriminate. apply lookup_delete_eq.
  - split; [apply lookup_delete_eq | auto].
Qed.

(** ** Argument normalization *)

Lemma normalizeOptions_Return (platform : Builtins) (searchString : string)
  (o : SearchOptions.t) (opts : NormalizedOptions.t) :
  normalizeOptions platform searchString o = Return opts ->
  NormalizedOptions.limit opts = correctedLimit (SearchOptions.limit o)
  /\ NormalizedOptions.safeSearch opts
     = match SearchOptions.safeSearch o with Some b => b | None => false end
  /\ SearchType_of_value (SearchOptions.type (defaultType o))
     = Some (NormalizedOptions.type opts).
Proof.
  unfold normalizeOptions.
  destruct (Headers.new _) as [headers|]; [|discriminate].
  destruct (URL_new platform searchString BASE_URL) as [u|]; [|discriminate].
  match goal with |- context [if ?c then Throw _ else _] => destruct c end;
    [discriminate|].
  match goal with |- context [match ?x with Some _ => _ | None => Throw ZodError end] =>
    destruct x end; [|discriminate].
  assert (T : SearchType_of_value (SearchOptions.type (defaultType o))
              = Some match SearchType_of_value (SearchOptions.type o) with
                     | Some t => t
                     | None => video
                     end).
  { unfold defaultType.
    destruct (SearchType_of_value (SearchOptions.type o)) eqn:E; simpl; auto. }
  destruct (SearchOptions.utcOffsetMinutes o) as [[| | |]|];
    intros H; try discriminate; injection H as <-; simpl; auto.
Qed.

Lemma defaultType_frame (o : SearchOptions.t) :
  SearchOptions.limit (defaultType o) = SearchOptions.limit o
  /\ SearchOptions.safeSearch (defaultType o) = SearchOptions.safeSearch o
  /\ SearchOptions.requestOptions (defaultType o) = SearchOptions.requestOptions o
  /\ SearchOptions.hl (defaultType o) = SearchOptions.hl o
  /\ SearchOptions.gl (defaultType o) = SearchOptions.gl o
  /\ SearchOptions.utcOffsetMinutes (defaultType o)
     = SearchOptions.utcOffsetMinutes o.
Proof.
  unfold defaultType.
  destruct (SearchType_of_value (SearchOptions.type o)); repeat split.
Qed.

Lemma defaultType_idempotent (o : SearchOptions.t) :
  defaultType (defaultType o) = defaultType o.
Proof.
  unfold defaultType at 2 3.
  destruct (SearchType_of_value (SearchOptions.type o)) eqn:E.
  - unfold defaultType. now rewrite E.
  - reflexivity.
Qed.

Lemma checkArgs_Return (platform : Builtins) (searchString : string)
  (o o' : SearchOptions.t) (opts : NormalizedOptions.t) :
  checkArgs platform searchString o = (o', Return opts) ->
  searchString <> ""
  /\ o' = defaultType o
  /\ normalizeOptions platform searchString (defaultType o) = Return opts.
Proof.
  unfold checkArgs.
  destruct (String.eqb_spec searchString ""); [discriminate|].
  intros H. injection H as <- H. auto.
Qed.

(** C10. Of the caller's options object [checkArgs] writes the [type]
    field only: it becomes ['video'] when it was missing or not one of
    ['video'] and ['playlist'] (for a search string that passes the first
    check), and every other field keeps its value; the corrected limit and
    safe-search flag are in the normalized copy. *)
Theorem checkArgs_writes_type_only (platform : Builtins)
  (searchString : string) (o : SearchOptions.t) :
  let o' := fst (checkArgs platform searchString o) in
  SearchOptions.limit o' = SearchOptions.limit o
  /\ SearchOptions.safeSearch o' = SearchOptions.safeSearch o
  /\ SearchOptions.requestOptions o' = SearchOptions.requestOptions o
  /\ SearchOptions.hl o' = SearchOptions.hl o
  /\ SearchOptions.gl o' = SearchOptions.gl o
  /\ SearchOptions.utcOffsetMinutes o' = SearchOptions.utcOffsetMinutes o
  /\ (searchString <> "" ->
      SearchOptions.type o'
      = match SearchType_of_value (SearchOptions.type o) with
        | Some _ => SearchOptions.type o
        | None => VStr "video"
        end)
  /\ (forall opts, snd (checkArgs platform searchString o) = Return opts ->
      NormalizedOptions.limit opts = correctedLimit (SearchOptions.limit o)
      /\ NormalizedOptions.safeSearch opts
         = match SearchOptions.safeSearch o with Some b => b | None => false end).
Proof.
  cbv zeta. unfold checkArgs.
  destruct (String.eqb_spec searchString "") as [->|Hne]; simpl.
  - repeat split; try contradiction; discriminate.
  - destruct (defaultType_frame o) as (F1 & F2 & F3 & F4 & F5 & F6).
    repeat (split; [assumption|]).
    split.
    + intros _. unfold defaultType.
      destruct (SearchType_of_value (SearchOptions.type o)); reflexivity.
    + intros opts H. apply normalizeOptions_Return in H.
      destruct H as (H1 & H2 & _). rewrite H1, H2, F1, F2. auto.
Qed.

(** A caller's object with a non-positive limit and a type that is not a
    search type: the object keeps its limit and gets the type ['video'];
    the copy gets the default limit. *)
Example checkArgs_on_odd_options :
  let o := SearchOptions.mk None (Some (JsNum.of_Z (-5))) None None None
             (VStr "channel") None in
  exists opts,
    checkArgs simplePlatform "test" o
    = (SearchOptions.mk None (Some (JsNum.of_Z (-5))) None None None
         (VStr "video") None,
       Return opts)
    /\ NormalizedOptions.limit opts = JsNum.of_Z 10
    /\ NormalizedOptions.type opts = video.
Proof. eexists. split; [reflexivity|]. split; reflexivity. Qed.

(** ** Requests and the cache along a search *)

Lemma follows_refl (w : World) : follows w w.
Proof. exists []. rewrite app_nil_r. auto. Qed.

Lemma follows_trans (w1 w2 w3 : World) :
  follows w1 w2 -> follows w2 w3 -> follows w1 w3.
Proof.
  intros (l1 & E1 & C1 & O1) (l2 & E2 & C2 & O2).
  exists (l1 ++ l2). split; [|split].
  - rewrite E2, E1. now rewrite app_assoc.
  - rewrite existsb_app. intros H.
    apply orb_false_iff in H as [H1 H2]. auto.
  - destruct O1 as [O1|O1], O2 as [O2|O2]; rewrite O2, O1;
      rewrite ?defaultType_idempotent; auto.
Qed.

Lemma follows_set_network (w : World) (n : list reply) (l : list request) :
  follows w (set_network n (requests w ++ l) w).
Proof. exists l. simpl. auto. Qed.

Lemma follows_set_CACHE_after_GET (w w' : World) (cache : gmap string string)
  (q : request) (l : list request) :
  is_GET q = true ->
  requests w' = requests w ++ q :: l ->
  options w' = options w ->
  follows w w'.
Proof.
  intros Hq E O. exists (q :: l). split; [exact E|]. split; [|auto].
  simpl. rewrite Hq. discriminate.
Qed.

Lemma follows_forgotten (w : World) : follows w (forgotten w).
Proof.
  exists []. simpl. rewrite app_nil_r. split; [reflexivity|]. split; [|auto].
  intros _ key v H.
  apply lookup_delete_Some in H as [_ H].
  apply lookup_delete_Some in H as [_ H]. exact H.
Qed.

Lemma follows_requests (w w' : World) :
  follows w w' -> exists l, requests w' = requests w ++ l.
Proof. intros (l & E & _). eauto. Qed.

Lemma follows_limit (w w' : World) :
  follows w w' ->
  SearchOptions.limit (options w') = SearchOptions.limit (options w).
Proof.
  intros (_ & _ & _ & [->| ->]); [reflexivity|].
  apply defaultType_frame.
Qed.

Lemma checkArgs_fst (platform : Builtins) (searchString : string)
  (o : SearchOptions.t) :
  fst (checkArgs platform searchString o) = o
  \/ fst (checkArgs platform searchString o) = defaultType o.
Proof. unfold checkArgs. destruct (String.eqb searchString ""); auto. Qed.

Lemma follows_checkArgs (platform : Builtins) (searchString : string)
  (w : World) :
  follows w (set_options (fst (checkArgs platform searchString (options w))) w).
Proof.
  exists []. simpl. rewrite app_nil_r. split; [reflexivity|]. split; [auto|].
  apply checkArgs_fst.
Qed.

Section Preserves.
Context {A B : Type}.

Lemma preserves_ret (a : A) : preserves (ret a).
Proof. intros w. apply follows_refl. Qed.

Lemma preserves_throw (e : exn) : preserves (@throw A e).
Proof. intros w. apply follows_refl. Qed.

Lemma preserves_lift (o : outcome A) : preserves (lift o).
Proof. intros w. apply follows_refl. Qed.

Lemma preserves_gets (f : World -> A) : preserves (gets f).
Proof. intros w. apply follows_refl. Qed.

Lemma preserves_bind (m : M A) (k : A -> M B) :
  preserves m -> (forall a, preserves (k a)) -> preserves (bind m k).
Proof.
  intros Hm Hk w. unfold bind.
  specialize (Hm w). destruct (m w) as [[a|e] w1]; simpl in *.
  - eapply follows_trans; [exact Hm | apply Hk].
  - exact Hm.
Qed.

Lemma preserves_try_catch (m : M A) (h : exn -> M A) :
  preserves m -> (forall e, preserves (h e)) -> preserves (try_catch m h).
Proof.
  intros Hm Hh w. unfold try_catch.
  specialize (Hm w). destruct (m w) as [[a|e] w1]; simpl in *.
  - exact Hm.
  - eapply follows_trans; [exact Hm | apply Hh].
Qed.

End Preserves.

Section SearchPreserves.
Variable platform : Builtins.

Lemma preserves_doPost (url : string) (init : RequestInit.t) (body : payload) :
  preserves (doPost url init body).
Proof. intros w. apply follows_set_network. Qed.

Lemma parsePage2_on_nil (log : list request) (token : string)
  (context : option Context.t) (opts : NormalizedOptions.t) :
  parsePage2_on platform [] log token context opts
  = (Throw FetchError, opts, [], log ++ [continuationRequest token context opts]).
Proof. reflexivity. Qed.

Lemma parsePage2_on_cons (r : reply) (net : list reply) (log : list request)
  (token : string) (context : option Context.t) (opts : NormalizedOptions.t) :
  parsePage2_on platform (r :: net) log token context opts
  = let log := log ++ [continuationRequest token context opts] in
    match doPost_reply (Some r) with
    | Throw e => (Throw e, opts, net, log)
    | Return json =>
        match parsePage2Response json with
        | None => (Return [], opts, net, log)
        | Some items =>
            let wrapper := parsePage2Wrapper items in
            match selectItems platform (rawItems wrapper) opts with
            | Throw _ => (Return [], opts, net, log)
            | Return parsedItems =>
                let opts := spend (length parsedItems) opts in
                let nextToken := tokenOf (continuation wrapper) in
                if done nextToken opts then (Return parsedItems, opts, net, log)
                else
                  match
                    parsePage2_on platform net log (Js.str nextToken) context opts
                  with
                  | (Throw _, opts', net'', log') =>
                      (Return [], opts', net'', log')
                  | (Return nestedResp, opts', net'', log') =>
                      (Return
                         (parsedItems
                          ++ List.filter (fun item => negb (is_null item)) nestedResp),
                       opts', net'', log')
                  end
            end
        end
    end.
Proof. reflexivity. Qed.

Lemma parsePage2_on_log (net : list reply) :
  forall log token context opts,
  exists added,
    snd (parsePage2_on platform net log token context opts) = log ++ added
    /\ existsb is_GET added = false.
Proof.
  induction net as [|r net IH]; intros log token context opts.
  - rewrite parsePage2_on_nil. eexists. split; reflexivity.
  - rewrite parsePage2_on_cons. cbv zeta.
    destruct (doPost_reply (Some r)) as [json|e];
      [|eexists; split; reflexivity].
    destruct (parsePage2Response json) as [batch|];
      [|eexists; split; reflexivity].
    destruct (selectItems platform _ opts) as [parsedItems|e];
      [|eexists; split; reflexivity].
    destruct (done _ _); [eexists; split; reflexivity|].
    match goal with
    | |- context [parsePage2_on platform net ?l ?t ?c ?o] =>
        destruct (IH l t c o) as (added & E & G);
        destruct (parsePage2_on platform net l t c o) as [[[[x|e] o'] n'] l']
    end; simpl in *; subst;
      (eexists; split; [rewrite <- app_assoc; reflexivity|]);
      simpl; exact G.
Qed.

Lemma parsePage2_world (token : string) (context : option Context.t)
  (opts : NormalizedOptions.t) (w : World) :
  exists n added,
    snd (parsePage2 platform token context opts w)
    = set_network n (requests w ++ added) w
    /\ existsb is_GET added = false.
Proof.
  unfold parsePage2.
  destruct (parsePage2_on_log (network w) (requests w) token context opts)
    as (added & E & G).
  destruct (parsePage2_on platform (network w) (requests w) token context opts)
    as [[[[x|e] o'] n'] l']; simpl in *; subst; eauto.
Qed.

Lemma preserves_parsePage2 (token : string) (context : option Context.t)
  (opts : NormalizedOptions.t) :
  preserves (parsePage2 platform token context opts).
Proof.
  intros w. destruct (parsePage2_world token context opts w) as (n & l & -> & _).
  apply follows_set_network.
Qed.

Lemma preserves_postSearch (searchString : string) (retries : nat)
  (parsed : ParsedBody.t) (opts : NormalizedOptions.t) :
  preserves (postSearch searchString retries parsed opts).
Proof.
  unfold postSearch.
  destruct (NormalizedOptions.type opts).
  - destruct (_ || _).
    + apply preserves_try_catch.
      * apply preserves_bind; [apply preserves_doPost|].
        intros; apply preserves_ret.
      * intros e. destruct (Nat.eqb retries 1);
          [apply preserves_throw | apply preserves_ret].
    + apply preserves_ret.
  - apply preserves_bind; [apply preserves_gets|]. intros cache.
    apply preserves_bind; [apply preserves_doPost|]. intros json.
    destruct (negb _); [apply preserves_throw | apply preserves_ret].
Qed.

Lemma preserves_collect (retry : M Result) (parsed : ParsedBody.t)
  (opts : NormalizedOptions.t) :
  preserves retry -> preserves (collect platform retry parsed opts).
Proof.
  intros Hretry. unfold collect.
  destruct (negb _); [exact Hretry|].
  destruct (parseSearchResponse _) as [searchResponse|]; [|exact Hretry].
  apply preserves_bind; [apply preserves_lift|]. intros items.
  destruct (done _ _); [apply preserves_ret|].
  apply preserves_bind; [apply preserves_parsePage2|].
  intros; apply preserves_ret.
Qed.

Lemma getPlaylistParams_without_json (parsed : ParsedBody.t) :
  Js.truthy (ParsedBody.json parsed) = false -> getPlaylistParams parsed = None.
Proof.
  intros H. unfold getPlaylistParams. rewrite H. simpl.
  now rewrite orb_true_r.
Qed.

Lemma set_CACHE_same (w : World) : set_CACHE (CACHE w) w = w.
Proof. destruct w; reflexivity. Qed.

Lemma saveClientVersion_world (parsed : ParsedBody.t)
  (opts : NormalizedOptions.t) (w : World) :
  exists parsed' cache,
    saveClientVersion parsed opts w = (Return parsed', set_CACHE cache w)
    /\ ParsedBody.json parsed' = ParsedBody.json parsed
    /\ (cache = CACHE w
        \/ exists c, ParsedBody.context parsed = Some c
                     /\ Context.clientVersion (Context.client c) <> ""
                     /\ cache = <["clientVersion" :=
                                   Context.clientVersion (Context.client c)]> (CACHE w)).
Proof.
  unfold saveClientVersion, bind, modify, ret, gets.
  destruct (ParsedBody.context parsed) as [c|].
  - destruct (nonempty _) eqn:N.
    + exists parsed. eexists. split; [reflexivity|]. split; [reflexivity|].
      right. exists c. repeat split.
      intros E. rewrite E in N. discriminate N.
    + destruct (CACHE w !! "clientVersion");
        eexists; exists (CACHE w); rewrite set_CACHE_same;
        (split; [reflexivity|]); split; auto.
  - simpl. destruct (CACHE w !! "clientVersion");
      eexists; exists (CACHE w); rewrite set_CACHE_same;
      (split; [reflexivity|]); split; auto.
Qed.

Lemma savePlaylistParams_world (parsed : ParsedBody.t) (w : World) :
  exists cache,
    savePlaylistParams parsed w = (Return parsed, set_CACHE cache w)
    /\ (cache = CACHE w
        \/ exists p, getPlaylistParams parsed = Some p /\ p <> ""
                     /\ cache = <["playlistParams" := p]> (CACHE w)).
Proof.
  unfold savePlaylistParams, bind, modify, ret.
  destruct (getPlaylistParams parsed) as [p|].
  - destruct (nonempty p) eqn:N.
    + eexists. split; [reflexivity|]. right. exists p. repeat split.
      intros ->. discriminate N.
    + exists (CACHE w). rewrite set_CACHE_same. auto.
  - exists (CACHE w). rewrite set_CACHE_same. auto.
Qed.

(** [saveCache] always returns and writes the cache only. *)
Lemma saveCache_world (parsed : ParsedBody.t) (opts : NormalizedOptions.t)
  (w : World) :
  exists parsed' cache,
    saveCache parsed opts w = (Return parsed', set_CACHE cache w).
Proof.
  unfold saveCache, bind.
  destruct (saveClientVersion_world parsed opts w) as (p1 & c1 & -> & _ & _).
  destruct (savePlaylistParams_world p1 (set_CACHE c1 w)) as (c2 & -> & _).
  exists p1, c2. reflexivity.
Qed.

(** Without a fetched page ([parsed] as [ytsr] initializes it) the cache
    is left as it is. *)
Lemma saveCache_unfetched (opts : NormalizedOptions.t) (w : World) :
  snd (saveCache (ParsedBody.mk VUndef None None) opts w) = w.
Proof.
  unfold saveCache, saveClientVersion, savePlaylistParams,
    bind, modify, ret, gets. simpl.
  destruct (CACHE w !! "clientVersion");
    rewrite getPlaylistParams_without_json by reflexivity; reflexivity.
Qed.

Lemma fetchPage_world (opts : NormalizedOptions.t) (w : World) :
  snd (fetchPage platform opts w)
  = set_network (tail (network w)) (requests w ++ [pageRequest opts w]) w.
Proof.
  unfold fetchPage, bind, gets, fetchText, ret, pageRequest.
  destruct (NormalizedOptions.requestOptions opts);
    destruct (head (network w)) as [[|text json]|]; reflexivity.
Qed.

(** The world after the part of an attempt that obtains the page, when
    [checkArgs] has passed: the page request is the first added request
    when the page is fetched, and nothing changes otherwise. *)
Lemma obtainPage_world (opts : NormalizedOptions.t) (w : World) :
  let m :=
    bind (if shouldFetch opts (CACHE w) then fetchPage platform opts
          else ret (ParsedBody.mk VUndef None None, opts))
         (fun fetched => saveCache (fst fetched) (snd fetched)) in
  if shouldFetch opts (CACHE w) then
    exists cache,
      snd (m w)
      = set_CACHE cache
          (set_network (tail (network w)) (requests w ++ [pageRequest opts w]) w)
  else snd (m w) = w /\ exists parsed, fst (m w) = Return parsed.
Proof.
  cbv zeta. destruct (shouldFetch opts (CACHE w)).
  - unfold bind.
    pose proof (fetchPage_world opts w) as F.
    destruct (fetchPage platform opts w) as [[fetched|e] w2]; simpl in F.
    + destruct (saveCache_world (fst fetched) (snd fetched) w2)
        as (parsed' & cache & ->).
      exists cache. simpl. now rewrite F.
    + exists (CACHE w). simpl. rewrite F. reflexivity.
  - unfold bind, ret. cbn [fst snd].
    pose proof (saveCache_unfetched opts w) as U.
    destruct (saveCache_world (ParsedBody.mk VUndef None None) opts w)
      as (parsed' & cache & E).
    rewrite E in U |- *. simpl in U |- *. eauto.
Qed.

Lemma preserves_obtainPage (opts : NormalizedOptions.t) (w : World) :
  follows w
    (snd (bind (if shouldFetch opts (CACHE w) then fetchPage platform opts
                else ret (ParsedBody.mk VUndef None None, opts))
               (fun fetched => saveCache (fst fetched) (snd fetched)) w)).
Proof.
  pose proof (obtainPage_world opts w) as H. cbv zeta in H.
  destruct (shouldFetch opts (CACHE w)).
  - destruct H as (cache & ->).
    eapply follows_set_CACHE_after_GET
      with (q := pageRequest opts w) (l := []); auto.
  - destruct H as (-> & _). apply follows_refl.
Qed.

Lemma attempt_unfold (searchString : string) (retries : nat)
  (retry : M Result) (w : World) :
  attempt platform searchString retries retry w
  = match checkArgs platform searchString (options w) with
    | (o', Throw e) => (Throw e, set_options o' w)
    | (o', Return opts) =>
        let w1 := set_options o' w in
        bind
          (bind (if shouldFetch opts (CACHE w1) then fetchPage platform opts
                 else ret (ParsedBody.mk VUndef None None, opts))
                (fun fetched =>
                   bind (saveCache (fst fetched) (snd fetched))
                        (fun parsed => ret (parsed, snd fetched))))
          (fun po =>
             bind (postSearch searchString retries (fst po) (snd po))
                  (fun parsed => collect platform retry parsed (snd po)))
          w1
    end.
Proof.
  unfold attempt. unfold bind at 1. unfold checkArgs_options at 1.
  destruct (checkArgs platform searchString (options w)) as [o' [opts|e]];
    [|reflexivity].
  cbv zeta. unfold bind at 1. unfold gets at 1.
  unfold bind.
  destruct (shouldFetch opts (CACHE (set_options o' w))).
  - destruct (fetchPage platform opts (set_options o' w)) as [[fetched|e] w2];
      [|reflexivity].
    destruct (saveCache (fst fetched) (snd fetched) w2) as [[parsed|e] w3];
      reflexivity.
  - unfold ret. cbn [fst snd].
    destruct (saveCache _ opts (set_options o' w)) as [[parsed|e] w3];
      reflexivity.
Qed.

Lemma preserves_attempt (searchString : string) (retries : nat)
  (retry : M Result) :
  preserves retry -> preserves (attempt platform searchString retries retry).
Proof.
  intros Hretry w. rewrite attempt_unfold.
  pose proof (follows_checkArgs platform searchString w) as F0.
  destruct (checkArgs platform searchString (options w)) as [o' [opts|e]];
    simpl in F0; [|exact F0].
  cbv zeta. eapply follows_trans; [exact F0|].
  set (w1 := set_options o' w).
  unfold bind at 1.
  pose proof (preserves_obtainPage opts w1) as F1.
  unfold bind at 1 in F1. unfold bind at 1.
  destruct ((if shouldFetch opts (CACHE w1) then fetchPage platform opts
             else ret (ParsedBody.mk VUndef None None, opts)) w1)
    as [[fetched|e] w2]; [|exact F1].
  unfold bind at 1.
  destruct (saveCache (fst fetched) (snd fetched) w2) as [[parsed|e] w3];
    [|exact F1].
  unfold ret at 1. eapply follows_trans; [exact F1|].
  apply preserves_bind; [apply preserves_postSearch|].
  intros parsed'. apply preserves_collect, Hretry.
Qed.

Lemma preserves_forgetOnSecondAttempt (retries : nat) :
  preserves (forgetOnSecondAttempt retries).
Proof.
  intros w. unfold forgetOnSecondAttempt.
  destruct (Nat.eqb retries 2); [apply follows_forgotten | apply follows_refl].
Qed.

Lemma preserves_ytsr (searchString : string) (retries : nat) :
  preserves (ytsr platform searchString retries).
Proof.
  induction retries as [|retries IH]; simpl.
  - apply preserves_bind; [apply preserves_forgetOnSecondAttempt|].
    intros; apply preserves_throw.
  - apply preserves_bind; [apply preserves_forgetOnSecondAttempt|].
    intros _. apply preserves_attempt, IH.
Qed.

End SearchPreserves.

(** ** The session parameter cache *)




(** ** The decision to fetch the search page *)

Lemma ytsr_S (platform : Builtins) (searchString : string) (retries : nat)
  (w : World) :
  ytsr platform searchString (S retries) w
  = attempt platform searchString (S retries) (ytsr platform searchString retries)
      (atAttempt (S retries) w).
Proof.
  destruct retries as [|[|retries]]; reflexivity.
Qed.

Lemma atAttempt_frame (retries : nat) (w : World) :
  options (atAttempt retries w) = options w
  /\ requests (atAttempt retries w) = requests w
  /\ network (atAttempt retries w) = network w.
Proof. unfold atAttempt. destruct (Nat.eqb retries 2); auto. Qed.

Lemma shouldFetch_false_iff (opts : NormalizedOptions.t)
  (cache : gmap string string) :
  shouldFetch opts cache = false
  <-> NormalizedOptions.safeSearch opts = true
      /\ CACHE_has "clientVersion" cache = true
      /\ CACHE_has "playlistParams" cache = true.
Proof.
  unfold shouldFetch.
  destruct (NormalizedOptions.safeSearch opts),
    (CACHE_has "clientVersion" cache), (CACHE_has "playlistParams" cache);
    simpl; intuition congruence.
Qed.

(** Under safe search the branch on the type always posts. *)
Lemma postSearch_safe_world (searchString : string) (retries : nat)
  (parsed : ParsedBody.t) (opts : NormalizedOptions.t) (w : World) :
  NormalizedOptions.safeSearch opts = true ->
  exists q,
    is_GET q = false
    /\ snd (postSearch searchString retries parsed opts w)
       = set_network (tail (network w)) (requests w ++ [q]) w.
Proof.
  intros Safe. unfold postSearch. rewrite Safe. cbn [orb].
  destruct (NormalizedOptions.type opts).
  - eexists. split; [|unfold try_catch, bind, doPost, ret, throw].
    2:{ destruct (doPost_reply (head (network w))) as [json|e];
          [reflexivity|].
        destruct (Nat.eqb retries 1); reflexivity. }
    reflexivity.
  - eexists. split; [|unfold bind, gets, doPost, ret, throw].
    2:{ destruct (doPost_reply (head (network w))) as [json|e];
          [|reflexivity].
        destruct (negb (Js.truthy json)); reflexivity. }
    reflexivity.
Qed.

(** The first request of an attempt whose arguments pass [checkArgs]. *)
Lemma attempt_first_request (platform : Builtins) (searchString : string)
  (retries : nat) (retry : M Result) (w : World) (o' : SearchOptions.t)
  (opts : NormalizedOptions.t) :
  preserves retry ->
  checkArgs platform searchString (options w) = (o', Return opts) ->
  exists first rest,
    requests (snd (attempt platform searchString retries retry w))
    = requests w ++ first :: rest
    /\ is_GET first = shouldFetch opts (CACHE w).
Proof.
  intros Hretry Hargs. rewrite attempt_unfold, Hargs. cbv zeta.
  set (w1 := set_options o' w).
  change (CACHE w) with (CACHE w1). change (requests w) with (requests w1).
  assert (Tail : forall po w2,
             exists l,
               requests
                 (snd (bind (postSearch searchString retries (fst po) (snd po))
                            (fun parsed => collect platform retry parsed (snd po))
                            w2))
               = requests w2 ++ l).
  { intros po w2. apply follows_requests.
    apply preserves_bind; [apply preserves_postSearch|].
    intros; apply preserves_collect, Hretry. }
  pose proof (obtainPage_world platform opts w1) as H. cbv zeta in H.
  unfold bind at 1. unfold bind at 1.
  destruct (shouldFetch opts (CACHE w1)) eqn:SF.
  - exists (pageRequest opts w1). unfold bind at 1 in H.
    destruct (fetchPage platform opts w1) as [[fetched|e] w2].
    + unfold bind at 1.
      destruct H as (cache & H).
      destruct (saveCache (fst fetched) (snd fetched) w2) as [[parsed|e] w3];
        simpl in H; subst w3.
      * unfold ret at 1.
        destruct (Tail (parsed, snd fetched)
                    (set_CACHE cache
                       (set_network (tail (network w1))
                          (requests w1 ++ [pageRequest opts w1]) w1)))
          as (l & E).
        exists l. split; [|reflexivity].
        etransitivity; [exact E|]. simpl. now rewrite <- app_assoc.
      * exists []. split; reflexivity.
    + destruct H as (cache & H). simpl in H. subst w2.
      exists []. split; reflexivity.
  - apply shouldFetch_false_iff in SF as (Safe & _ & _).
    unfold ret at 1. cbn [fst snd].
    unfold bind at 1.
    destruct H as (Hw & parsed & Hp).
    unfold bind, ret in Hw, Hp. cbn [fst snd] in Hw, Hp.
    destruct (saveCache _ opts w1) as [[parsed0|e] w3];
      simpl in Hw, Hp; [|discriminate]. subst w3.
    unfold ret at 1. cbn [fst snd]. unfold bind at 1.
    destruct (postSearch_safe_world searchString retries parsed0 opts w1 Safe)
      as (q & Hq & Hw).
    exists q.
    destruct (postSearch searchString retries parsed0 opts w1) as [[p|e] w4];
      simpl in Hw; subst w4.
    + pose proof (preserves_collect platform retry p opts Hretry
                    (set_network (tail (network w1)) (requests w1 ++ [q]) w1))
        as F.
      apply follows_requests in F as (l & E).
      exists l. split; [|exact Hq].
      etransitivity; [exact E|]. simpl. now rewrite <- app_assoc.
    + exists []. split; [reflexivity | exact Hq].
Qed.

(** C1 as stated fails: with safe search off and both keys cached (a
    first search with default options) the page is fetched all the same. *)
Lemma page_fetched_without_safeSearch :
  let w := mkWorld CACHE_at_load SearchOptions.empty None [] [] in
  exists opts o' rest,
    checkArgs simplePlatform "test" (options w) = (o', Return opts)
    /\ NormalizedOptions.safeSearch opts = false
    /\ CACHE_has "clientVersion" (CACHE (atAttempt 3 w)) = true
    /\ CACHE_has "playlistParams" (CACHE (atAttempt 3 w)) = true
    /\ requests (snd (ytsr simplePlatform "test" 3 w))
       = GET BASE_SEARCH_URL [("gl", "US"); ("hl", "en"); ("search_query", "test")]
           (NormalizedOptions.requestOptions opts) :: rest.
Proof.
  cbv zeta. eexists. eexists. eexists.
  split; [reflexivity|].
  split; [reflexivity|]. split; [reflexivity|]. split; [reflexivity|].
  vm_compute. reflexivity.
Qed.

(** C1 (amended). In an attempt whose arguments pass [checkArgs], the page
    fetch is skipped if and only if safe search is enabled and both cache
    keys are present when the attempt starts its body; the first request
    of the attempt is the GET of the search page exactly when the fetch is
    not skipped (otherwise it is a POST to the API). *)
Theorem page_fetch_skipped_iff (platform : Builtins) (searchString : string)
  (retries : nat) (w : World) (o' : SearchOptions.t)
  (opts : NormalizedOptions.t) :
  checkArgs platform searchString (options w) = (o', Return opts) ->
  let cache := CACHE (atAttempt (S retries) w) in
  (shouldFetch opts cache = false
   <-> NormalizedOptions.safeSearch opts = true
       /\ CACHE_has "clientVersion" cache = true
       /\ CACHE_has "playlistParams" cache = true)
  /\ exists first rest,
       requests (snd (ytsr platform searchString (S retries) w))
       = requests w ++ first :: rest
       /\ is_GET first = shouldFetch opts cache.
Proof.
  intros Hargs cache. split; [apply shouldFetch_false_iff|].
  rewrite ytsr_S.
  destruct (atAttempt_frame (S retries) w) as (Eo & Er & _).
  rewrite <- Er. apply attempt_first_request with (o' := o').
  - apply preserves_ytsr.
  - now rewrite Eo.
Qed.

(** A safe search on the cache as loaded skips the page; a plain search
    fetches it. *)
Lemma page_fetch_skipped_iff_witness :
  let w := mkWorld CACHE_at_load
             (SearchOptions.mk (Some true) None None None None VUndef None)
             None [] [] in
  exists opts : NormalizedOptions.t,
    let cache := CACHE (atAttempt 3 w) in
    (shouldFetch opts cache = false
     <-> NormalizedOptions.safeSearch opts = true
         /\ CACHE_has "clientVersion" cache = true
         /\ CACHE_has "playlistParams" cache = true)
    /\ exists first rest,
         requests (snd (ytsr simplePlatform "test" 3 w))
         = requests w ++ first :: rest
         /\ is_GET first = shouldFetch opts cache.
Proof.
  cbv zeta. eexists.
  eapply (page_fetch_skipped_iff simplePlatform "test" 2).
  reflexivity.
Defined.

(** ** The limit *)

Lemma Qltb_true (p q : Q) : JsNum.Qltb p q = true <-> (p < q)%Q.
Proof.
  unfold JsNum.Qltb. rewrite negb_true_iff.
  split; intros H.
  - apply Qnot_le_lt. intros L. apply Qle_bool_iff in L. congruence.
  - destruct (Qle_bool q p) eqn:E; [|reflexivity].
    apply Qle_bool_iff in E. exfalso. exact (Qlt_not_le _ _ H E).
Qed.

Lemma ltb_of_nat_mono (a b : nat) (limit : number) :
  (b <= a)%nat ->
  JsNum.ltb (JsNum.of_nat a) limit = true ->
  JsNum.ltb (JsNum.of_nat b) limit = true.
Proof.
  intros Hle. destruct limit as [|q| |]; simpl; auto.
  rewrite !Qltb_true. intros H.
  eapply Qle_lt_trans; [|exact H].
  rewrite <- Zle_Qle. lia.
Qed.

Lemma within_mono (limit : number) (n m : nat) :
  (m <= n)%nat -> within limit n -> within limit m.
Proof.
  intros Hle [->|H].
  - left. lia.
  - destruct m; [left; reflexivity|right].
    eapply ltb_of_nat_mono; [|exact H]. lia.
Qed.

Lemma within_0 (limit : number) : within limit 0.
Proof. now left. Qed.

(** What is kept after [k] items were spent is what is kept in all. *)
Lemma within_spend (limit : number) (k m : nat) :
  within limit k ->
  within (JsNum.sub limit (JsNum.of_nat k)) m ->
  within limit (k + m).
Proof.
  intros Hk [->|Hm].
  - now rewrite Nat.add_0_r.
  - destruct m as [|m]; [now rewrite Nat.add_0_r|].
    right. destruct limit as [|q| |]; simpl in *; try discriminate; auto.
    rewrite Qltb_true in *.
    replace (k + S m - 1)%nat with (k + m)%nat by lia.
    rewrite Nat.sub_0_r in Hm.
    rewrite Nat2Z.inj_add, inject_Z_plus.
    apply (Qplus_lt_l _ _ (- inject_Z (Z.of_nat k))).
    unfold Qminus in Hm.
    eapply Qle_lt_trans; [|exact Hm].
    apply Qle_lteq. right. ring.
Qed.

Lemma filter_index_lt_within {A : Type} (limit : number) (l : list A) :
  forall i,
    length (Js.filter_index_lt limit i l) = 0%nat
    \/ JsNum.ltb
         (JsNum.of_nat (i + length (Js.filter_index_lt limit i l) - 1)) limit
       = true.
Proof.
  induction l as [|x l IH]; intros i; [now left|].
  cbn [Js.filter_index_lt].
  destruct (JsNum.ltb (JsNum.of_nat i) limit) eqn:E.
  - right. cbn [length].
    destruct (IH (S i)) as [H|H].
    + rewrite H. now replace (i + 1 - 1)%nat with i by lia.
    + remember (length (Js.filter_index_lt limit (S i) l)) as k.
      now replace (i + S k - 1)%nat with (S i + k - 1)%nat by lia.
  - destruct (IH (S i)) as [H|H]; [now left|].
    exfalso. apply (ltb_of_nat_mono _ i) in H; [congruence | lia].
Qed.

Lemma filter_length_le {A : Type} (p : A -> bool) (l : list A) :
  (length (List.filter p l) <= length l)%nat.
Proof.
  induction l as [|x l IH]; simpl; [lia|].
  destruct (p x); simpl; lia.
Qed.

Section Limit.
Variable platform : Builtins.

(** The first page, and every batch, keeps what fits the limit of the
    options at that moment. *)
Lemma selectItems_within (rawItems : list value) (opts : NormalizedOptions.t)
  (kept : list value) :
  selectItems platform rawItems opts = Return kept ->
  within (NormalizedOptions.limit opts) (length kept).
Proof.
  unfold selectItems.
  destruct (parseItems platform rawItems) as [parsed|e]; [|discriminate].
  intros H. injection H as <-.
  destruct (filter_index_lt_within (NormalizedOptions.limit opts)
              (List.filter (has_type (NormalizedOptions.type opts))
                 (filter_map (fun r => r) parsed)) 0) as [H|H].
  - now left.
  - now right.
Qed.

Lemma parsePage2_on_within (net : list reply) :
  forall log token context opts r opts' net' log',
    parsePage2_on platform net log token context opts
    = (Return r, opts', net', log') ->
    within (NormalizedOptions.limit opts) (length r).
Proof.
  induction net as [|rep net IH]; intros log token context opts r opts' net' log'.
  - rewrite parsePage2_on_nil. discriminate.
  - rewrite parsePage2_on_cons. cbv zeta.
    destruct (doPost_reply (Some rep)) as [json|e]; [|discriminate].
    destruct (parsePage2Response json) as [batch|];
      [|intros H; injection H as <- _ _ _; apply within_0].
    destruct (selectItems platform _ opts) as [parsedItems|e] eqn:S;
      [|intros H; injection H as <- _ _ _; apply within_0].
    apply selectItems_within in S.
    destruct (done _ _).
    + intros H. injection H as <- _ _ _. exact S.
    + match goal with
      | |- context [parsePage2_on platform net ?l ?t ?c ?o] =>
          specialize (IH l t c o);
          destruct (parsePage2_on platform net l t c o) as [[[[x|e] o1] n1] l1]
      end; intros H; injection H as <- _ _ _; [|apply within_0].
      rewrite length_app. apply within_spend; [exact S|].
      eapply within_mono; [apply filter_length_le|].
      eapply IH. reflexivity.
Qed.

End Limit.

Section LimitOfSearch.
Variable platform : Builtins.

Lemma bounded_collect (L : option number) (retry : M Result)
  (parsed : ParsedBody.t) (opts : NormalizedOptions.t) :
  bounded L retry ->
  NormalizedOptions.limit opts = correctedLimit L ->
  bounded L (collect platform retry parsed opts).
Proof.
  intros Hretry Hlimit w r w' Ho. unfold collect.
  destruct (negb _); [apply Hretry, Ho|].
  destruct (parseSearchResponse _) as [searchResponse|]; [|apply Hretry, Ho].
  unfold bind at 1, lift.
  destruct (selectItems platform _ opts) as [kept|e] eqn:S; [|discriminate].
  apply selectItems_within in S. rewrite Hlimit in S.
  destruct (done _ _).
  - unfold ret. intros H. injection H as <- _. simpl.
    eapply within_mono; [apply filter_length_le | exact S].
  - unfold bind, parsePage2, ret.
    destruct (parsePage2_on platform (network w) (requests w) _ _ _)
      as [[[[nested|e] o1] n1] l1] eqn:P; [|discriminate].
    apply parsePage2_on_within in P. simpl in P. rewrite Hlimit in P.
    intros H. injection H as <- _. simpl.
    eapply within_mono; [apply filter_length_le|].
    rewrite length_app. apply within_spend; [exact S|].
    eapply within_mono; [apply filter_length_le | exact P].
Qed.

Lemma fetchPage_opts (opts opts' : NormalizedOptions.t) (parsed : ParsedBody.t)
  (w w' : World) :
  fetchPage platform opts w = (Return (parsed, opts'), w') ->
  NormalizedOptions.limit opts' = NormalizedOptions.limit opts
  /\ NormalizedOptions.type opts' = NormalizedOptions.type opts
  /\ NormalizedOptions.safeSearch opts' = NormalizedOptions.safeSearch opts.
Proof.
  unfold fetchPage, bind, gets, fetchText, ret.
  destruct (head (network w)) as [[|text json]|]; try discriminate.
  intros H. injection H as _ <- _.
  destruct (NormalizedOptions.requestOptions opts); auto.
Qed.

Lemma bounded_attempt (L : option number) (searchString : string)
  (retries : nat) (retry : M Result) :
  bounded L retry -> bounded L (attempt platform searchString retries retry).
Proof.
  intros Hretry w r w' Ho. rewrite attempt_unfold.
  pose proof (follows_checkArgs platform searchString w) as F0.
  destruct (checkArgs platform searchString (options w)) as [o' [opts|e]] eqn:C;
    [|discriminate].
  apply checkArgs_Return in C as (_ & _ & N).
  apply normalizeOptions_Return in N as (Hlimit & _ & _).
  rewrite (proj1 (defaultType_frame (options w))), Ho in Hlimit.
  cbv zeta. simpl in F0. set (w1 := set_options o' w) in *.
  unfold bind at 1.
  pose proof (preserves_obtainPage platform opts w1) as F1.
  unfold bind at 1 in F1. unfold bind at 1.
  destruct (shouldFetch opts (CACHE w1)).
  - destruct (fetchPage platform opts w1) as [[[p o2]|e] w2] eqn:FP;
      [|discriminate].
    apply fetchPage_opts in FP as (Hl2 & _ & _).
    unfold bind at 1. cbn [fst snd] in F1 |- *.
    destruct (saveCache p o2 w2) as [[parsed|e] w3]; [|discriminate].
    unfold ret at 1. cbn [fst snd] in F1 |- *. unfold bind at 1.
    pose proof (preserves_postSearch searchString retries parsed o2 w3) as F2.
    destruct (postSearch searchString retries parsed o2 w3) as [[p'|e] w4];
      [|discriminate].
    simpl in F2. apply bounded_collect; [exact Hretry | congruence |].
    rewrite <- Ho.
    apply follows_limit.
    eapply follows_trans; [exact F0|].
    eapply follows_trans; [exact F1 | exact F2].
  - unfold ret at 1. unfold ret at 1 in F1. cbn [fst snd] in F1 |- *.
    unfold bind at 1.
    destruct (saveCache _ opts w1) as [[parsed|e] w3]; [|discriminate].
    unfold ret at 1. cbn [fst snd] in F1 |- *. unfold bind at 1.
    pose proof (preserves_postSearch searchString retries parsed opts w3) as F2.
    destruct (postSearch searchString retries parsed opts w3) as [[p'|e] w4];
      [|discriminate].
    simpl in F2. apply bounded_collect; [exact Hretry | exact Hlimit |].
    rewrite <- Ho.
    apply follows_limit.
    eapply follows_trans; [exact F0|].
    eapply follows_trans; [exact F1 | exact F2].
Qed.

Lemma bounded_ytsr (L : option number) (searchString : string) (retries : nat) :
  bounded L (ytsr platform searchString retries).
Proof.
  induction retries as [|retries IH]; intros w r w' Ho.
  - rewrite ytsr_0. discriminate.
  - rewrite ytsr_S. apply bounded_attempt; [exact IH|].
    now rewrite (proj1 (atAttempt_frame (S retries) w)).
Qed.

End LimitOfSearch.

Lemma correctedLimit_positive (L : option number) :
  JsNum.ltb (JsNum.of_Z 0) (correctedLimit L) = true.
Proof.
  unfold correctedLimit. destruct L as [[|q| |]|]; try reflexivity.
  simpl. destruct (Qle_bool q (inject_Z 0)) eqn:E; [reflexivity|].
  unfold JsNum.Qltb. now rewrite E.
Qed.

Lemma within_integer (z : Z) (n : nat) :
  (0 < z)%Z -> within (JsNum.of_Z z) n -> (Z.of_nat n <= z)%Z.
Proof.
  intros Hz [->|H]; [simpl; lia|].
  simpl in H. apply Qltb_true in H. rewrite <- Zlt_Qlt in H. lia.
Qed.

(** C4. The code breaks the limit when it is no integer: with the limit
    5/2 (positive, so [checkArgs] keeps it as it is) and four videos on
    the first page, the result holds three items, which is more than the
    limit.  The cut [index < limit] lets the item with index 2 pass. *)
Lemma three_items_under_limit_five_halves :
  let w :=
    mkWorld CACHE_at_load
      (SearchOptions.mk None (Some (Num (5 # 2))) None None None VUndef None)
      None
      [Response "<html></html>" None;
       Response ""
         (Some (searchResponse
                  [itemSection [videoRenderer "a"; videoRenderer "b";
                                videoRenderer "c"; videoRenderer "d"]]))]
      [] in
  exists r w',
    ytsr simplePlatform "test" 3 w = (Return r, w')
    /\ correctedLimit (SearchOptions.limit (options w)) = Num (5 # 2)
    /\ length (items r) = 3%nat
    /\ JsNum.leb (JsNum.of_nat (length (items r))) (Num (5 # 2)) = false.
Proof.
  cbv zeta. eexists. eexists.
  split; [vm_compute; reflexivity|].
  split; [reflexivity|]. split; reflexivity.
Qed.

(** What the cut by the index does keep: the normalized limit is
    positive, and in a result there is no item, or the index of the last
    one is below the limit.  So a result holds at most [limit] items
    whenever the limit is an integer, on the first page and in every
    continuation batch with the limit left at that moment. *)
Theorem items_fit_limit (platform : Builtins) (searchString : string)
  (retries : nat) (w w' : World) (r : Result) :
  ytsr platform searchString retries w = (Return r, w') ->
  let limit := correctedLimit (SearchOptions.limit (options w)) in
  JsNum.ltb (JsNum.of_Z 0) limit = true
  /\ within limit (length (items r))
  /\ (forall z, limit = JsNum.of_Z z -> (Z.of_nat (length (items r)) <= z)%Z)
  /\ (forall rawItems opts kept,
        selectItems platform rawItems opts = Return kept ->
        within (NormalizedOptions.limit opts) (length kept))
  /\ (forall net log token context opts batch opts' net' log',
        parsePage2_on platform net log token context opts
        = (Return batch, opts', net', log') ->
        within (NormalizedOptions.limit opts) (length batch)).
Proof.
  intros H limit.
  assert (P : JsNum.ltb (JsNum.of_Z 0) limit = true)
    by apply correctedLimit_positive.
  assert (W : within limit (length (items r)))
    by (eapply bounded_ytsr; [reflexivity | exact H]).
  split; [exact P|]. split; [exact W|]. split; [|split].
  - intros z E. rewrite E in P, W.
    apply within_integer; [|exact W].
    simpl in P. apply Qltb_true in P. now rewrite <- Zlt_Qlt in P.
  - apply selectItems_within.
  - intros net. apply parsePage2_on_within.
Qed.

(** A search with the limit 2 on a first page of four videos. *)
Lemma items_fit_limit_witness :
  let w :=
    mkWorld CACHE_at_load
      (SearchOptions.mk None (Some (JsNum.of_Z 2)) None None None VUndef None)
      None
      [Response "<html></html>" None;
       Response ""
         (Some (searchResponse
                  [itemSection [videoRenderer "a"; videoRenderer "b";
                                videoRenderer "c"; videoRenderer "d"]]))]
      [] in
  exists r w',
    ytsr simplePlatform "test" 3 w = (Return r, w')
    /\ length (items r) = 2%nat
    /\ let limit := correctedLimit (SearchOptions.limit (options w)) in
       JsNum.ltb (JsNum.of_Z 0) limit = true
       /\ within limit (length (items r))
       /\ (forall z, limit = JsNum.of_Z z -> (Z.of_nat (length (items r)) <= z)%Z)
       /\ (forall rawItems opts kept,
             selectItems simplePlatform rawItems opts = Return kept ->
             within (NormalizedOptions.limit opts) (length kept))
       /\ (forall net log token context opts batch opts' net' log',
             parsePage2_on simplePlatform net log token context opts
             = (Return batch, opts', net', log') ->
             within (NormalizedOptions.limit opts) (length batch)).
Proof.
  cbv zeta. eexists. eexists.
  split; [vm_compute; reflexivity|].
  split; [reflexivity|].
  eapply (items_fit_limit simplePlatform "test" 3).
  vm_compute. reflexivity.
Defined.

(** ** The pagination walker *)

Lemma parsePage2_on_batch (platform : Builtins) (r : reply) (net : list reply)
  (log : list request) (token : string) (context : option Context.t)
  (opts : NormalizedOptions.t) (matching : list value) (next : value) :
  batch platform (NormalizedOptions.type opts) r matching next ->
  parsePage2_on platform (r :: net) log token context opts
  = let kept := Js.filter_index_lt (NormalizedOptions.limit opts) 0 matching in
    let opts1 := spend (length kept) opts in
    let log1 := log ++ [continuationRequest token context opts] in
    if done next opts1 then (Return kept, opts1, net, log1)
    else
      match parsePage2_on platform net log1 (Js.str next) context opts1 with
      | (Throw _, o, n, l) => (Return [], o, n, l)
      | (Return nested, o, n, l) =>
          (Return (kept ++ List.filter (fun item => negb (is_null item)) nested),
           o, n, l)
      end.
Proof.
  intros (json & cis & parsed & Hj & Hr & Hp & Hm & Ht).
  rewrite parsePage2_on_cons. cbv zeta.
  rewrite Hj, Hr. unfold selectItems. rewrite Hp, Hm, Ht. reflexivity.
Qed.

Lemma Qltb_integer (q : Q) (z y : Z) :
  (q == inject_Z z)%Q -> JsNum.Qltb (inject_Z y) q = (y <? z)%Z.
Proof.
  intros E. destruct (Z.ltb_spec y z) as [H|H].
  - apply Qltb_true. rewrite E. now rewrite <- Zlt_Qlt.
  - destruct (JsNum.Qltb (inject_Z y) q) eqn:B; [|reflexivity].
    apply Qltb_true in B. rewrite E in B. rewrite <- Zlt_Qlt in B. lia.
Qed.

Lemma Qltb_integer_l (q : Q) (z y : Z) :
  (q == inject_Z z)%Q -> JsNum.Qltb q (inject_Z y) = (z <? y)%Z.
Proof.
  intros E. destruct (Z.ltb_spec z y) as [H|H].
  - apply Qltb_true. rewrite E. now rewrite <- Zlt_Qlt.
  - destruct (JsNum.Qltb q (inject_Z y)) eqn:B; [|reflexivity].
    apply Qltb_true in B. rewrite E in B. rewrite <- Zlt_Qlt in B. lia.
Qed.

(** Under an integer limit the filter on the index is a prefix. *)
Lemma filter_index_lt_firstn {A : Type} (q : Q) (z : Z) (l : list A) :
  (q == inject_Z z)%Q ->
  forall i,
    Js.filter_index_lt (Num q) i l = firstn (Z.to_nat (z - Z.of_nat i)) l.
Proof.
  intros E. induction l as [|x l IH]; intros i.
  - now rewrite firstn_nil.
  - cbn [Js.filter_index_lt]. unfold JsNum.ltb, JsNum.of_nat, JsNum.of_Z.
    rewrite (Qltb_integer q z _ E).
    destruct (Z.ltb_spec (Z.of_nat i) z) as [H|H].
    + rewrite IH.
      replace (Z.to_nat (z - Z.of_nat i))
        with (S (Z.to_nat (z - Z.of_nat (S i)))) by lia.
      reflexivity.
    + rewrite IH.
      replace (Z.to_nat (z - Z.of_nat i)) with 0%nat by lia.
      replace (Z.to_nat (z - Z.of_nat (S i))) with 0%nat by lia.
      reflexivity.
Qed.

Lemma filter_index_lt_all {A : Type} (q : Q) (z : Z) (l : list A) :
  (q == inject_Z z)%Q -> (Z.of_nat (length l) <= z)%Z ->
  Js.filter_index_lt (Num q) 0 l = l.
Proof.
  intros E H. rewrite (filter_index_lt_firstn q z l E 0).
  apply firstn_all2. simpl. lia.
Qed.

Lemma limit_spend (n : nat) (opts : NormalizedOptions.t) :
  NormalizedOptions.limit (spend n opts)
  = JsNum.sub (NormalizedOptions.limit opts) (JsNum.of_nat n).
Proof. reflexivity. Qed.

Lemma has_type_not_null (t : SearchType) (v : value) :
  has_type t v = true -> negb (is_null v) = true.
Proof. destruct v; simpl; auto; discriminate. Qed.

Lemma filter_not_null (t : SearchType) (l : list value) :
  Forall (fun v => has_type t v = true) l ->
  List.filter (fun item => negb (is_null item)) l = l.
Proof.
  induction 1 as [|v l Hv Hl IH]; simpl; [reflexivity|].
  rewrite (has_type_not_null t v Hv). now rewrite IH.
Qed.

Lemma batch_has_type (platform : Builtins) (t : SearchType) (r : reply)
  (matching : list value) (next : value) :
  batch platform t r matching next ->
  Forall (fun v => has_type t v = true) matching.
Proof.
  intros (json & cis & parsed & _ & _ & _ & <- & _).
  apply List.Forall_forall. intros v H. apply filter_In in H. tauto.
Qed.

(** Whatever the replies, a step of the walker starts with its own
    request. *)
Lemma parsePage2_on_first_request (platform : Builtins) (net : list reply)
  (log : list request) (token : string) (context : option Context.t)
  (opts : NormalizedOptions.t) :
  exists added,
    snd (parsePage2_on platform net log token context opts)
    = log ++ continuationRequest token context opts :: added.
Proof.
  destruct net as [|r net].
  - rewrite parsePage2_on_nil. exists []. reflexivity.
  - rewrite parsePage2_on_cons. cbv zeta.
    destruct (doPost_reply (Some r)) as [json|e]; [|exists []; reflexivity].
    destruct (parsePage2Response json) as [items|]; [|exists []; reflexivity].
    destruct (selectItems platform _ opts) as [parsedItems|e];
      [|exists []; reflexivity].
    destruct (done _ _); [exists []; reflexivity|].
    match goal with
    | |- context [parsePage2_on platform net ?l ?t ?c ?o] =>
        destruct (parsePage2_on_log platform net l t c o) as (added & E & _);
        destruct (parsePage2_on platform net l t c o) as [[[[x|e] o'] n'] l']
    end; simpl in E |- *; subst l'; exists added;
      rewrite <- app_assoc; reflexivity.
Qed.

(** C5. A chain of three batches of four entities of the requested type,
    walked with a limit of 10 left: the walker returns the ten first
    entities, has spent the limit, has issued the three requests of these
    batches and no other, and leaves the replies that follow untouched,
    whether the third batch carries a continuation or not.  In general,
    at a batch after which no token remains (its token is null or empty)
    and at a batch after which the limit left is below 1, the walker
    returns what it kept, with no further request and whatever replies
    are still to come; at any other batch it goes on with a request for
    the token of the batch and the limit left. *)
Theorem walker_stops_at_limit (platform : Builtins)
  (r1 r2 r3 : reply) (rest : list reply)
  (m1 m2 m3 : list value) (t1 t2 t3 : value)
  (log : list request) (token : string) (context : option Context.t)
  (opts : NormalizedOptions.t) :
  NormalizedOptions.limit opts = JsNum.of_Z 10 ->
  batch platform (NormalizedOptions.type opts) r1 m1 t1 ->
  batch platform (NormalizedOptions.type opts) r2 m2 t2 ->
  batch platform (NormalizedOptions.type opts) r3 m3 t3 ->
  length m1 = 4%nat -> length m2 = 4%nat -> length m3 = 4%nat ->
  Js.truthy t1 = true -> Js.truthy t2 = true ->
  (exists opts',
     parsePage2_on platform (r1 :: r2 :: r3 :: rest) log token context opts
     = (Return (m1 ++ m2 ++ firstn 2 m3), opts', rest,
        log ++ [continuationRequest token context opts;
                continuationRequest (Js.str t1) context opts;
                continuationRequest (Js.str t2) context opts])
     /\ length (m1 ++ m2 ++ firstn 2 m3) = 10%nat
     /\ JsNum.ltb (NormalizedOptions.limit opts') (JsNum.of_Z 1) = true)
  /\ (forall r net log0 token0 opts0 matching next,
        batch platform (NormalizedOptions.type opts0) r matching next ->
        let kept := Js.filter_index_lt (NormalizedOptions.limit opts0) 0 matching in
        let opts1 := spend (length kept) opts0 in
        let request := continuationRequest token0 context opts0 in
        let walk := parsePage2_on platform (r :: net) log0 token0 context opts0 in
        (Js.truthy next = false ->
         walk = (Return kept, opts1, net, log0 ++ [request]))
        /\ (JsNum.ltb (NormalizedOptions.limit opts1) (JsNum.of_Z 1) = true ->
            walk = (Return kept, opts1, net, log0 ++ [request]))
        /\ (Js.truthy next = true ->
            JsNum.ltb (NormalizedOptions.limit opts1) (JsNum.of_Z 1) = false ->
            exists added,
              snd walk
              = log0 ++ request
                  :: continuationRequest (Js.str next) context opts1 :: added)).
Proof.
  intros Hlimit B1 B2 B3 L1 L2 L3 T1 T2.
  split.
  - pose proof (batch_has_type _ _ _ _ _ B2) as F2.
    pose proof (batch_has_type _ _ _ _ _ B3) as F3.
    (* first batch *)
    rewrite (parsePage2_on_batch platform r1 _ log token context opts m1 t1 B1).
    cbv zeta. rewrite Hlimit.
    change (JsNum.of_Z 10) with (Num (inject_Z 10)).
    rewrite (filter_index_lt_all (inject_Z 10) 10 m1 (Qeq_refl _))
      by (rewrite L1; simpl; lia).
    set (opts1 := spend (length m1) opts).
    assert (E1 : exists q, NormalizedOptions.limit opts1 = Num q
                           /\ (q == inject_Z 6)%Q).
    { eexists. split.
      - unfold opts1. rewrite limit_spend, Hlimit. reflexivity.
      - rewrite L1. reflexivity. }
    destruct E1 as (q1 & Q1 & E1).
    assert (D1 : done t1 opts1 = false).
    { unfold done. rewrite T1, Q1. simpl.
      rewrite (Qltb_integer_l q1 6 1 E1). reflexivity. }
    rewrite D1.
    (* second batch *)
    rewrite (parsePage2_on_batch platform r2 _ _ (Js.str t1) context opts1 m2 t2 B2).
    cbv zeta. rewrite Q1.
    rewrite (filter_index_lt_all q1 6 m2 E1) by (rewrite L2; simpl; lia).
    set (opts2 := spend (length m2) opts1).
    assert (E2 : exists q, NormalizedOptions.limit opts2 = Num q
                           /\ (q == inject_Z 2)%Q).
    { eexists. split.
      - unfold opts2. rewrite limit_spend, Q1. reflexivity.
      - rewrite L2, E1. reflexivity. }
    destruct E2 as (q2 & Q2 & E2).
    assert (D2 : done t2 opts2 = false).
    { unfold done. rewrite T2, Q2. simpl.
      rewrite (Qltb_integer_l q2 2 1 E2). reflexivity. }
    rewrite D2.
    (* third batch *)
    rewrite (parsePage2_on_batch platform r3 _ _ (Js.str t2) context opts2 m3 t3 B3).
    cbv zeta. rewrite Q2.
    rewrite (filter_index_lt_firstn q2 2 m3 E2 0).
    change (Z.to_nat (2 - Z.of_nat 0)) with 2%nat.
    set (opts3 := spend (length (firstn 2 m3)) opts2).
    assert (E3 : exists q, NormalizedOptions.limit opts3 = Num q
                           /\ (q == inject_Z 0)%Q).
    { eexists. split.
      - unfold opts3. rewrite limit_spend, Q2. reflexivity.
      - rewrite length_firstn, L3, E2. reflexivity. }
    destruct E3 as (q3 & Q3 & E3).
    assert (D3 : done t3 opts3 = true).
    { unfold done. rewrite Q3. simpl.
      rewrite (Qltb_integer_l q3 0 1 E3). apply orb_true_r. }
    rewrite D3.
    exists opts3. split; [|split].
    + assert (F3' : Forall (fun v => has_type (NormalizedOptions.type opts) v = true)
                      (firstn 2 m3)) by apply Forall_take, F3.
      rewrite (filter_not_null _ _ F3').
      rewrite (filter_not_null (NormalizedOptions.type opts) (m2 ++ firstn 2 m3)).
      * rewrite <- !app_assoc. reflexivity.
      * apply Forall_app. split; [exact F2 | exact F3'].
    + rewrite !length_app, length_firstn, L1, L2, L3. reflexivity.
    + rewrite Q3. simpl. rewrite (Qltb_integer_l q3 0 1 E3). reflexivity.
  - intros r net log0 token0 opts0 matching next B kept opts1 request walk.
    unfold walk.
    rewrite (parsePage2_on_batch platform r net log0 token0 context opts0
               matching next B).
    cbv zeta. fold kept. fold opts1. fold request. unfold done.
    split; [|split].
    + intros T. now rewrite T.
    + intros L. rewrite L. now rewrite orb_true_r.
    + intros T L. rewrite T, L. cbn [negb orb].
      destruct (parsePage2_on_first_request platform net (log0 ++ [request])
                  (Js.str next) context opts1) as (added & E).
      exists added.
      destruct (parsePage2_on platform net _ _ context opts1)
        as [[[[nested|e] o] n] l];
        simpl in E |- *; rewrite E, <- app_assoc; reflexivity.
Qed.

Lemma pageOfFour_batch (a b c d token : string) :
  batch simplePlatform video (pageOfFour a b c d token)
    [videoEntity a; videoEntity b; videoEntity c; videoEntity d]
    (VStr token).
Proof.
  exists (continuationResponse
            [itemSection [videoRenderer a; videoRenderer b;
                          videoRenderer c; videoRenderer d];
             continuationItem token]).
  exists [itemSection [videoRenderer a; videoRenderer b;
                       videoRenderer c; videoRenderer d];
          continuationItem token].
  exists [Some (videoEntity a); Some (videoEntity b);
          Some (videoEntity c); Some (videoEntity d)].
  repeat split.
Qed.

Lemma lastPageOfFour_batch (a b c d : string) :
  batch simplePlatform video (lastPageOfFour a b c d)
    [videoEntity a; videoEntity b; videoEntity c; videoEntity d] VNull.
Proof.
  exists (continuationResponse
            [itemSection [videoRenderer a; videoRenderer b;
                          videoRenderer c; videoRenderer d]]).
  exists [itemSection [videoRenderer a; videoRenderer b;
                       videoRenderer c; videoRenderer d]].
  exists [Some (videoEntity a); Some (videoEntity b);
          Some (videoEntity c); Some (videoEntity d)].
  repeat split.
Qed.

(** Four pages with a token are ready, and the walker asks for three;
    after a page without a token it asks for no other, with six items
    still wanted and a page ready. *)
Lemma walker_stops_at_limit_witness :
  let m1 := map videoEntity ["a1"; "a2"; "a3"; "a4"] in
  let m2 := map videoEntity ["b1"; "b2"; "b3"; "b4"] in
  let m3 := map videoEntity ["c1"; "c2"; "c3"; "c4"] in
  (exists opts',
     parsePage2_on simplePlatform
       [pageOfFour "a1" "a2" "a3" "a4" "token2";
        pageOfFour "b1" "b2" "b3" "b4" "token3";
        pageOfFour "c1" "c2" "c3" "c4" "token4";
        pageOfFour "d1" "d2" "d3" "d4" "token5"]
       [] "token1" None tenVideos
     = (Return (m1 ++ m2 ++ firstn 2 m3), opts',
        [pageOfFour "d1" "d2" "d3" "d4" "token5"],
        [] ++ [continuationRequest "token1" None tenVideos;
               continuationRequest "token2" None tenVideos;
               continuationRequest "token3" None tenVideos])
     /\ length (m1 ++ m2 ++ firstn 2 m3) = 10%nat
     /\ JsNum.ltb (NormalizedOptions.limit opts') (JsNum.of_Z 1) = true)
  /\ parsePage2_on simplePlatform
       [lastPageOfFour "a1" "a2" "a3" "a4";
        pageOfFour "d1" "d2" "d3" "d4" "token5"]
       [] "token1" None tenVideos
     = (Return m1, spend 4 tenVideos,
        [pageOfFour "d1" "d2" "d3" "d4" "token5"],
        [] ++ [continuationRequest "token1" None tenVideos])
  /\ JsNum.ltb (NormalizedOptions.limit (spend 4 tenVideos)) (JsNum.of_Z 1)
     = false.
Proof.
  cbv zeta.
  destruct (walker_stops_at_limit simplePlatform
              (pageOfFour "a1" "a2" "a3" "a4" "token2")
              (pageOfFour "b1" "b2" "b3" "b4" "token3")
              (pageOfFour "c1" "c2" "c3" "c4" "token4")
              [pageOfFour "d1" "d2" "d3" "d4" "token5"]
              (map videoEntity ["a1"; "a2"; "a3"; "a4"])
              (map videoEntity ["b1"; "b2"; "b3"; "b4"])
              (map videoEntity ["c1"; "c2"; "c3"; "c4"])
              (VStr "token2") (VStr "token3") (VStr "token4")
              [] "token1" None tenVideos) as [Chain General];
    try first [ reflexivity | apply pageOfFour_batch ].
  split; [exact Chain|]. split; [|reflexivity].
  apply (proj1 (General (lastPageOfFour "a1" "a2" "a3" "a4")
                  [pageOfFour "d1" "d2" "d3" "d4" "token5"] [] "token1"
                  tenVideos (map videoEntity ["a1"; "a2"; "a3"; "a4"]) VNull
                  (lastPageOfFour_batch "a1" "a2" "a3" "a4"))).
  reflexivity.
Defined.

(** ** The response unwrapper *)

Lemma traverse_map {A B : Type} (f : A -> option B) (g : A -> B) (l : list A) :
  Forall (fun x => f x = Some (g x)) l ->
  Zod.traverse f l = Some (map g l).
Proof.
  induction 1 as [|x l Hx Hl IH]; simpl; [reflexivity|].
  now rewrite Hx, IH.
Qed.

Lemma lookup_without_key (k : string) (fs : list (string * value)) :
  Js.has k fs = false -> Js.lookup k fs = VUndef.
Proof.
  induction fs as [|[k' v] fs IH]; simpl; [reflexivity|].
  destruct (String.eqb k k'); [discriminate | exact IH].
Qed.

Lemma has_of_lookup (k : string) (fs : list (string * value)) :
  Js.lookup k fs <> VUndef -> Js.has k fs = true.
Proof.
  intros H. destruct (Js.has k fs) eqn:E; [reflexivity|].
  now rewrite lookup_without_key in H.
Qed.

(** A record of unknown values parses to itself. *)
Lemma record_unknown_fields (f : value -> option value)
  (fs : list (string * value)) :
  (forall v, f v = Some v) ->
  Zod.traverse (Zod.on_entry f) fs = Some fs.
Proof.
  intros Hf. induction fs as [|[k v] fs IH]; simpl; [reflexivity|].
  unfold Zod.on_entry at 1. simpl. now rewrite Hf, IH.
Qed.

Lemma record_unknown_on (fs : list (string * value)) :
  Zod.safeParse (Zod.record_ Zod.unknown_) (VObj fs) = Some (VObj fs).
Proof.
  cbn [Zod.safeParse Zod.parseShape Zod.firstValid].
  now rewrite record_unknown_fields by reflexivity.
Qed.

Lemma records_parse (items : list value) :
  Forall is_object items ->
  Zod.traverse (Zod.safeParse (Zod.record_ Zod.unknown_)) items = Some items.
Proof.
  induction 1 as [|x l [fs ->] Hl IH]; [reflexivity|].
  cbn [Zod.traverse]. now rewrite IH, record_unknown_on.
Qed.

Lemma itemSection_schema_on (fs : list (string * value)) :
  Zod.safeParse YouTubeItemSectionRendererSchema (VObj fs)
  = match Js.lookup "itemSectionRenderer" fs with
    | VObj gs =>
        match Js.lookup "contents" gs with
        | VArr items =>
            match Zod.traverse (Zod.safeParse (Zod.record_ Zod.unknown_)) items with
            | Some items' => Some (itemSection items')
            | None => None
            end
        | _ => None
        end
    | _ => None
    end.
Proof.
  unfold YouTubeItemSectionRendererSchema, Zod.object, itemSection.
  cbn [Zod.safeParse Zod.parseShape Zod.firstValid].
  destruct (Js.lookup "itemSectionRenderer" fs) as [| | | | |l|gs]; try reflexivity.
  destruct (Js.lookup "contents" gs) as [| | | | |items|hs]; try reflexivity.
  destruct (Zod.traverse _ items); [|reflexivity].
  cbn. rewrite !orb_true_r. reflexivity.
Qed.

Lemma holdsItems_parsed (items : list value) (x : value) :
  holdsItems items x -> Forall is_object items ->
  Zod.safeParse YouTubeRendererItemSchema x = Some (itemSection items).
Proof.
  unfold holdsItems. intros H R.
  destruct x as [| | | | | |fs]; try discriminate H.
  unfold YouTubeRendererItemSchema. cbn [Zod.safeParse Zod.parseShape Zod.firstValid].
  rewrite itemSection_schema_on.
  simpl in H.
  destruct (Js.lookup "itemSectionRenderer" fs) as [| | | | |l|gs];
    try discriminate H.
  simpl in H. rewrite H. now rewrite (records_parse items R).
Qed.

Lemma single_key_schema_without (k : string) (inner : Zod.schema)
  (fs : list (string * value)) :
  Js.has k fs = false ->
  (forall v, Zod.safeParse inner VUndef = Some v -> False) ->
  Zod.safeParse (Zod.object [(k, inner)]) (VObj fs) = None.
Proof.
  intros H N. unfold Zod.object. cbn [Zod.safeParse Zod.parseShape Zod.firstValid].
  rewrite (lookup_without_key k fs H).
  destruct (Zod.safeParse inner VUndef) eqn:E; [|reflexivity].
  exfalso. eauto.
Qed.

Lemma carriesToken_parsed (token : string) (x : value) :
  carriesToken token x ->
  exists c,
    Zod.safeParse YouTubeRendererItemSchema x
    = Some (VObj [("continuationItemRenderer", c)])
    /\ Zod.safeParse YouTubeContinuationItemRendererSchema
         (VObj [("continuationItemRenderer", c)])
       = Some (continuationItem token).
Proof.
  intros (T & L1 & L2 & L3).
  destruct x as [| | | | | |fs]; try discriminate T.
  unfold lacks in *. simpl in L1, L2, L3.
  exists (Js.lookup "continuationItemRenderer" fs).
  unfold continuation_token in T. simpl in T.
  split.
  - unfold YouTubeRendererItemSchema. cbn [Zod.safeParse Zod.parseShape Zod.firstValid].
    unfold YouTubeItemSectionRendererSchema, YouTubeRichItemRendererSchema,
      YouTubeRichSectionRendererSchema.
    rewrite (single_key_schema_without "itemSectionRenderer" _ fs L1)
      by (intros v; discriminate).
    rewrite (single_key_schema_without "richItemRenderer" _ fs L2)
      by (intros v; discriminate).
    rewrite (single_key_schema_without "richSectionRenderer" _ fs L3)
      by (intros v; discriminate).
    unfold Zod.object. cbn [Zod.safeParse Zod.parseShape Zod.firstValid].
    destruct (Js.lookup "continuationItemRenderer" fs); try discriminate T.
    cbn. rewrite orb_true_r. reflexivity.
  - destruct (Js.lookup "continuationItemRenderer" fs) as [| | | | | |c1];
      try discriminate T.
    simpl in T.
    unfold YouTubeContinuationItemRendererSchema, Zod.object, continuationItem.
    cbn [Zod.safeParse Zod.parseShape Zod.firstValid Js.lookup String.eqb Ascii.eqb Bool.eqb].
    destruct (Js.lookup "continuationEndpoint" c1) as [| | | | | |c2];
      try discriminate T.
    simpl in T.
    destruct (Js.lookup "continuationCommand" c2) as [| | | | | |c3];
      try discriminate T.
    simpl in T. rewrite T.
    cbn. rewrite !orb_true_r. reflexivity.
Qed.

Lemma single_key_schema_on (k : string) (inner : Zod.schema)
  (fs : list (string * value)) :
  Zod.safeParse (Zod.object [(k, inner)]) (VObj fs)
  = match Zod.safeParse inner (Js.lookup k fs) with
    | Some r =>
        Some (VObj (if Js.has k fs || negb (Zod.is_undef r)
                    then [(k, r)] else []))
    | None => None
    end.
Proof.
  unfold Zod.object. cbn [Zod.safeParse Zod.parseShape Zod.firstValid].
  destruct (Zod.safeParse inner (Js.lookup k fs)); [|reflexivity].
  destruct (Js.has k fs || negb (Zod.is_undef v)); reflexivity.
Qed.

(** A wrapper schema with one object-valued key accepts an object only
    if it carries the key, and returns that key alone. *)
Lemma single_key_schema_Some (k : string) (inner : Zod.schema)
  (fs : list (string * value)) (y : value) :
  Zod.safeParse inner VUndef = None ->
  Zod.safeParse (Zod.object [(k, inner)]) (VObj fs) = Some y ->
  Js.has k fs = true /\ exists r, y = VObj [(k, r)].
Proof.
  intros N. rewrite single_key_schema_on.
  destruct (Js.has k fs) eqn:H.
  - destruct (Zod.safeParse inner (Js.lookup k fs)) as [r|]; [|discriminate].
    intros E. injection E as <-. eauto.
  - rewrite (lookup_without_key k fs H), N. discriminate.
Qed.

Lemma has_single (k k' : string) (r : value) :
  Js.has k [(k', r)] = String.eqb k k'.
Proof. simpl. destruct (String.eqb k k'); reflexivity. Qed.

(** Every object of the section list parses, and the parsed element
    carries an item-section or continuation key only if the element
    did. *)
Lemma object_parsed (fs : list (string * value)) :
  exists gs,
    Zod.safeParse YouTubeRendererItemSchema (VObj fs) = Some (VObj gs)
    /\ (Js.has "itemSectionRenderer" gs = true ->
        Js.has "itemSectionRenderer" fs = true)
    /\ (Js.has "continuationItemRenderer" gs = true ->
        Js.has "continuationItemRenderer" fs = true).
Proof.
  unfold YouTubeRendererItemSchema. cbn [Zod.safeParse Zod.parseShape Zod.firstValid].
  destruct (Zod.safeParse YouTubeItemSectionRendererSchema (VObj fs)) as [y|] eqn:A1.
  { apply single_key_schema_Some in A1 as (H & r & ->); [|reflexivity].
    eexists. split; [reflexivity|]. split; [auto|]. discriminate. }
  destruct (Zod.safeParse YouTubeRichItemRendererSchema (VObj fs)) as [y|] eqn:A2.
  { apply single_key_schema_Some in A2 as (H & r & ->); [|reflexivity].
    eexists. split; [reflexivity|]. split; discriminate. }
  destruct (Zod.safeParse YouTubeRichSectionRendererSchema (VObj fs)) as [y|] eqn:A3.
  { apply single_key_schema_Some in A3 as (H & r & ->); [|reflexivity].
    eexists. split; [reflexivity|]. split; discriminate. }
  change (Zod.object_ [("continuationItemRenderer", Zod.unknown_)] false)
    with (Zod.object [("continuationItemRenderer", Zod.unknown_)]).
  rewrite single_key_schema_on. cbn [Zod.safeParse Zod.parseShape Zod.firstValid].
  eexists. split; [reflexivity|].
  destruct (Js.has "continuationItemRenderer" fs) eqn:H; cbn [orb].
  - split; [discriminate | auto].
  - rewrite (lookup_without_key _ fs H). cbn. split; discriminate.
Qed.

Lemma parsedElement_object (x : value) :
  is_object x ->
  Zod.safeParse YouTubeRendererItemSchema x = Some (parsedElement x)
  /\ (lacks "itemSectionRenderer" x -> lacks "itemSectionRenderer" (parsedElement x))
  /\ (lacks "continuationItemRenderer" x ->
      lacks "continuationItemRenderer" (parsedElement x)).
Proof.
  intros [fs ->]. unfold parsedElement, lacks.
  destruct (object_parsed fs) as (gs & -> & H1 & H2). simpl.
  split; [reflexivity|].
  split; intros L.
  - destruct (Js.has "itemSectionRenderer" gs); [|reflexivity].
    rewrite H1 in L; [discriminate | reflexivity].
  - destruct (Js.has "continuationItemRenderer" gs); [|reflexivity].
    rewrite H2 in L; [discriminate | reflexivity].
Qed.

Lemma section_list_parsed (contents : list value) :
  Forall is_object contents ->
  Zod.traverse (Zod.safeParse YouTubeRendererItemSchema) contents
  = Some (map parsedElement contents).
Proof.
  intros H. apply traverse_map.
  eapply List.Forall_impl; [|exact H].
  intros x Hx. apply parsedElement_object, Hx.
Qed.

Lemma find_skips (p : value -> bool) (l1 l2 : list value) (y : value) :
  p y = false -> List.find p (l1 ++ y :: l2) = List.find p (l1 ++ l2).
Proof.
  intros H. induction l1 as [|x l1 IH]; simpl.
  - now rewrite H.
  - destruct (p x); [reflexivity | exact IH].
Qed.

Lemma find_first (p : value -> bool) (l1 l2 : list value) (y : value) :
  Forall (fun x => p x = false) l1 -> p y = true ->
  List.find p (l1 ++ y :: l2) = Some y.
Proof.
  intros H Hy. induction H as [|x l1 Hx Hl IH]; simpl.
  - now rewrite Hy.
  - now rewrite Hx.
Qed.

Lemma find_nowhere (p : value -> bool) (l : list value) :
  Forall (fun x => p x = false) l -> List.find p l = None.
Proof.
  induction 1 as [|x l Hx Hl IH]; simpl; [reflexivity|].
  now rewrite Hx.
Qed.

Lemma primaryContents_parsed (contents : list value) (doc : value) :
  hasSectionList contents doc ->
  Forall is_object contents ->
  Zod.safeParse YouTubePrimaryContentsSchema doc
  = Some (VObj [("sectionListRenderer",
                 VObj [("contents", VArr (map parsedElement contents))])]).
Proof.
  unfold hasSectionList. intros H F.
  destruct doc as [| | | | | |fs]; try discriminate H. simpl in H.
  unfold YouTubePrimaryContentsSchema, Zod.object. cbn [Zod.safeParse Zod.parseShape Zod.firstValid].
  destruct (Js.lookup "sectionListRenderer" fs) as [| | | | | |gs];
    try discriminate H.
  simpl in H. rewrite H. rewrite (section_list_parsed contents F).
  cbn. rewrite !orb_true_r. reflexivity.
Qed.

Lemma parseWrapper_sectionList (contents : list value) (doc : value) :
  hasSectionList contents doc ->
  Forall is_object contents ->
  parseWrapper doc
  = let contents' := map parsedElement contents in
    let itemSection := Js.find (Js.has_key "itemSectionRenderer") contents' in
    mkWrapper
      (if Js.truthy itemSection && Js.has_key "itemSectionRenderer" itemSection
       then
         match Zod.safeParse YouTubeItemSectionRendererSchema itemSection with
         | Some d => Js.elements (Js.get "contents" (Js.get "itemSectionRenderer" d))
         | None => []
         end
       else [])
      (findContinuation contents').
Proof.
  intros H F. unfold parseWrapper.
  rewrite (primaryContents_parsed contents doc H F). reflexivity.
Qed.

(** C8, amended.  In a document of the initial-page shape whose section
    list is made of objects, let the first element with an item-section key hold
    [items] (each an object), and let the list have a continuation-token
    wrapper as its only element with a continuation key: the unwrapper
    returns exactly [items] and the continuation (validated, so not null)
    with that token.  On the document whose list is the same without the
    continuation element it returns the same items and no continuation. *)
Theorem parseWrapper_item_section (doc doc' : value)
  (before after pre post : list value) (section cont : value)
  (items : list value) (token : string) :
  hasSectionList (before ++ cont :: after) doc ->
  hasSectionList (before ++ after) doc' ->
  Forall is_object (before ++ after) ->
  Forall (lacks "continuationItemRenderer") (before ++ after) ->
  carriesToken token cont ->
  before ++ after = pre ++ section :: post ->
  Forall (lacks "itemSectionRenderer") pre ->
  holdsItems items section ->
  Forall is_object items ->
  parseWrapper doc = mkWrapper items (Some (continuationItem token))
  /\ tokenOf (continuation (parseWrapper doc)) = VStr token
  /\ length (rawItems (parseWrapper doc)) = length items
  /\ parseWrapper doc' = mkWrapper items None.
Proof.
  intros Hdoc Hdoc' Fobj Fcont Hcont Hsplit Fpre Hsec Fitems.
  destruct (carriesToken_parsed token cont Hcont) as (c & Pc & Vc).
  assert (Ocont : is_object cont).
  { destruct Hcont as (T & _). destruct cont; try discriminate T. eexists; eauto. }
  assert (Ec : parsedElement cont = VObj [("continuationItemRenderer", c)]).
  { unfold parsedElement. now rewrite Pc. }
  assert (Es : parsedElement section = itemSection items).
  { unfold parsedElement. now rewrite (holdsItems_parsed items section Hsec Fitems). }
  apply Forall_app in Fobj as Fobj2. destruct Fobj2 as [Fb Fa].
  apply Forall_app in Fcont as Fcont2. destruct Fcont2 as [Cb Ca].
  assert (Items : forall l,
             l = map parsedElement (before ++ after) ->
             Js.find (Js.has_key "itemSectionRenderer") l = itemSection items).
  { intros l ->. rewrite Hsplit, map_app. cbn [map]. rewrite Es.
    unfold Js.find. rewrite find_first; [reflexivity| |reflexivity].
    apply List.Forall_forall. intros y Hy.
    apply in_map_iff in Hy as (x & <- & Hx).
    assert (Ox : is_object x).
    { rewrite List.Forall_forall in Fobj. apply Fobj.
      rewrite Hsplit. apply in_or_app. now left. }
    rewrite List.Forall_forall in Fpre.
    apply (parsedElement_object x Ox), Fpre, Hx. }
  assert (NoCont : forall l,
             Forall (lacks "continuationItemRenderer") l -> Forall is_object l ->
             Forall (fun y => Js.has_key "continuationItemRenderer" y = false)
                    (map parsedElement l)).
  { intros l Hl Ol. apply List.Forall_forall. intros y Hy.
    apply in_map_iff in Hy as (x & <- & Hx).
    rewrite List.Forall_forall in Hl, Ol.
    apply (parsedElement_object x (Ol x Hx)), Hl, Hx. }
  assert (Sec : Zod.safeParse YouTubeItemSectionRendererSchema (itemSection items)
                = Some (itemSection items)).
  { unfold itemSection. rewrite itemSection_schema_on.
    cbn -[Zod.traverse Zod.safeParse].
    now rewrite (records_parse items Fitems). }
  assert (W : parseWrapper doc = mkWrapper items (Some (continuationItem token))).
  { rewrite (parseWrapper_sectionList (before ++ cont :: after) doc Hdoc).
    2:{ apply Forall_app. split; [exact Fb|]. constructor; assumption. }
    cbv zeta. rewrite map_app. cbn [map]. rewrite Ec.
    f_equal.
    - unfold Js.find. rewrite find_skips by reflexivity.
      rewrite <- map_app.
      pose proof (Items _ eq_refl) as I. unfold Js.find in I. rewrite I.
      rewrite Sec. reflexivity.
    - unfold findContinuation, Js.find.
      rewrite find_first; [|apply NoCont; assumption|reflexivity].
      cbn [Js.truthy]. exact Vc. }
  split; [exact W|]. rewrite W. split; [reflexivity|]. split; [reflexivity|].
  rewrite (parseWrapper_sectionList (before ++ after) doc' Hdoc' Fobj).
  cbv zeta. f_equal.
  - rewrite (Items _ eq_refl). rewrite Sec. reflexivity.
  - unfold findContinuation, Js.find.
    rewrite find_nowhere; [reflexivity|].
    apply NoCont; assumption.
Qed.

Lemma parseWrapper_item_section_witness :
  let items := [videoRenderer "a"; videoRenderer "b"; videoRenderer "c"] in
  let doc :=
    primaryContentsOf
      [otherElement; itemSection items; richContinuationItem "next"] in
  let doc' := primaryContentsOf [otherElement; itemSection items] in
  parseWrapper doc = mkWrapper items (Some (continuationItem "next"))
  /\ tokenOf (continuation (parseWrapper doc)) = VStr "next"
  /\ length (rawItems (parseWrapper doc)) = length items
  /\ parseWrapper doc' = mkWrapper items None.
Proof.
  cbv zeta.
  apply (parseWrapper_item_section _ _
           [otherElement;
            itemSection [videoRenderer "a"; videoRenderer "b"; videoRenderer "c"]]
           [] [otherElement] []
           (itemSection [videoRenderer "a"; videoRenderer "b"; videoRenderer "c"])
           (richContinuationItem "next")).
  - reflexivity.
  - reflexivity.
  - repeat constructor; eexists; reflexivity.
  - repeat constructor.
  - repeat split.
  - reflexivity.
  - repeat constructor.
  - reflexivity.
  - repeat constructor; eexists; reflexivity.
Defined.

(** C8 as stated fails.  Each of these section lists holds an item
    section with two raw items and a well-formed continuation-token
    wrapper.  With an element that is no object beside them the unwrapper
    returns no item and no continuation; with an earlier element that has
    the continuation key and no token it returns the items and no
    continuation; and with something that is no object among the raw
    items it returns the continuation and no item. *)
Lemma parseWrapper_stray_element :
  let items := [videoRenderer "a"; videoRenderer "b"] in
  let cont := continuationItem "next" in
  holdsItems items (itemSection items)
  /\ carriesToken "next" cont
  /\ parseWrapper (primaryContentsOf [itemSection items; VStr "stray"; cont])
     = mkWrapper [] None
  /\ parseWrapper
       (primaryContentsOf
          [itemSection items; VObj [("continuationItemRenderer", VObj [])];
           cont])
     = mkWrapper items None
  /\ holdsItems [videoRenderer "a"; VStr "stray"]
       (itemSection [videoRenderer "a"; VStr "stray"])
  /\ parseWrapper
       (primaryContentsOf [itemSection [videoRenderer "a"; VStr "stray"]; cont])
     = mkWrapper [] (Some cont).
Proof. repeat split. Qed.

(** ** Object schemas *)

Lemma lookup_app (k : string) (fs gs : list (string * value)) :
  Js.lookup k (fs ++ gs) = if Js.has k fs then Js.lookup k fs else Js.lookup k gs.
Proof.
  induction fs as [|[k' v] fs IH]; simpl; [reflexivity|].
  destruct (String.eqb k k'); [reflexivity | exact IH].
Qed.

Lemma existsb_eqb_false (k : string) (keys : list string) :
  existsb (String.eqb k) keys = false -> ~ In k keys.
Proof.
  intros H Hin. assert (E : existsb (String.eqb k) keys = true).
  { apply existsb_exists. exists k. split; [exact Hin | apply String.eqb_refl]. }
  congruence.
Qed.

Lemma parseShape_keys (parse : Zod.schema -> value -> option value)
  (fs : list (string * value)) (shape : list (string * Zod.schema)) :
  forall out k,
    Zod.parseShape parse fs shape = Some out ->
    Js.has k out = true -> In k (keysOf shape).
Proof.
  induction shape as [|[k0 s0] shape IH]; intros out k; simpl.
  - intros E. injection E as <-. discriminate.
  - destruct (parse s0 (Js.lookup k0 fs)) as [r0|]; [|discriminate].
    destruct (Zod.parseShape parse fs shape) as [out'|]; [|discriminate].
    intros E. injection E as <-.
    destruct (Js.has k0 fs || negb (Zod.is_undef r0)); simpl.
    + destruct (String.eqb_spec k k0) as [->|N]; [auto|].
      intros H. right. eapply IH; [reflexivity | exact H].
    + intros H. right. eapply IH; [reflexivity | exact H].
Qed.

(** A declared key of the parsed object reads the parsed value of the
    key. *)
Lemma parseShape_lookup (parse : Zod.schema -> value -> option value)
  (fs : list (string * value)) (shape : list (string * Zod.schema)) :
  forall out k s,
    distinct (keysOf shape) = true ->
    Zod.parseShape parse fs shape = Some out ->
    In (k, s) shape ->
    exists r, parse s (Js.lookup k fs) = Some r /\ Js.lookup k out = r.
Proof.
  induction shape as [|[k0 s0] shape IH]; intros out k s D E Hin;
    [contradiction|].
  simpl in D. apply andb_true_iff in D as [D0 D].
  apply negb_true_iff in D0. apply existsb_eqb_false in D0.
  simpl in E.
  destruct (parse s0 (Js.lookup k0 fs)) as [r0|] eqn:P0; [|discriminate].
  destruct (Zod.parseShape parse fs shape) as [out'|] eqn:P; [|discriminate].
  injection E as <-.
  destruct Hin as [Hin|Hin].
  - injection Hin as <- <-. exists r0. split; [exact P0|].
    assert (Absent : Js.lookup k0 out' = VUndef).
    { apply lookup_without_key.
      destruct (Js.has k0 out') eqn:H; [|reflexivity].
      exfalso. apply D0. eapply parseShape_keys; eauto. }
    destruct (Js.has k0 fs || negb (Zod.is_undef r0)) eqn:C; simpl.
    + now rewrite String.eqb_refl.
    + apply orb_false_iff in C as [_ C]. apply negb_false_iff in C.
      destruct r0; try discriminate C. exact Absent.
  - destruct (IH out' k s D eq_refl Hin) as (r & Pr & Lr).
    exists r. split; [exact Pr|].
    assert (N : k <> k0).
    { intros ->. apply D0. apply in_map_iff. exists (k0, s). auto. }
    destruct (Js.has k0 fs || negb (Zod.is_undef r0)); simpl; [|exact Lr].
    destruct (String.eqb_spec k k0); [contradiction | exact Lr].
Qed.

Lemma has_extra_keys (k : string) (shape : list (string * Zod.schema))
  (fs : list (string * value)) :
  In k (keysOf shape) -> Js.has k (Zod.extra_keys shape fs) = false.
Proof.
  intros Hin. unfold Zod.extra_keys.
  assert (T : existsb (fun ks => String.eqb k (fst ks)) shape = true).
  { apply in_map_iff in Hin as ([k1 s1] & E1 & H1).
    apply existsb_exists. exists (k1, s1). split; [exact H1|].
    simpl in *. subst k1. apply String.eqb_refl. }
  induction fs as [|[k' v] fs IH]; simpl; [reflexivity|].
  destruct (existsb (fun ks => String.eqb k' (fst ks)) shape) eqn:E; simpl.
  - exact IH.
  - destruct (String.eqb_spec k k') as [Ek|N]; [|exact IH].
    rewrite Ek in T. congruence.
Qed.

(** The same for a whole object schema, stripping or not. *)
Lemma object_lookup (shape : list (string * Zod.schema)) (passthrough : bool)
  (x out : value) (k : string) (s : Zod.schema) :
  distinct (keysOf shape) = true ->
  Zod.safeParse (Zod.object_ shape passthrough) x = Some out ->
  In (k, s) shape ->
  exists r, Zod.safeParse s (Js.get k x) = Some r /\ Js.get k out = r.
Proof.
  intros D E Hin. destruct x as [| | | | | |fs]; try discriminate E.
  cbn [Zod.safeParse] in E.
  destruct (Zod.parseShape Zod.safeParse fs shape) as [decl|] eqn:P;
    [|discriminate].
  injection E as <-.
  destruct (parseShape_lookup Zod.safeParse fs shape decl k s D P Hin)
    as (r & Pr & Lr).
  exists r. split; [exact Pr|]. simpl. rewrite lookup_app.
  destruct (Js.has k decl) eqn:H; [exact Lr|].
  rewrite (lookup_without_key k decl H) in Lr. subst r.
  destruct passthrough; [|reflexivity].
  apply lookup_without_key, has_extra_keys.
  apply in_map_iff. exists (k, s). auto.
Qed.

Lemma object_field (shape : list (string * Zod.schema)) (passthrough : bool)
  (x out : value) :
  Zod.safeParse (Zod.object_ shape passthrough) x = Some out ->
  forall (k : string) (s : Zod.schema),
    distinct (keysOf shape) = true ->
    In (k, s) shape ->
    exists r, Zod.safeParse s (Js.get k x) = Some r /\ Js.get k out = r.
Proof. intros E k s D Hin. exact (object_lookup _ _ _ _ k s D E Hin). Qed.

(** An object schema accepts an object whose declared keys all parse. *)
Lemma parseShape_total (parse : Zod.schema -> value -> option value)
  (fs : list (string * value)) (shape : list (string * Zod.schema)) :
  Forall (fun ks => exists r, parse (snd ks) (Js.lookup (fst ks) fs) = Some r)
         shape ->
  exists out, Zod.parseShape parse fs shape = Some out.
Proof.
  induction 1 as [|[k s] shape (r & Hr) Hs (out & IH)]; simpl.
  - eauto.
  - simpl in Hr. rewrite Hr, IH. eauto.
Qed.

Lemma object_total (shape : list (string * Zod.schema)) (passthrough : bool)
  (fs : list (string * value)) :
  Forall (fun ks =>
            exists r, Zod.safeParse (snd ks) (Js.lookup (fst ks) fs) = Some r)
         shape ->
  exists out, Zod.safeParse (Zod.object_ shape passthrough) (VObj fs) = Some out.
Proof.
  intros H. cbn [Zod.safeParse].
  destruct (parseShape_total Zod.safeParse fs shape H) as (out & ->). eauto.
Qed.

(** ** Digits *)

Lemma all_digits_remove_non_digits (s : string) :
  all_digits (remove_non_digits s) = true.
Proof.
  induction s as [|c s IH]; simpl; [reflexivity|].
  destruct (is_digit c) eqn:E; simpl; [now rewrite E|exact IH].
Qed.

Lemma digits_value_nonneg (s : string) :
  forall acc, (0 <= acc)%Z -> (0 <= digits_value acc s)%Z.
Proof.
  induction s as [|c s IH]; intros acc H; simpl; [exact H|].
  apply IH. lia.
Qed.

Lemma of_Z_nonneg (z : Z) :
  (0 <= z)%Z -> JsNum.leb (JsNum.of_Z 0) (JsNum.of_Z z) = true.
Proof.
  intros H. cbn [JsNum.leb JsNum.of_Z]. apply Qle_bool_iff.
  now rewrite <- Zle_Qle.
Qed.

Lemma leb_not_NaN (a b : number) :
  JsNum.leb a b = true -> JsNum.isNaN b = false.
Proof. destruct a, b; simpl; congruence. Qed.

(** Below 2^53 a natural number is a double. *)
Lemma nearest_small (z : Z) :
  (z < 9007199254740992)%Z -> JsNum.nearest z = JsNum.of_Z z.
Proof.
  intros H. unfold JsNum.nearest.
  destruct (Z.ltb_spec z 9007199254740992); [reflexivity | lia].
Qed.

(** The double nearest to a natural number is not negative (and no
    NaN); it may be [Infinity]. *)
Lemma nearest_nonneg (z : Z) :
  (0 <= z)%Z -> JsNum.leb (JsNum.of_Z 0) (JsNum.nearest z) = true.
Proof.
  intros H. unfold JsNum.nearest.
  destruct (z <? 9007199254740992)%Z; [now apply of_Z_nonneg|].
  cbv zeta.
  match goal with |- context [(2 ^ 1024 <=? ?v)%Z] =>
    destruct (2 ^ 1024 <=? v)%Z; [reflexivity|] end.
  apply of_Z_nonneg, Z.shiftl_nonneg.
  assert (Q : (0 <= Z.shiftr z (Z.log2 z - 52))%Z) by now apply Z.shiftr_nonneg.
  destruct (_ || _); lia.
Qed.

Lemma is_digit_value (c : ascii) :
  is_digit c = true -> (Z.of_nat (nat_of_ascii c - 48) <= 9)%Z.
Proof.
  unfold is_digit. intros H. apply andb_prop in H as [_ H].
  apply Nat.leb_le in H. lia.
Qed.

Lemma digits_value_bound (s : string) :
  all_digits s = true ->
  forall acc, (0 <= acc)%Z ->
    (digits_value acc s < (acc + 1) * 10 ^ Z.of_nat (String.length s))%Z.
Proof.
  induction s as [|c s IH]; intros H acc Hacc.
  - cbn [digits_value String.length Z.of_nat]. rewrite Z.pow_0_r. lia.
  - cbn [all_digits] in H. apply andb_prop in H as [Hc Hs].
    cbn [digits_value String.length]. rewrite Nat2Z.inj_succ, Z.pow_succ_r by lia.
    pose proof (is_digit_value c Hc) as D.
    specialize (IH Hs (10 * acc + Z.of_nat (nat_of_ascii c - 48))%Z ltac:(lia)).
    assert (P : (0 < 10 ^ Z.of_nat (String.length s))%Z)
      by (apply Z.pow_pos_nonneg; lia).
    nia.
Qed.

(** Up to 15 digits spell a number below 2^53. *)
Lemma digits_value_small (s : string) :
  all_digits s = true -> (String.length s <= 15)%nat ->
  (digits_value 0 s < 9007199254740992)%Z.
Proof.
  intros H L. pose proof (digits_value_bound s H 0%Z ltac:(lia)) as B.
  assert (P : (10 ^ Z.of_nat (String.length s) <= 10 ^ 15)%Z)
    by (apply Z.pow_le_mono_r; lia).
  change (10 ^ 15)%Z with 1000000000000000%Z in P. lia.
Qed.

(** A run of up to 15 digits reads as the integer it spells. *)
Lemma Number_of_few_digits (platform : Builtins) (s : string) :
  all_digits s = true -> (String.length s <= 15)%nat ->
  Number_of_string platform s = JsNum.of_Z (digits_value 0 s).
Proof.
  intros H L. unfold Number_of_string. rewrite H.
  now apply nearest_small, digits_value_small.
Qed.

(** The digits of a text read as a number that is not negative. *)
Lemma Number_of_digits (platform : Builtins) (s : string) :
  JsNum.leb (JsNum.of_Z 0) (Number_of_string platform (remove_non_digits s))
  = true.
Proof.
  unfold Number_of_string. rewrite all_digits_remove_non_digits.
  apply nearest_nonneg, digits_value_nonneg. lia.
Qed.

(** ** The video normalizer *)

Lemma VideoSchema_distinct :
  distinct (keysOf
              [("type", Zod.literal_ "video"); ("name", Zod.string_);
               ("id", Zod.string_); ("url", Zod.string_);
               ("thumbnail", Zod.string_);
               ("thumbnails", Zod.array_ ImageSchema);
               ("isUpcoming", Zod.boolean_);
               ("upcoming", Zod.nullable_ Zod.number_);
               ("isLive", Zod.boolean_);
               ("badges", Zod.array_ Zod.string_);
               ("author", Zod.nullable_ AuthorSchema);
               ("description", Zod.string_);
               ("views", Zod.nullable_ Zod.number_);
               ("duration", Zod.string_); ("uploadedAt", Zod.string_)])
  = true.
Proof. reflexivity. Qed.

(** The [views] of a video that [parseVideo] returns are those of the
    object it built, and they are no NaN. *)
Lemma parseVideo_views (platform : Builtins) (obj v : value) :
  parseVideo platform obj = Return (Some v) ->
  let views :=
    if Js.truthy (Js.get "viewCountText" obj)
    then VNum (parseIntegerFromText platform (Js.get "viewCountText" obj))
    else VNull in
  Js.get "views" v = views
  /\ Zod.safeParse (Zod.nullable_ Zod.number_) views = Some views.
Proof.
  unfold parseVideo.
  destruct (prepImg platform _) as [thumbnails|e]; [|discriminate].
  destruct (parseAuthor platform obj) as [author|e]; [|discriminate].
  intros H0.
  assert (H : Zod.safeParse VideoSchema (videoResult platform obj thumbnails author)
              = Some v) by congruence.
  clear H0. cbv zeta.
  destruct (object_lookup _ false _ v "views" (Zod.nullable_ Zod.number_)
              VideoSchema_distinct H) as (r & Pr & Lr).
  { simpl. tauto. }
  rewrite Lr.
  change (Js.get "views" (videoResult platform obj thumbnails author))
    with (if Js.truthy (Js.get "viewCountText" obj)
          then VNum (parseIntegerFromText platform (Js.get "viewCountText" obj))
          else VNull) in Pr.
  destruct (Js.truthy (Js.get "viewCountText" obj)).
  - cbn [Zod.safeParse] in Pr |- *.
    destruct (JsNum.isNaN _); [discriminate|].
    injection Pr as <-. auto.
  - injection Pr as <-. auto.
Qed.

(** *** Schemas whose data parse to themselves *)

Lemma settled_string : settled Zod.string_.
Proof.
  intros x r H. destruct x; try discriminate H.
  injection H as <-. split; [reflexivity | discriminate].
Qed.

Lemma settled_boolean : settled Zod.boolean_.
Proof.
  intros x r H. destruct x; try discriminate H.
  injection H as <-. split; [reflexivity | discriminate].
Qed.

Lemma settled_number : settled Zod.number_.
Proof.
  intros x r H. destruct x as [| | |n| | |]; try discriminate H.
  simpl in H. destruct (JsNum.isNaN n) eqn:E; [discriminate|].
  injection H as <-. simpl. rewrite E. split; [reflexivity | discriminate].
Qed.

Lemma settled_literal (l : string) : settled (Zod.literal_ l).
Proof.
  intros x r H. destruct x as [| | | |s| |]; try discriminate H.
  simpl in H. destruct (String.eqb s l) eqn:E; [|discriminate].
  injection H as <-. simpl. rewrite E. split; [reflexivity | discriminate].
Qed.

Lemma settled_nullable (s : Zod.schema) :
  settled s -> settled (Zod.nullable_ s).
Proof.
  intros Hs x r H.
  assert (N : r = VNull \/ Zod.safeParse s x = Some r).
  { destruct x; simpl in H; auto. injection H as <-. auto. }
  destruct N as [->|N]; [split; [reflexivity | discriminate]|].
  destruct (Hs x r N) as (P & U). split; [|exact U].
  destruct r; simpl; auto.
Qed.

Lemma traverse_settled (s : Zod.schema) (l : list value) :
  settled s ->
  forall l', Zod.traverse (Zod.safeParse s) l = Some l' ->
             Zod.traverse (Zod.safeParse s) l' = Some l'.
Proof.
  intros Hs. induction l as [|x l IH]; intros l'; simpl.
  - intros E. injection E as <-. reflexivity.
  - destruct (Zod.safeParse s x) as [y|] eqn:P; [|discriminate].
    destruct (Zod.traverse (Zod.safeParse s) l) as [ys|]; [|discriminate].
    intros E. injection E as <-. simpl.
    destruct (Hs x y P) as (-> & _). now rewrite (IH ys eq_refl).
Qed.

Lemma settled_array (s : Zod.schema) : settled s -> settled (Zod.array_ s).
Proof.
  intros Hs x r H. destruct x as [| | | | |l|]; try discriminate H.
  cbn [Zod.safeParse] in H.
  destruct (Zod.traverse (Zod.safeParse s) l) as [l'|] eqn:T; [|discriminate].
  injection H as <-. cbn [Zod.safeParse].
  rewrite (traverse_settled s l Hs l' T). split; [reflexivity | discriminate].
Qed.

Lemma has_app (k : string) (fs gs : list (string * value)) :
  Js.has k (fs ++ gs) = Js.has k fs || Js.has k gs.
Proof.
  induction fs as [|[k' v] fs IH]; simpl; [reflexivity|].
  destruct (String.eqb k k'); [reflexivity | exact IH].
Qed.

Lemma parseShape_again (fs : list (string * value))
  (shape : list (string * Zod.schema)) :
  Forall (fun ks => settled (snd ks)) shape ->
  distinct (keysOf shape) = true ->
  forall out pre,
    Zod.parseShape Zod.safeParse fs shape = Some out ->
    (forall k, In k (keysOf shape) -> Js.has k pre = false) ->
    Zod.parseShape Zod.safeParse (pre ++ out) shape = Some out.
Proof.
  induction 1 as [|[k0 s0] shape H0 Hs IH]; intros D out pre E Hpre.
  - simpl in E. injection E as <-. reflexivity.
  - simpl in D. apply andb_true_iff in D as [D0 D].
    apply negb_true_iff in D0. apply existsb_eqb_false in D0.
    simpl in E |- *.
    destruct (Zod.safeParse s0 (Js.lookup k0 fs)) as [r0|] eqn:P0; [|discriminate].
    destruct (Zod.parseShape Zod.safeParse fs shape) as [out'|] eqn:P;
      [|discriminate].
    destruct (H0 _ _ P0) as (R0 & U0). simpl in R0.
    assert (I : negb (Zod.is_undef r0) = true) by (destruct r0; auto; congruence).
    rewrite I, orb_true_r in E. injection E as <-.
    assert (Hk0 : Js.has k0 pre = false) by (apply Hpre; now left).
    rewrite lookup_app, Hk0. simpl. rewrite String.eqb_refl, R0.
    rewrite has_app, Hk0. simpl. rewrite String.eqb_refl. simpl.
    replace (pre ++ (k0, r0) :: out') with ((pre ++ [(k0, r0)]) ++ out')
      by now rewrite <- app_assoc.
    rewrite (IH D out' (pre ++ [(k0, r0)]) eq_refl); [reflexivity|].
    intros k Hk. rewrite has_app, (Hpre k (or_intror Hk)). simpl.
    destruct (String.eqb_spec k k0) as [->|N]; [contradiction | reflexivity].
Qed.

Lemma settled_object (shape : list (string * Zod.schema)) :
  Forall (fun ks => settled (snd ks)) shape ->
  distinct (keysOf shape) = true ->
  settled (Zod.object shape).
Proof.
  intros Hs D x r H. destruct x as [| | | | | |fs]; try discriminate H.
  unfold Zod.object in *. cbn [Zod.safeParse] in H.
  destruct (Zod.parseShape Zod.safeParse fs shape) as [out|] eqn:P;
    [|discriminate].
  rewrite app_nil_r in H. injection H as <-.
  split; [|discriminate]. cbn [Zod.safeParse].
  pose proof (parseShape_again fs shape Hs D out [] P (fun _ _ => eq_refl))
    as R.
  cbn [app] in R. rewrite R. now rewrite app_nil_r.
Qed.

Lemma settled_ImageSchema : settled ImageSchema.
Proof.
  apply settled_object; [|reflexivity].
  repeat (apply List.Forall_cons; [cbn [snd]|]); [| | |apply List.Forall_nil].
  - apply settled_nullable, settled_string.
  - apply settled_number.
  - apply settled_number.
Qed.

Lemma settled_AuthorSchema : settled AuthorSchema.
Proof.
  apply settled_object; [|reflexivity].
  repeat (apply List.Forall_cons; [cbn [snd]|]); [..|apply List.Forall_nil];
    auto using settled_string, settled_boolean, settled_nullable,
      settled_array, settled_ImageSchema.
Qed.

(** What [parseAuthor] returns is accepted as the [author] of a video. *)
Lemma parseAuthor_accepted (platform : Builtins) (obj author : value) :
  parseAuthor platform obj = Return author ->
  Zod.safeParse (Zod.nullable_ AuthorSchema) author = Some author.
Proof.
  unfold parseAuthor.
  destruct (negb _ || negb _); [intros H; injection H as <-; reflexivity|].
  destruct (negb _ || negb _); [intros H; injection H as <-; reflexivity|].
  destruct (URL_new platform _ _) as [url|]; [|discriminate].
  destruct (prepImg platform _) as [avatars|e]; [|discriminate].
  destruct (Zod.safeParse AuthorSchema _) as [a|] eqn:P;
    intros H; injection H as <-; [|reflexivity].
  destruct (settled_AuthorSchema _ _ P) as (R & _).
  destruct a; simpl; auto.
Qed.

(** *** Prepared images *)

Lemma YouTubeImage_data (x data : value) :
  Zod.safeParse YouTubeImageSchema x = Some data ->
  exists u w h rest,
    data = VObj (("url", VStr u) :: ("width", VNum w) :: ("height", VNum h) :: rest)
    /\ JsNum.isNaN w = false /\ JsNum.isNaN h = false.
Proof.
  destruct x as [| | | | | |fs]; try discriminate.
  unfold YouTubeImageSchema, Zod.passthrough.
  cbn [Zod.safeParse Zod.parseShape].
  destruct (Js.lookup "url" fs) as [| | | |u| |]; try discriminate.
  destruct (Js.lookup "width" fs) as [| | |w| | |]; try discriminate.
  destruct (JsNum.isNaN w) eqn:Ew; [discriminate|].
  destruct (Js.lookup "height" fs) as [| | |h| | |]; try discriminate.
  destruct (JsNum.isNaN h) eqn:Eh; [discriminate|].
  cbn [Zod.is_undef negb]. rewrite !orb_true_r.
  intros E. injection E as <-. cbn [app]. eauto 10.
Qed.

Lemma with_url_prepared (X : value) (u : string) (w h : number)
  (rest : list (string * value)) :
  JsNum.isNaN w = false -> JsNum.isNaN h = false ->
  X = VNull \/ (exists s, X = VStr s) ->
  prepared
    (with_field "url" X
       (VObj (("url", VStr u) :: ("width", VNum w) :: ("height", VNum h) :: rest))).
Proof.
  intros Ew Eh HX. split; [|exact HX].
  unfold ImageSchema, Zod.object.
  cbn [with_field set_field String.eqb Ascii.eqb Bool.eqb Zod.safeParse
       Zod.parseShape Js.lookup].
  destruct HX as [->|(s & ->)]; cbn; rewrite Ew, Eh; discriminate.
Qed.

Lemma prepImg_image_prepared (platform : Builtins) (x i : value) :
  prepImg_image platform x = Return (Some i) -> prepared i.
Proof.
  unfold prepImg_image.
  destruct (Zod.safeParse YouTubeImageSchema x) as [data|] eqn:P; [|discriminate].
  destruct (YouTubeImage_data x data P) as (u & w & h & rest & -> & Ew & Eh).
  destruct (nonempty _).
  - destruct (URL_new platform _ _) as [url|]; [|discriminate].
    intros E. injection E as <-. apply (with_url_prepared _ u); eauto.
  - intros E. injection E as <-. apply (with_url_prepared _ u); eauto.
Qed.

Lemma prepImg_images_prepared (platform : Builtins) (img : list value) :
  forall images, prepImg_images platform img = Return images ->
                 Forall prepared images.
Proof.
  induction img as [|x img IH]; intros images; simpl.
  - intros E. injection E as <-. constructor.
  - destruct (prepImg_image platform x) as [r|] eqn:P; [|discriminate].
    destruct (prepImg_images platform img) as [rest|]; [|discriminate].
    intros E. injection E as <-. specialize (IH rest eq_refl).
    destruct r as [i|]; [|exact IH].
    constructor; [|exact IH]. eapply prepImg_image_prepared, P.
Qed.

Lemma sort_insert_Forall (P : value -> Prop) (x : value) (sorted : list value) :
  P x -> Forall P sorted -> Forall P (sort_insert x sorted).
Proof.
  intros Hx. induction 1 as [|y rest Hy Hrest IH]; simpl.
  - constructor; [exact Hx | constructor].
  - destruct (sorts_after x y); constructor; auto.
Qed.

Lemma sort_by_width_desc_Forall (P : value -> Prop) (images : list value) :
  Forall P images -> Forall P (sort_by_width_desc images).
Proof.
  induction 1; simpl; [constructor|].
  now apply sort_insert_Forall.
Qed.

Lemma prepImg_prepared (platform : Builtins) (img images : list value) :
  prepImg platform img = Return images -> Forall prepared images.
Proof.
  unfold prepImg.
  destruct (prepImg_images platform img) as [l|] eqn:P; [|discriminate].
  intros E. injection E as <-.
  eapply sort_by_width_desc_Forall, prepImg_images_prepared, P.
Qed.

Lemma traverse_total (s : Zod.schema) (l : list value) :
  Forall (fun x => Zod.safeParse s x <> None) l ->
  Zod.traverse (Zod.safeParse s) l <> None.
Proof.
  induction 1 as [|x l Hx Hl IH]; simpl; [discriminate|].
  destruct (Zod.safeParse s x); [|contradiction].
  destruct (Zod.traverse (Zod.safeParse s) l); [discriminate | contradiction].
Qed.

Lemma best_thumbnail_string (images : list value) :
  Forall prepared images ->
  exists s, Js.or (Js.get "url" (first_image images)) (VStr "") = VStr s.
Proof.
  destruct 1 as [|i images (_ & [E|(s & E)]) _]; simpl.
  - eauto.
  - rewrite E. simpl. eauto.
  - rewrite E. unfold Js.or. destruct (Js.truthy (VStr s)); eauto.
Qed.

(** *** What the renderer schema guarantees *)

Lemma traverse_outputs (s : Zod.schema) (l : list value) :
  forall l', Zod.traverse (Zod.safeParse s) l = Some l' ->
             Forall (fun y => exists x, Zod.safeParse s x = Some y) l'.
Proof.
  induction l as [|x l IH]; intros l'; simpl.
  - intros E. injection E as <-. constructor.
  - destruct (Zod.safeParse s x) as [y|] eqn:P; [|discriminate].
    destruct (Zod.traverse (Zod.safeParse s) l) as [ys|]; [|discriminate].
    intros E. injection E as <-. constructor; eauto.
Qed.

Lemma renderer_videoId (raw obj : value) :
  Zod.safeParse YouTubeVideoRendererSchema raw = Some obj ->
  exists id, Js.get "videoId" raw = VStr id /\ Js.get "videoId" obj = VStr id.
Proof.
  intros H.
  destruct (object_field _ _ _ _ H "videoId" Zod.string_ eq_refl)
    as (r & P & G); [now left|].
  destruct (Js.get "videoId" raw) as [| | | |id| |]; try discriminate P.
  injection P as <-. eauto.
Qed.

Lemma badge_label (b b' : value) :
  Zod.safeParse YouTubeMetadataBadgeSchema b = Some b' ->
  exists s, Js.get "label" (Js.get "metadataBadgeRenderer" b') = VStr s.
Proof.
  intros H.
  destruct (object_field _ _ _ _ H "metadataBadgeRenderer" _ eq_refl
              (or_introl eq_refl)) as (m & Pm & <-).
  destruct (object_field _ _ _ _ Pm "label" Zod.string_ eq_refl
              (or_introl eq_refl)) as (r & P & <-).
  destruct (Js.get "label" _); try discriminate P.
  injection P as <-. eauto.
Qed.

Lemma renderer_badges (raw obj : value) :
  Zod.safeParse YouTubeVideoRendererSchema raw = Some obj ->
  Forall (fun l => exists s, l = VStr s)
         (map (fun a => Js.get "label" (Js.get "metadataBadgeRenderer" a))
              (Js.elements (Js.get "badges" obj))).
Proof.
  intros H.
  destruct (object_field _ _ _ _ H "badges"
              (Zod.optional_ (Zod.array_ YouTubeMetadataBadgeSchema)) eq_refl)
    as (r & P & ->); [cbn; tauto|].
  assert (A : r = VUndef
              \/ exists l l', Zod.traverse (Zod.safeParse YouTubeMetadataBadgeSchema) l
                              = Some l' /\ r = VArr l').
  { destruct (Js.get "badges" raw) as [| | | | |l|]; cbn [Zod.safeParse] in P;
      try discriminate P.
    - left. congruence.
    - destruct (Zod.traverse _ l) as [l'|] eqn:T; [|discriminate].
      right. exists l, l'. split; congruence. }
  destruct A as [->|(l & l' & T & ->)]; [constructor|].
  apply Forall_map. cbn [Js.elements].
  eapply List.Forall_impl; [|exact (traverse_outputs _ _ _ T)].
  intros b' (b & Pb). eapply badge_label, Pb.
Qed.

Lemma array_accepted (s : Zod.schema) (l : list value) :
  Forall (fun x => Zod.safeParse s x <> None) l ->
  Zod.safeParse (Zod.array_ s) (VArr l) <> None.
Proof.
  intros H. pose proof (traverse_total s l H) as T.
  change (match Zod.traverse (Zod.safeParse s) l with
          | Some l' => Some (VArr l')
          | None => None
          end <> None).
  destruct (Zod.traverse (Zod.safeParse s) l); easy.
Qed.

Lemma strings_accepted (l : list value) :
  Forall (fun x => exists s, x = VStr s) l ->
  Zod.safeParse (Zod.array_ Zod.string_) (VArr l) <> None.
Proof.
  intros H. apply array_accepted.
  eapply List.Forall_impl; [|exact H]. now intros x (s & ->).
Qed.

Lemma images_accepted (images : list value) :
  Forall prepared images ->
  Zod.safeParse (Zod.array_ ImageSchema) (VArr images) <> None.
Proof.
  intros H. apply array_accepted.
  eapply List.Forall_impl; [|exact H]. now intros x (P & _).
Qed.

(** *** When [parseVideo] produces a video *)

Lemma accepted_ex (s : Zod.schema) (x : value) :
  Zod.safeParse s x <> None -> exists r, Zod.safeParse s x = Some r.
Proof. destruct (Zod.safeParse s x); [eauto | easy]. Qed.

Lemma videoResult_accepted (platform : Builtins)
  (raw obj : value) (thumbnails : list value) (author : value) :
  Zod.safeParse YouTubeVideoRendererSchema raw = Some obj ->
  Forall prepared thumbnails ->
  Zod.safeParse (Zod.nullable_ AuthorSchema) author = Some author ->
  startKnown platform obj ->
  viewsKnown platform obj ->
  exists v,
    Zod.safeParse VideoSchema (videoResult platform obj thumbnails author) = Some v.
Proof.
  intros H Ht Ha Hs Hv.
  destruct (renderer_videoId raw obj H) as (id & _ & Eid).
  pose proof (renderer_badges raw obj H) as Hb.
  destruct (best_thumbnail_string thumbnails Ht) as (th & Eth).
  unfold VideoSchema, Zod.object, videoResult. cbv zeta.
  apply object_total.
  repeat (apply List.Forall_cons;
          [cbn [fst snd Js.lookup String.eqb Ascii.eqb Bool.eqb]|]);
    [..|apply List.Forall_nil]; try (cbn [Zod.safeParse]; eauto; fail).
  - rewrite Eid. eexists. reflexivity.
  - rewrite Eth. eexists. reflexivity.
  - apply accepted_ex, images_accepted, Ht.
  - unfold startKnown in Hs.
    destruct (Js.truthy (Js.get "upcomingEventData" obj));
      cbn [Zod.safeParse]; [rewrite Hs by reflexivity|]; eauto.
  - apply accepted_ex, strings_accepted.
    destruct (Js.truthy (Js.get "badges" obj)); [exact Hb | constructor].
  - unfold viewsKnown in Hv.
    destruct (Js.truthy (Js.get "viewCountText" obj));
      cbn [Zod.safeParse]; [rewrite Hv by reflexivity|]; eauto.
Qed.

(** A text object's view count always reads as a number. *)
Lemma viewsKnown_object (platform : Builtins) (obj : value) :
  Js.is_string (Js.get "viewCountText" obj) = false ->
  viewsKnown platform obj.
Proof.
  intros Hx _. unfold parseIntegerFromText.
  pose proof (leb_not_NaN _ _
                (Number_of_digits platform
                   (parseText (Js.get "viewCountText" obj)))) as E.
  destruct (Js.get "viewCountText" obj); try discriminate Hx; exact E.
Qed.

Lemma parseVideo_produces (platform : Builtins) (raw obj : value)
  (thumbnails : list value) (author : value) :
  Zod.safeParse YouTubeVideoRendererSchema raw = Some obj ->
  prepImg platform (Js.elements (Js.get "thumbnails" (Js.get "thumbnail" obj)))
  = Return thumbnails ->
  parseAuthor platform obj = Return author ->
  startKnown platform obj ->
  viewsKnown platform obj ->
  exists v, parseVideo platform obj = Return (Some v).
Proof.
  intros H Ht Ha Hs Hv. unfold parseVideo. rewrite Ht, Ha.
  destruct (videoResult_accepted platform raw obj thumbnails author H) as (v & E);
    auto.
  - eapply prepImg_prepared, Ht.
  - eapply parseAuthor_accepted, Ha.
  - rewrite E. eauto.
Qed.

(** *** The normalizer on a video renderer *)

(** An item whose [videoRenderer] the schema accepts goes to
    [parseVideo] with the parsed renderer. *)
Lemma parseItem_videoRenderer (platform : Builtins) (item obj : value) :
  Zod.safeParse YouTubeVideoRendererSchema (Js.get "videoRenderer" item) = Some obj ->
  parseItem platform item = parseVideo platform obj.
Proof.
  intros H. destruct item as [| | | | | |fs]; try discriminate H.
  cbn [Js.get] in H.
  assert (K : Js.has "videoRenderer" fs = true).
  { apply has_of_lookup. intros E. rewrite E in H. discriminate H. }
  unfold parseItem, YouTubeItemSchema.
  cbn [Zod.safeParse Zod.firstValid].
  rewrite single_key_schema_on, H, K. reflexivity.
Qed.

Lemma renderer_without_videoId (raw : value) :
  Js.is_string (Js.get "videoId" raw) = false ->
  Zod.safeParse YouTubeVideoRendererSchema raw = None.
Proof.
  intros H. destruct raw as [| | | | | |fs]; try reflexivity.
  unfold YouTubeVideoRendererSchema, Zod.passthrough.
  cbn [Zod.safeParse Zod.parseShape]. cbn [Js.get] in H.
  destruct (Js.lookup "videoId" fs); try reflexivity. discriminate H.
Qed.

(** An item whose only renderer is a video renderer without a string
    [videoId] is no entity. *)
Lemma parseItem_without_videoId (platform : Builtins)
  (fs : list (string * value)) :
  Js.is_string (Js.get "videoId" (Js.lookup "videoRenderer" fs)) = false ->
  Js.has "playlistRenderer" fs = false ->
  Js.has "gridVideoRenderer" fs = false ->
  parseItem platform (VObj fs) = Return None.
Proof.
  intros H Hp Hg. unfold parseItem, YouTubeItemSchema.
  cbn [Zod.safeParse Zod.firstValid].
  rewrite single_key_schema_on, (renderer_without_videoId _ H).
  rewrite (single_key_schema_without "playlistRenderer" _ fs Hp)
    by (intros v; discriminate).
  rewrite (single_key_schema_without "gridVideoRenderer" _ fs Hg)
    by (intros v; discriminate).
  reflexivity.
Qed.

(** With a plain string for the view count, the video is dropped when the
    string does not read as a number. *)
Lemma parseVideo_plain_view_count (platform : Builtins) (obj : value)
  (s : string) :
  Js.get "viewCountText" obj = VStr s ->
  s <> "" ->
  JsNum.isNaN (Number_of_string platform s) = true ->
  forall r, parseVideo platform obj = Return r -> r = None.
Proof.
  intros Hs Hne Hn r H. destruct r as [v|]; [|reflexivity].
  destruct (parseVideo_views platform obj v H) as (_ & P).
  rewrite Hs in P. cbn [Js.truthy parseIntegerFromText] in P.
  destruct (String.eqb_spec s ""); [contradiction|].
  cbn [negb Zod.safeParse] in P. rewrite Hn in P. discriminate P.
Qed.

Lemma parseVideo_type (platform : Builtins) (obj v : value) :
  parseVideo platform obj = Return (Some v) -> Js.get "type" v = VStr "video".
Proof.
  unfold parseVideo.
  destruct (prepImg platform _) as [thumbnails|e]; [|discriminate].
  destruct (parseAuthor platform obj) as [author|e]; [|discriminate].
  intros H0.
  assert (H : Zod.safeParse VideoSchema (videoResult platform obj thumbnails author)
              = Some v) by congruence.
  destruct (object_lookup _ false _ v "type" (Zod.literal_ "video")
              VideoSchema_distinct H (or_introl eq_refl)) as (r & Pr & Lr).
  rewrite Lr.
  change (Js.get "type" (videoResult platform obj thumbnails author))
    with (VStr "video") in Pr.
  cbn in Pr. congruence.
Qed.

(** C9, as stated, fails: [plainViewsRenderer] has a video id, a title, a
    thumbnail list and a view-count text, and the renderer schema accepts
    it; its view count is a plain string, which [parseIntegerFromText]
    hands to [Number] with its comma and letters ([Number("1,234 views")]
    is NaN), so that the views are NaN, the video schema rejects the
    entity and the normalizer returns [null]. *)
Lemma plain_view_count_video_dropped :
  Zod.safeParse YouTubeVideoRendererSchema plainViewsRenderer
  = Some plainViewsRenderer
  /\ Js.truthy (Js.get "title" plainViewsRenderer) = true
  /\ Js.truthy (Js.get "viewCountText" plainViewsRenderer) = true
  /\ Js.get "thumbnails" (Js.get "thumbnail" plainViewsRenderer) = VArr []
  /\ parseItem simplePlatform (VObj [("videoRenderer", plainViewsRenderer)])
     = Return None.
Proof. repeat split; vm_compute; reflexivity. Qed.

(** C9, amended.  Take a renderer that the video-renderer schema accepts,
    whose view-count text is a text object (not a plain string) with at
    most 15 digits in it, whose thumbnail and channel URLs resolve and
    whose upcoming start time, if any, reads as a number.  The normalizer
    produces a video, and its [views] are the non-negative integer that
    the digits of the text spell.  An item whose only renderer is a video
    renderer without a string [videoId] yields [null]. *)
Theorem parseItem_video_views (platform : Builtins) (item obj : value)
  (text : list (string * value)) (thumbnails : list value) (author : value) :
  Zod.safeParse YouTubeVideoRendererSchema (Js.get "videoRenderer" item) = Some obj ->
  Js.get "viewCountText" obj = VObj text ->
  (String.length (remove_non_digits (parseText (VObj text))) <= 15)%nat ->
  prepImg platform (Js.elements (Js.get "thumbnails" (Js.get "thumbnail" obj)))
  = Return thumbnails ->
  parseAuthor platform obj = Return author ->
  startKnown platform obj ->
  let n := digits_value 0 (remove_non_digits (parseText (VObj text))) in
  (exists v,
      parseItem platform item = Return (Some v)
      /\ Js.get "type" v = VStr "video"
      /\ Js.get "views" v = VNum (JsNum.of_Z n)
      /\ (0 <= n)%Z)
  /\ (forall fs : list (string * value),
        Js.is_string (Js.get "videoId" (Js.lookup "videoRenderer" fs)) = false ->
        Js.has "playlistRenderer" fs = false ->
        Js.has "gridVideoRenderer" fs = false ->
        parseItem platform (VObj fs) = Return None).
Proof.
  intros H Hx Hd Ht Ha Hs n. split; [|apply parseItem_without_videoId].
  rewrite (parseItem_videoRenderer platform item obj H).
  assert (Hv : viewsKnown platform obj).
  { apply viewsKnown_object. now rewrite Hx. }
  destruct (parseVideo_produces platform _ obj thumbnails author H Ht Ha Hs Hv)
    as (v & E).
  exists v. split; [exact E|]. split; [eapply parseVideo_type, E|].
  destruct (parseVideo_views platform obj v E) as (V & _).
  rewrite Hx in V. cbn [Js.truthy parseIntegerFromText] in V.
  rewrite (Number_of_few_digits platform _ (all_digits_remove_non_digits _) Hd)
    in V.
  split; [exact V|]. apply digits_value_nonneg. lia.
Qed.

Lemma parseItem_video_views_witness :
  (exists v,
      parseItem simplePlatform (videoRenderer "a") = Return (Some v)
      /\ Js.get "type" v = VStr "video"
      /\ Js.get "views" v = VNum (JsNum.of_Z 1234)
      /\ (0 <= 1234)%Z)
  /\ (forall fs : list (string * value),
        Js.is_string (Js.get "videoId" (Js.lookup "videoRenderer" fs)) = false ->
        Js.has "playlistRenderer" fs = false ->
        Js.has "gridVideoRenderer" fs = false ->
        parseItem simplePlatform (VObj fs) = Return None).
Proof.
  apply (parseItem_video_views simplePlatform (videoRenderer "a")
           (Js.get "videoRenderer" (videoRenderer "a"))
           [("simpleText", VStr "1,234 views")] [] VNull).
  - reflexivity.
  - reflexivity.
  - vm_compute. lia.
  - reflexivity.
  - reflexivity.
  - intros U. discriminate U.
Defined.

(** ** Failures of a continuation request *)

(** What the [try] of [parsePage2] covers: a step rejects exactly when
    its own request does; whatever fails after that (the normalization
    of an item, a later step) is turned into an empty list. *)
Lemma parsePage2_on_rejects_iff (platform : Builtins) (net : list reply)
  (log : list request) (token : string) (context : option Context.t)
  (opts : NormalizedOptions.t) (e : exn) :
  fst (fst (fst (parsePage2_on platform net log token context opts))) = Throw e
  <-> doPost_reply (head net) = Throw e.
Proof.
  destruct net as [|r net];
    [split; intros H; injection H as <-; reflexivity|].
  rewrite parsePage2_on_cons. cbv zeta. cbn [head].
  destruct (doPost_reply (Some r)) as [json|e'];
    [|split; intros H; injection H as <-; reflexivity].
  split; [|discriminate]. intros H. exfalso. revert H.
  destruct (parsePage2Response json) as [items|]; [|discriminate].
  destruct (selectItems platform _ opts) as [parsedItems|]; [|discriminate].
  destruct (done _ _); [discriminate|].
  destruct (parsePage2_on platform net _ _ context _) as [[[[nested|e'] o] n] l];
    discriminate.
Qed.

(** C2 fails on the code.  The search below receives a page without data,
    then a first batch with one video and a continuation token; the
    request for the continuation fails on the network.  [parsePage2] sends
    that request before it enters its [try], and [ytsr] awaits
    [parsePage2] outside any [try]: the search rejects with the network
    error, and the video of the first batch is lost. *)
Lemma first_continuation_failure_rejects :
  let w :=
    mkWorld CACHE_at_load SearchOptions.empty None
      [Response "<html></html>" None;
       Response ""
         (Some (searchResponse
                  [itemSection [videoRenderer "a"]; continuationItem "tok"]));
       NetworkFailure]
      [] in
  exists w',
    ytsr simplePlatform "test" 3 w = (Throw FetchError, w')
    /\ length (requests w') = 3%nat
    /\ network w' = [].
Proof.
  cbv zeta. eexists. split; [vm_compute; reflexivity|].
  split; reflexivity.
Qed.

(** The same happens when the continuation reply is no JSON. *)
Example first_continuation_not_json_rejects :
  let w :=
    mkWorld CACHE_at_load SearchOptions.empty None
      [Response "<html></html>" None;
       Response ""
         (Some (searchResponse
                  [itemSection [videoRenderer "a"]; continuationItem "tok"]));
       Response "<html></html>" None]
      [] in
  exists w', ytsr simplePlatform "test" 3 w = (Throw SyntaxError, w').
Proof. cbv zeta. eexists. vm_compute. reflexivity. Qed.

(** A failure one step further down is caught by the step above it, which
    then returns no item at all: the search resolves with the first
    batch only. *)
Example second_continuation_failure_is_caught :
  let w :=
    mkWorld CACHE_at_load SearchOptions.empty None
      [Response "<html></html>" None;
       Response ""
         (Some (searchResponse
                  [itemSection [videoRenderer "a"]; continuationItem "tok"]));
       Response ""
         (Some (continuationResponse
                  [itemSection [videoRenderer "b"]; continuationItem "tok2"]));
       NetworkFailure]
      [] in
  exists r w',
    ytsr simplePlatform "test" 3 w = (Return r, w')
    /\ items r = [videoEntity "a"].
Proof.
  cbv zeta. eexists. eexists. split; [vm_compute; reflexivity|reflexivity].
Qed.

(** ** Prepared images are sorted *)

Lemma prepared_width (i : value) :
  prepared i -> JsNum.isNaN (width_of i) = false.
Proof.
  intros (P & _). unfold width_of.
  destruct (Zod.safeParse ImageSchema i) as [r|] eqn:E; [|contradiction].
  destruct (object_field _ _ _ _ E "width" Zod.number_ eq_refl) as (n & Pn & _);
    [cbn; tauto|].
  destruct (Js.get "width" i) as [| | |w| | |]; try discriminate Pn.
  cbn in Pn. destruct (JsNum.isNaN w); [discriminate | reflexivity].
Qed.

Lemma Qltb_sub (p q : Q) : JsNum.Qltb 0 (q - p) = JsNum.Qltb p q.
Proof.
  destruct (JsNum.Qltb p q) eqn:E.
  - apply Qltb_true in E. apply Qltb_true. now apply Qlt_minus_iff in E.
  - destruct (JsNum.Qltb 0 (q - p)) eqn:F; [|reflexivity].
    apply Qltb_true in F. apply Qlt_minus_iff in F.
    apply Qltb_true in F. congruence.
Qed.

(** The comparator [(a, b) => b.width - a.width] is positive exactly when
    [a] is narrower than [b]. *)
Lemma sorts_after_ltb (a b : value) :
  sorts_after a b = JsNum.ltb (width_of a) (width_of b).
Proof.
  unfold sorts_after.
  destruct (width_of a) as [|p| |], (width_of b) as [|q| |]; try reflexivity.
  apply Qltb_sub.
Qed.

Lemma not_ltb_leb (a b : number) :
  JsNum.isNaN a = false -> JsNum.isNaN b = false ->
  JsNum.ltb a b = false -> JsNum.leb b a = true.
Proof.
  destruct a as [|p| |], b as [|q| |]; try discriminate; try reflexivity.
  simpl. unfold JsNum.Qltb. intros _ _ H. apply negb_false_iff in H. exact H.
Qed.

Lemma ltb_leb (a b : number) : JsNum.ltb a b = true -> JsNum.leb a b = true.
Proof.
  destruct a as [|p| |], b as [|q| |]; try discriminate; try reflexivity.
  simpl. intros H. apply Qltb_true in H. apply Qle_bool_iff.
  apply Qlt_le_weak, H.
Qed.

Lemma leb_trans (a b c : number) :
  JsNum.leb a b = true -> JsNum.leb b c = true -> JsNum.leb a c = true.
Proof.
  destruct a as [|p| |], b as [|q| |], c as [|r| |];
    try discriminate; try reflexivity.
  simpl. rewrite !Qle_bool_iff. apply Qle_trans.
Qed.

Lemma sort_insert_perm (x : value) (l : list value) :
  Permutation (x :: l) (sort_insert x l).
Proof.
  induction l as [|y l IH]; simpl; [reflexivity|].
  destruct (sorts_after x y); [|reflexivity].
  rewrite perm_swap. now apply perm_skip.
Qed.

Lemma sort_by_width_desc_perm (l : list value) :
  Permutation l (sort_by_width_desc l).
Proof.
  induction l as [|x l IH]; simpl; [reflexivity|].
  rewrite <- sort_insert_perm. now apply perm_skip.
Qed.

Lemma sort_insert_sorted (x : value) (sorted : list value) :
  JsNum.isNaN (width_of x) = false ->
  Forall (fun y => JsNum.isNaN (width_of y) = false) sorted ->
  StronglySorted widerOrEqual sorted ->
  StronglySorted widerOrEqual (sort_insert x sorted).
Proof.
  intros Hx Hn Hs. induction Hs as [|y rest Hrest IH Hy]; simpl.
  - constructor; [constructor | constructor].
  - apply Forall_cons_1 in Hn as [Ny Nrest].
    rewrite sorts_after_ltb.
    destruct (JsNum.ltb (width_of x) (width_of y)) eqn:E.
    + constructor; [exact (IH Nrest)|].
      rewrite <- sort_insert_perm.
      constructor; [apply ltb_leb, E | exact Hy].
    + assert (L : widerOrEqual x y) by (apply not_ltb_leb; assumption).
      constructor; [constructor; assumption|].
      constructor; [exact L|].
      eapply List.Forall_impl; [|exact Hy].
      intros z Hz. unfold widerOrEqual in *. eapply leb_trans; eassumption.
Qed.

Lemma sort_by_width_desc_sorted (l : list value) :
  Forall (fun y => JsNum.isNaN (width_of y) = false) l ->
  StronglySorted widerOrEqual (sort_by_width_desc l).
Proof.
  induction 1 as [|x l Hx Hl IH]; simpl; [constructor|].
  apply sort_insert_sorted; [exact Hx | | exact IH].
  now rewrite <- sort_by_width_desc_perm.
Qed.

Lemma prepImg_images_length (platform : Builtins) (img : list value) :
  forall l, prepImg_images platform img = Return l ->
            (length l <= length img)%nat.
Proof.
  induction img as [|x img IH]; intros l; simpl.
  - intros E. injection E as <-. simpl. lia.
  - destruct (prepImg_image platform x) as [r|]; [|discriminate].
    destruct (prepImg_images platform img) as [rest|]; [|discriminate].
    intros E. injection E as <-. specialize (IH rest eq_refl).
    destruct r; simpl; lia.
Qed.

(** X1. What [prepImg] returns is sorted by descending width (no image
    is followed by a wider one), and it is a rearrangement of the images
    that its map-and-filter stage kept, which are at most as many as the
    candidates given. *)
Theorem prepImg_sorted (platform : Builtins) (img images : list value) :
  prepImg platform img = Return images ->
  StronglySorted widerOrEqual images
  /\ (exists kept, prepImg_images platform img = Return kept
                   /\ Permutation kept images)
  /\ (length images <= length img)%nat.
Proof.
  unfold prepImg.
  destruct (prepImg_images platform img) as [kept|] eqn:E; [|discriminate].
  intros H. injection H as <-.
  pose proof (prepImg_images_prepared platform img kept E) as P.
  split; [|split].
  - apply sort_by_width_desc_sorted.
    eapply List.Forall_impl; [|exact P]. apply prepared_width.
  - exists kept. split; [reflexivity | apply sort_by_width_desc_perm].
  - rewrite <- (Permutation_length (sort_by_width_desc_perm kept)).
    eapply prepImg_images_length, E.
Qed.

Lemma prepImg_sorted_witness :
  let images := [image (BASE_URL ++ "c.jpg") 480;
                 image (BASE_URL ++ "a.jpg") 120] in
  prepImg simplePlatform [image "a.jpg" 120; VStr "no image"; image "c.jpg" 480]
  = Return images
  /\ StronglySorted widerOrEqual images
  /\ (exists kept,
         prepImg_images simplePlatform
           [image "a.jpg" 120; VStr "no image"; image "c.jpg" 480]
         = Return kept
         /\ Permutation kept images)
  /\ (length images <= 3)%nat.
Proof.
  cbv zeta. split; [reflexivity|].
  apply (prepImg_sorted simplePlatform
           [image "a.jpg" 120; VStr "no image"; image "c.jpg" 480]).
  reflexivity.
Defined.

(** ** The unwrapper of continuation batches *)

Lemma joinWrappers_empty_r (a : Wrapper) :
  joinWrappers a (mkWrapper [] None) = a.
Proof. destruct a. unfold joinWrappers. simpl. now rewrite app_nil_r. Qed.

Lemma joinWrappers_assoc (a b c : Wrapper) :
  joinWrappers (joinWrappers a b) c = joinWrappers a (joinWrappers b c).
Proof.
  unfold joinWrappers. simpl. rewrite app_assoc.
  destruct (continuation c); reflexivity.
Qed.

(** What one element adds does not depend on what was gathered before. *)
Lemma parsePage2Wrapper_step_join (acc : Wrapper) (ci : value) :
  parsePage2Wrapper_step acc ci
  = joinWrappers acc (parsePage2Wrapper_step (mkWrapper [] None) ci).
Proof.
  unfold parsePage2Wrapper_step.
  destruct (Zod.safeParse YouTubeRendererItemSchema ci) as [data|];
    [|now rewrite joinWrappers_empty_r].
  repeat match goal with
         | |- context [if ?c then _ else _] => destruct c
         | |- context [match Zod.safeParse ?s ?d with _ => _ end] =>
             destruct (Zod.safeParse s d)
         end;
    try (now rewrite joinWrappers_empty_r);
    unfold joinWrappers; simpl; rewrite ?app_nil_r; reflexivity.
Qed.

Lemma parsePage2Wrapper_fold (l : list value) :
  forall acc,
    fold_left parsePage2Wrapper_step l acc
    = joinWrappers acc (parsePage2Wrapper l).
Proof.
  unfold parsePage2Wrapper.
  induction l as [|ci l IH]; intros acc; simpl.
  - now rewrite joinWrappers_empty_r.
  - rewrite IH, (IH (parsePage2Wrapper_step _ ci)).
    rewrite <- joinWrappers_assoc. f_equal. apply parsePage2Wrapper_step_join.
Qed.

(** X2. Unwrapping a batch that is two batches one after the other gives
    the raw items of the first followed by those of the second, and the
    continuation of the second when it has a valid one, else that of the
    first: the last valid continuation element of a batch wins. *)
Theorem parsePage2Wrapper_app (a b : list value) :
  rawItems (parsePage2Wrapper (a ++ b))
  = rawItems (parsePage2Wrapper a) ++ rawItems (parsePage2Wrapper b)
  /\ continuation (parsePage2Wrapper (a ++ b))
     = match continuation (parsePage2Wrapper b) with
       | Some c => Some c
       | None => continuation (parsePage2Wrapper a)
       end.
Proof.
  assert (E : parsePage2Wrapper (a ++ b)
              = joinWrappers (parsePage2Wrapper a) (parsePage2Wrapper b)).
  { unfold parsePage2Wrapper at 1. rewrite fold_left_app.
    apply parsePage2Wrapper_fold. }
  rewrite E. split; reflexivity.
Qed.

(** ** Exceptions of the normalizer *)

Lemma prepImg_image_Throw (platform : Builtins) (x : value) (e : exn) :
  prepImg_image platform x = Throw e -> urlFailure platform e.
Proof.
  unfold prepImg_image.
  destruct (Zod.safeParse YouTubeImageSchema x) as [data|]; [|discriminate].
  destruct (nonempty _); [|discriminate].
  destruct (URL_new platform _ _) eqn:U; [discriminate|].
  intros H. injection H as <-. split; eauto.
Qed.

Lemma prepImg_Throw (platform : Builtins) (img : list value) (e : exn) :
  prepImg platform img = Throw e -> urlFailure platform e.
Proof.
  unfold prepImg.
  destruct (prepImg_images platform img) as [l|e'] eqn:P; [discriminate|].
  intros H. injection H as <-. revert e' P.
  induction img as [|x img IH]; intros e'; simpl; [discriminate|].
  destruct (prepImg_image platform x) as [r|e1] eqn:P1.
  - destruct (prepImg_images platform img) as [rest|e2]; [discriminate|].
    intros H. injection H as <-. now apply IH.
  - intros H. injection H as <-. eapply prepImg_image_Throw, P1.
Qed.

Lemma parseAuthor_Throw (platform : Builtins) (obj : value) (e : exn) :
  parseAuthor platform obj = Throw e -> urlFailure platform e.
Proof.
  unfold parseAuthor.
  destruct (negb _ || negb _); [discriminate|].
  destruct (negb _ || negb _); [discriminate|].
  destruct (URL_new platform _ _) eqn:U.
  - destruct (prepImg platform _) as [avatars|e'] eqn:P.
    + destruct (Zod.safeParse AuthorSchema _); discriminate.
    + intros H. injection H as <-. eapply prepImg_Throw, P.
  - intros H. injection H as <-. split; eauto.
Qed.

Lemma parseVideo_Throw (platform : Builtins) (obj : value) (e : exn) :
  parseVideo platform obj = Throw e -> urlFailure platform e.
Proof.
  unfold parseVideo.
  destruct (prepImg platform _) as [thumbnails|e'] eqn:P.
  - destruct (parseAuthor platform obj) as [author|e''] eqn:A; [discriminate|].
    intros H. injection H as <-. eapply parseAuthor_Throw, A.
  - intros H. injection H as <-. eapply prepImg_Throw, P.
Qed.

Lemma parseOwner_Throw (platform : Builtins) (obj : value) (e : exn) :
  parseOwner platform obj = Throw e -> urlFailure platform e.
Proof.
  unfold parseOwner.
  destruct (Js.truthy _); [discriminate|].
  destruct (negb _); [discriminate|].
  destruct (negb _ || negb _); [discriminate|].
  destruct (URL_new platform _ _) eqn:U.
  - destruct (Zod.safeParse AuthorSchema _); discriminate.
  - intros H. injection H as <-. split; eauto.
Qed.

Lemma parsePlaylist_Throw (platform : Builtins) (obj : value) (e : exn) :
  parsePlaylist platform obj = Throw e -> urlFailure platform e.
Proof.
  unfold parsePlaylist.
  destruct (parseOwner platform obj) as [owner|e'] eqn:O; [discriminate|].
  intros H. injection H as <-. eapply parseOwner_Throw, O.
Qed.

(** X3. The normalizer throws only where a [new URL] does: an exception
    of [parseItem] is a [TypeError], and some URL input of the platform
    does not parse.  Everything else that is wrong with an item (an
    unknown renderer, a field of the wrong type, an entity that fails its
    schema) gives [null]. *)
Theorem parseItem_throws_on_URL_only (platform : Builtins) (item : value)
  (e : exn) :
  parseItem platform item = Throw e ->
  e = TypeError /\ exists input base, URL_new platform input base = None.
Proof.
  unfold parseItem.
  destruct (Zod.safeParse YouTubeItemSchema item) as [itemData|];
    [|discriminate].
  destruct (Js.has_key "videoRenderer" itemData); [apply parseVideo_Throw|].
  destruct (Js.has_key "playlistRenderer" itemData); [apply parsePlaylist_Throw|].
  destruct (Js.has_key "gridVideoRenderer" itemData); [apply parseVideo_Throw|].
  discriminate.
Qed.

Lemma parseItem_throws_on_URL_only_witness :
  parseItem noURLPlatform videoWithThumbnail = Throw TypeError
  /\ TypeError = TypeError
  /\ exists input base, URL_new noURLPlatform input base = None.
Proof.
  split; [reflexivity|].
  apply (parseItem_throws_on_URL_only noURLPlatform videoWithThumbnail).
  reflexivity.
Defined.

(** X4. An item without a video, playlist or grid-video renderer, be it
    an object with other keys or no object at all, is no entity: the
    normalizer returns [null], it does not throw. *)
Theorem parseItem_unknown_renderer (platform : Builtins) (item : value) :
  Js.has_key "videoRenderer" item = false ->
  Js.has_key "playlistRenderer" item = false ->
  Js.has_key "gridVideoRenderer" item = false ->
  parseItem platform item = Return None.
Proof.
  intros Hv Hp Hg. unfold parseItem.
  assert (E : Zod.safeParse YouTubeItemSchema item = None).
  { destruct item as [| | | | | |fs]; try reflexivity.
    unfold YouTubeItemSchema. cbn [Zod.safeParse Zod.firstValid].
    rewrite (single_key_schema_without "videoRenderer" _ fs Hv)
      by (intros v; discriminate).
    rewrite (single_key_schema_without "playlistRenderer" _ fs Hp)
      by (intros v; discriminate).
    rewrite (single_key_schema_without "gridVideoRenderer" _ fs Hg)
      by (intros v; discriminate).
    reflexivity. }
  now rewrite E.
Qed.

Lemma parseItem_unknown_renderer_witness :
  parseItem simplePlatform otherElement = Return None.
Proof.
  apply (parseItem_unknown_renderer simplePlatform otherElement); reflexivity.
Defined.

(** ** Playlists *)

Lemma parseOwner_accepted (platform : Builtins) (obj owner : value) :
  parseOwner platform obj = Return owner ->
  Zod.safeParse (Zod.nullable_ AuthorSchema) owner = Some owner.
Proof.
  unfold parseOwner.
  destruct (Js.truthy _); [intros H; injection H as <-; reflexivity|].
  destruct (negb _); [intros H; injection H as <-; reflexivity|].
  destruct (negb _ || negb _); [intros H; injection H as <-; reflexivity|].
  destruct (URL_new platform _ _) as [url|]; [|discriminate].
  destruct (Zod.safeParse AuthorSchema _) as [a|] eqn:P;
    intros H; injection H as <-; [|reflexivity].
  destruct (settled_AuthorSchema _ _ P) as (R & _).
  destruct a; simpl; auto.
Qed.

Lemma renderer_playlistId (raw obj : value) :
  Zod.safeParse YouTubePlaylistRendererSchema raw = Some obj ->
  exists id, Js.get "playlistId" obj = VStr id.
Proof.
  intros H.
  destruct (object_field _ _ _ _ H "playlistId" Zod.string_ eq_refl)
    as (r & P & G); [now left|].
  destruct (Js.get "playlistId" raw) as [| | | |id| |]; try discriminate P.
  injection P as <-. eauto.
Qed.

Lemma parsePlaylist_result (platform : Builtins) (obj owner : value) :
  parseOwner platform obj = Return owner ->
  parsePlaylist platform obj
  = Return (Zod.safeParse PlaylistSchema (playlistResult platform obj owner)).
Proof. intros H. unfold parsePlaylist. now rewrite H. Qed.

(** X5. For a playlist renderer that the renderer schema accepts and
    whose owner link resolves, [parsePlaylist] decides on the video
    count alone: when [Number(videoCount)] is NaN (the count is missing,
    or a string that is no number) the playlist is dropped, otherwise the
    playlist is returned with that number as its [length], the renderer's
    playlist id, the playlist URL made of it, and the parsed owner. *)
Theorem parsePlaylist_length (platform : Builtins) (raw obj owner : value) :
  Zod.safeParse YouTubePlaylistRendererSchema raw = Some obj ->
  parseOwner platform obj = Return owner ->
  let n := Number_of_value platform (Js.get "videoCount" obj) in
  (JsNum.isNaN n = true -> parsePlaylist platform obj = Return None)
  /\ (Js.get "videoCount" obj = VUndef -> parsePlaylist platform obj = Return None)
  /\ (JsNum.isNaN n = false ->
      exists p,
        parsePlaylist platform obj = Return (Some p)
        /\ Js.get "type" p = VStr "playlist"
        /\ Js.get "length" p = VNum n
        /\ Js.get "id" p = Js.get "playlistId" obj
        /\ Js.get "url" p
           = VStr ("https://www.youtube.com/playlist?list="
                   ++ Js.str (Js.get "playlistId" obj))
        /\ Js.get "owner" p = owner).
Proof.
  intros H Ho n.
  rewrite (parsePlaylist_result platform obj owner Ho).
  destruct (renderer_playlistId raw obj H) as (id & Eid).
  pose proof (parseOwner_accepted platform obj owner Ho) as Eo.
  assert (Dropped : JsNum.isNaN n = true ->
                    Zod.safeParse PlaylistSchema (playlistResult platform obj owner)
                    = None).
  { intros Hn.
    destruct (Zod.safeParse PlaylistSchema _) as [p|] eqn:P; [|reflexivity].
    destruct (object_field _ _ _ _ P "length" Zod.number_ eq_refl)
      as (r & Pr & _); [cbn; tauto|].
    change (Js.get "length" (playlistResult platform obj owner))
      with (VNum n) in Pr.
    cbn [Zod.safeParse] in Pr. rewrite Hn in Pr. discriminate Pr. }
  split; [|split].
  - intros Hn. now rewrite Dropped.
  - intros Hu. rewrite Dropped; [reflexivity|]. unfold n. now rewrite Hu.
  - intros Hn.
    assert (T : exists p, Zod.safeParse PlaylistSchema
                            (playlistResult platform obj owner) = Some p).
    { unfold PlaylistSchema, Zod.object, playlistResult. apply object_total.
      repeat (apply List.Forall_cons;
              [cbn [fst snd Js.lookup String.eqb Ascii.eqb Bool.eqb]|]);
        [..|apply List.Forall_nil]; try (cbn [Zod.safeParse]; eauto; fail).
      - rewrite Eid. eexists. reflexivity.
      - fold n. cbn [Zod.safeParse]. rewrite Hn. eauto. }
    destruct T as (p & P). exists p. split; [now rewrite P|].
    pose proof (fun k s => object_field _ _ _ _ P k s eq_refl) as F.
    destruct (F "type" (Zod.literal_ "playlist")) as (r1 & P1 & ->); [cbn; tauto|].
    destruct (F "length" Zod.number_) as (r2 & P2 & ->); [cbn; tauto|].
    destruct (F "id" Zod.string_) as (r3 & P3 & ->); [cbn; tauto|].
    destruct (F "url" Zod.string_) as (r4 & P4 & ->); [cbn; tauto|].
    destruct (F "owner" (Zod.nullable_ AuthorSchema)) as (r5 & P5 & ->);
      [cbn; tauto|].
    change (Js.get "type" (playlistResult platform obj owner))
      with (VStr "playlist") in P1.
    change (Js.get "length" (playlistResult platform obj owner))
      with (VNum n) in P2.
    change (Js.get "id" (playlistResult platform obj owner))
      with (Js.get "playlistId" obj) in P3.
    change (Js.get "url" (playlistResult platform obj owner))
      with (VStr ("https://www.youtube.com/playlist?list="
                  ++ Js.str (Js.get "playlistId" obj))) in P4.
    change (Js.get "owner" (playlistResult platform obj owner)) with owner in P5.
    cbn in P1. cbn [Zod.safeParse] in P2. rewrite Hn in P2.
    rewrite Eid in P3 |- *. cbn in P3. cbn [Zod.safeParse] in P4.
    repeat split; congruence.
Qed.

Lemma parsePlaylist_length_witness :
  let obj := playlistRenderer "PL1" "12" in
  let n := JsNum.of_Z 12 in
  (JsNum.isNaN n = true -> parsePlaylist simplePlatform obj = Return None)
  /\ (Js.get "videoCount" obj = VUndef
      -> parsePlaylist simplePlatform obj = Return None)
  /\ (JsNum.isNaN n = false ->
      exists p,
        parsePlaylist simplePlatform obj = Return (Some p)
        /\ Js.get "type" p = VStr "playlist"
        /\ Js.get "length" p = VNum n
        /\ Js.get "id" p = Js.get "playlistId" obj
        /\ Js.get "url" p
           = VStr ("https://www.youtube.com/playlist?list="
                   ++ Js.str (Js.get "playlistId" obj))
        /\ Js.get "owner" p = VNull).
Proof.
  cbv zeta.
  apply (parsePlaylist_length simplePlatform
           (playlistRenderer "PL1" "12") (playlistRenderer "PL1" "12") VNull);
    reflexivity.
Defined.

(** ** The cache and the request context *)

Lemma buildPostContext_clientVersion (clientVersion : string)
  (opts : NormalizedOptions.t) :
  Context.clientVersion (Context.client (buildPostContext clientVersion opts))
  = clientVersion.
Proof. reflexivity. Qed.

(** X6. [saveCache] always returns, and leaves the request context and
    the cache in agreement: whenever the cache holds a client version
    afterwards, the parsed body it hands back has a context with exactly
    that client version (the page's version was cached, or the cached
    version made the context).  It removes no entry, touches no key but
    its two, and changes nothing else of the world, nor the JSON of the
    parsed body. *)
Theorem saveCache_context_agrees_with_cache (parsed : ParsedBody.t)
  (opts : NormalizedOptions.t) (w : World) :
  exists parsed' w',
    saveCache parsed opts w = (Return parsed', w')
    /\ (forall v, CACHE w' !! "clientVersion" = Some v ->
                  exists c, ParsedBody.context parsed' = Some c
                            /\ Context.clientVersion (Context.client c) = v)
    /\ (forall key, is_Some (CACHE w !! key) -> is_Some (CACHE w' !! key))
    /\ (forall key, key <> "clientVersion" -> key <> "playlistParams" ->
                    CACHE w' !! key = CACHE w !! key)
    /\ options w' = options w
    /\ network w' = network w
    /\ requests w' = requests w
    /\ ParsedBody.json parsed' = ParsedBody.json parsed.
Proof.
  unfold saveCache, bind.
  assert (S1 : exists parsed1 cache1,
             saveClientVersion parsed opts w = (Return parsed1, set_CACHE cache1 w)
             /\ ParsedBody.json parsed1 = ParsedBody.json parsed
             /\ (forall v, cache1 !! "clientVersion" = Some v ->
                   exists c, ParsedBody.context parsed1 = Some c
                             /\ Context.clientVersion (Context.client c) = v)
             /\ (forall key, is_Some (CACHE w !! key) -> is_Some (cache1 !! key))
             /\ (forall key, key <> "clientVersion" ->
                             cache1 !! key = CACHE w !! key)).
  { unfold saveClientVersion, bind, modify, ret, gets.
    destruct (nonempty _) eqn:N.
    - destruct (ParsedBody.context parsed) as [c|] eqn:C; [|discriminate N].
      exists parsed. eexists. split; [reflexivity|]. split; [reflexivity|].
      split; [|split].
      + intros v. rewrite lookup_insert_eq. intros E. injection E as <-. eauto.
      + intros key Hk. destruct (decide (key = "clientVersion")) as [->|Hne].
        * rewrite lookup_insert_eq. eauto.
        * now rewrite lookup_insert_ne by congruence.
      + intros key Hne. now rewrite lookup_insert_ne by congruence.
    - destruct (CACHE w !! "clientVersion") as [cached|] eqn:L.
      + eexists. exists (CACHE w). rewrite set_CACHE_same.
        split; [reflexivity|]. split; [reflexivity|]. split; [|split; auto].
        intros v Hv. rewrite L in Hv. injection Hv as <-.
        eexists. split; [reflexivity|]. apply buildPostContext_clientVersion.
      + exists parsed, (CACHE w). rewrite set_CACHE_same.
        split; [reflexivity|]. split; [reflexivity|]. split; [|split; auto].
        intros v Hv. rewrite L in Hv. discriminate Hv. }
  destruct S1 as (parsed1 & cache1 & -> & J & A & K & O).
  destruct (savePlaylistParams_world parsed1 (set_CACHE cache1 w))
    as (cache2 & -> & H2).
  exists parsed1. eexists. split; [reflexivity|].
  assert (C2 : CACHE (set_CACHE cache2 (set_CACHE cache1 w)) = cache2)
    by (destruct w; reflexivity).
  assert (C1 : CACHE (set_CACHE cache1 w) = cache1) by (destruct w; reflexivity).
  rewrite C2. rewrite C1 in H2.
  assert (P : forall key, key <> "playlistParams" -> cache2 !! key = cache1 !! key).
  { intros key Hne. destruct H2 as [->|(p & _ & _ & ->)]; [reflexivity|].
    now rewrite lookup_insert_ne by congruence. }
  split; [|split; [|split]].
  - intros v. rewrite P by discriminate. apply A.
  - intros key Hk. apply K in Hk.
    destruct H2 as [->|(p & _ & _ & ->)]; [exact Hk|].
    destruct (decide (key = "playlistParams")) as [->|Hne].
    + rewrite lookup_insert_eq. eauto.
    + now rewrite lookup_insert_ne by congruence.
  - intros key H1 H3. rewrite P by exact H3. now apply O.
  - destruct w; repeat split; assumption.
Qed.

(** ** What a search leaves of the caller's options *)

Lemma attempt_after_checkArgs (platform : Builtins) (searchString : string)
  (retries : nat) (retry : M Result) (w : World) (o' : SearchOptions.t)
  (opts : NormalizedOptions.t) :
  checkArgs platform searchString (options w) = (o', Return opts) ->
  attempt platform searchString retries retry w
  = attempt platform searchString retries retry (set_options o' w).
Proof.
  intros H. rewrite !attempt_unfold. rewrite H.
  destruct (checkArgs_Return platform searchString _ _ _ H) as (Hne & -> & N).
  assert (E : checkArgs platform searchString
                (options (set_options (defaultType (options w)) w))
              = (defaultType (options w), Return opts)).
  { unfold checkArgs. destruct (String.eqb_spec searchString ""); [contradiction|].
    cbn [options set_options]. rewrite defaultType_idempotent. now rewrite N. }
  rewrite E. cbv zeta.
  replace (set_options (defaultType (options w))
             (set_options (defaultType (options w)) w))
    with (set_options (defaultType (options w)) w) by (destruct w; reflexivity).
  reflexivity.
Qed.

(** X7. A search writes nothing into the caller's options object but the
    default type of [checkArgs]: after a search with at least one attempt
    and a non-empty search string the object is the caller's with its
    [type] defaulted, and otherwise it is untouched.  In particular the
    limit that the pagination counts down is the one of the normalized
    copy: the caller's [limit] is as it was. *)
Theorem ytsr_caller_options (platform : Builtins) (searchString : string)
  (retries : nat) (w : World) :
  let w' := snd (ytsr platform searchString retries w) in
  options w'
  = (if String.eqb searchString "" || Nat.eqb retries 0 then options w
     else defaultType (options w))
  /\ SearchOptions.limit (options w') = SearchOptions.limit (options w)
  /\ SearchOptions.safeSearch (options w') = SearchOptions.safeSearch (options w)
  /\ SearchOptions.requestOptions (options w')
     = SearchOptions.requestOptions (options w).
Proof.
  cbv zeta.
  assert (E : options (snd (ytsr platform searchString retries w))
              = (if String.eqb searchString "" || Nat.eqb retries 0
                 then options w else defaultType (options w))).
  { destruct retries as [|retries].
    - rewrite ytsr_0, orb_true_r. reflexivity.
    - rewrite ytsr_S, orb_false_r.
      destruct (atAttempt_frame (S retries) w) as (Eo & _).
      set (w0 := atAttempt (S retries) w) in *. rewrite <- Eo.
      destruct (checkArgs platform searchString (options w0))
        as [o' [opts|e]] eqn:C.
      + rewrite (attempt_after_checkArgs _ _ _ _ _ _ _ C).
        destruct (checkArgs_Return _ _ _ _ _ C) as (Hne & -> & _).
        apply String.eqb_neq in Hne. rewrite Hne.
        destruct (preserves_attempt platform searchString (S retries)
                    (ytsr platform searchString retries)
                    (preserves_ytsr platform searchString retries)
                    (set_options (defaultType (options w0)) w0))
          as (added & _ & _ & [O|O]); rewrite O.
        * destruct w0; reflexivity.
        * cbn [options set_options]. apply defaultType_idempotent.
      + rewrite attempt_unfold, C. cbn [snd options set_options].
        unfold checkArgs in C.
        destruct (String.eqb searchString ""); injection C as <- _; reflexivity. }
  rewrite E.
  destruct (String.eqb searchString "" || Nat.eqb retries 0); [auto|].
  destruct (defaultType_frame (options w)) as (F1 & F2 & F3 & _). auto.
Qed.

(** ** Where a search sends its requests *)

Lemma Dict_get_set (k v : string) (d : list (string * string)) :
  Dict.get k (Dict.set k v d) = Some v.
Proof.
  induction d as [|[k' v'] d IH]; simpl.
  - now rewrite String.eqb_refl.
  - destruct (String.eqb k k') eqn:E; simpl.
    + now rewrite String.eqb_refl.
    + now rewrite E.
Qed.

Lemma postInit_JSON (opts : NormalizedOptions.t) :
  RequestInit.method (postInit opts) = Some "POST"
  /\ Headers.get "Content-Type" (RequestInit.headers (postInit opts))
     = Some "application/json".
Proof.
  split; [reflexivity|].
  unfold postInit. cbn [RequestInit.headers]. unfold Headers.get, Headers.set.
  apply Dict_get_set.
Qed.

Section Emits.
Context {A B : Type} (P : request -> Prop).

Lemma emits_quiet (m : M A) :
  (forall w, requests (snd (m w)) = requests w) -> emits P m.
Proof.
  intros H w. exists []. rewrite app_nil_r. split; [apply H | constructor].
Qed.

Lemma emits_bind (m : M A) (k : A -> M B) :
  emits P m -> (forall a, emits P (k a)) -> emits P (bind m k).
Proof.
  intros Hm Hk w. unfold bind.
  destruct (Hm w) as (l1 & E1 & F1).
  destruct (m w) as [[a|e] w1]; simpl in E1.
  - destruct (Hk a w1) as (l2 & E2 & F2).
    exists (l1 ++ l2). rewrite E2, E1, app_assoc.
    split; [reflexivity | now apply Forall_app].
  - exists l1. simpl. auto.
Qed.

Lemma emits_try_catch (m : M A) (handler : exn -> M A) :
  emits P m -> (forall e, emits P (handler e)) -> emits P (try_catch m handler).
Proof.
  intros Hm Hh w. unfold try_catch.
  destruct (Hm w) as (l1 & E1 & F1).
  destruct (m w) as [[a|e] w1]; simpl in E1.
  - exists l1. simpl. auto.
  - destruct (Hh e w1) as (l2 & E2 & F2).
    exists (l1 ++ l2). rewrite E2, E1, app_assoc.
    split; [reflexivity | now apply Forall_app].
Qed.

End Emits.

Section EmitsOfSearch.
Variable platform : Builtins.
Variable searchString : string.

Let P := searchRequest searchString.

Lemma emits_doPost (init : RequestInit.t) (body : payload) :
  P (POST BASE_API_URL (Some init) body) ->
  emits P (doPost BASE_API_URL init body).
Proof.
  intros H w. exists [POST BASE_API_URL (Some init) body].
  split; [reflexivity | constructor; [exact H | constructor]].
Qed.

Lemma searchRequest_POST (opts : NormalizedOptions.t) (body : payload) :
  match body with
  | SearchPayload _ query | PlaylistPayload _ _ query => query = searchString
  | ContinuationPayload _ _ => True
  end ->
  P (POST BASE_API_URL (Some (postInit opts)) body).
Proof.
  intros H. split; [reflexivity|]. split; [|exact H].
  exists (postInit opts). split; [reflexivity | apply postInit_JSON].
Qed.

Lemma emits_saveCache (parsed : ParsedBody.t) (opts : NormalizedOptions.t) :
  emits P (saveCache parsed opts).
Proof.
  apply emits_quiet. intros w.
  destruct (saveCache_world parsed opts w) as (parsed' & cache & ->).
  destruct w; reflexivity.
Qed.

Lemma emits_fetchPage (opts : NormalizedOptions.t) :
  emits P (fetchPage platform opts).
Proof.
  intros w. rewrite fetchPage_world. exists [pageRequest opts w].
  split; [reflexivity|]. constructor; [reflexivity | constructor].
Qed.

Lemma emits_postSearch (retries : nat) (parsed : ParsedBody.t)
  (opts : NormalizedOptions.t) :
  emits P (postSearch searchString retries parsed opts).
Proof.
  unfold postSearch. destruct (NormalizedOptions.type opts).
  - destruct (_ || _); [|apply emits_quiet; reflexivity].
    apply emits_try_catch.
    + apply emits_bind.
      * apply emits_doPost, searchRequest_POST. reflexivity.
      * intros json. apply emits_quiet. reflexivity.
    + intros e. destruct (Nat.eqb retries 1); apply emits_quiet; reflexivity.
  - apply emits_bind; [apply emits_quiet; reflexivity|].
    intros cache. apply emits_bind.
    + apply emits_doPost, searchRequest_POST. reflexivity.
    + intros json. destruct (negb _); apply emits_quiet; reflexivity.
Qed.

Lemma parsePage2_on_emits (net : list reply) :
  forall log token context opts,
  exists added,
    snd (parsePage2_on platform net log token context opts) = log ++ added
    /\ Forall P added.
Proof.
  induction net as [|r net IH]; intros log token context opts.
  - rewrite parsePage2_on_nil. simpl. eexists. split; [reflexivity|].
    constructor; [apply searchRequest_POST; exact I | constructor].
  - rewrite parsePage2_on_cons. cbv zeta.
    assert (One : Forall P [continuationRequest token context opts]).
    { constructor; [apply searchRequest_POST; exact I | constructor]. }
    destruct (doPost_reply (Some r)) as [json|e]; [|simpl; eauto].
    destruct (parsePage2Response json) as [items|]; [|simpl; eauto].
    destruct (selectItems platform _ opts) as [parsedItems|]; [|simpl; eauto].
    destruct (done _ _); [simpl; eauto|].
    destruct (IH (log ++ [continuationRequest token context opts])
                (Js.str (tokenOf (continuation (parsePage2Wrapper items))))
                context (spend (length parsedItems) opts)) as (l & E & F).
    destruct (parsePage2_on platform net _ _ context _) as [[[[nested|e] o] n] lg];
      simpl in E |- *; rewrite E, <- app_assoc;
      (eexists; split; [reflexivity|]); apply Forall_app; auto.
Qed.

Lemma emits_parsePage2 (token : string) (context : option Context.t)
  (opts : NormalizedOptions.t) :
  emits P (parsePage2 platform token context opts).
Proof.
  intros w. unfold parsePage2.
  destruct (parsePage2_on_emits (network w) (requests w) token context opts)
    as (added & E & F).
  destruct (parsePage2_on platform (network w) (requests w) token context opts)
    as [[[[r|e] o] n] lg]; simpl in E; subst lg; exists added; auto.
Qed.

Lemma emits_collect (retry : M Result) (parsed : ParsedBody.t)
  (opts : NormalizedOptions.t) :
  emits P retry -> emits P (collect platform retry parsed opts).
Proof.
  intros Hretry. unfold collect.
  destruct (negb _); [exact Hretry|].
  destruct (parseSearchResponse _) as [searchResponse|]; [|exact Hretry].
  cbv zeta. apply emits_bind; [apply emits_quiet; reflexivity|].
  intros items. destruct (done _ _); [apply emits_quiet; reflexivity|].
  apply emits_bind; [apply emits_parsePage2|].
  intros nested. apply emits_quiet. reflexivity.
Qed.

Lemma emits_attempt (retries : nat) (retry : M Result) :
  emits P retry -> emits P (attempt platform searchString retries retry).
Proof.
  intros Hretry. unfold attempt.
  apply emits_bind.
  { apply emits_quiet. intros w. unfold checkArgs_options.
    destruct (checkArgs platform searchString (options w)); reflexivity. }
  intros opts. apply emits_bind; [apply emits_quiet; reflexivity|].
  intros cache. apply emits_bind.
  { destruct (shouldFetch opts cache);
      [apply emits_fetchPage | apply emits_quiet; reflexivity]. }
  intros fetched. apply emits_bind; [apply emits_saveCache|].
  intros parsed. apply emits_bind; [apply emits_postSearch|].
  intros parsed'. now apply emits_collect.
Qed.

Lemma emits_ytsr (retries : nat) : emits P (ytsr platform searchString retries).
Proof.
  assert (F : forall n, emits P (forgetOnSecondAttempt n)).
  { intros n. apply emits_quiet. intros w. unfold forgetOnSecondAttempt.
    destruct (Nat.eqb n 2); reflexivity. }
  induction retries as [|retries IH]; simpl.
  - apply emits_bind; [apply F|]. intros _. apply emits_quiet. reflexivity.
  - apply emits_bind; [apply F|]. intros _. now apply emits_attempt.
Qed.

End EmitsOfSearch.

(** X8. Whatever the network answers and however often it retries, a
    search only adds requests to the record, and only of two kinds: the
    GET of the results page [BASE_SEARCH_URL], and a POST to the search
    API [BASE_API_URL] sent with the method POST and the content type
    [application/json], whose body carries the caller's search string as
    its query (or a continuation token). *)
Theorem ytsr_requests (platform : Builtins) (searchString : string)
  (retries : nat) (w : World) :
  exists added,
    requests (snd (ytsr platform searchString retries w)) = requests w ++ added
    /\ Forall (searchRequest searchString) added.
Proof. apply emits_ytsr. Qed.

(** ** The retry loop is bounded *)

Section EmitsUpTo.
Context {A B : Type}.

Lemma emitsUpTo_quiet (m : M A) :
  (forall w, requests (snd (m w)) = requests w) -> emitsUpTo 0 0 m.
Proof.
  intros H w. exists []. rewrite app_nil_r. split; [apply H | simpl; lia].
Qed.

Lemma emitsUpTo_mono (g p g' p' : nat) (m : M A) :
  (g <= g')%nat -> (p <= p')%nat -> emitsUpTo g p m -> emitsUpTo g' p' m.
Proof.
  intros Hg Hp H w. destruct (H w) as (l & E & G & Q).
  exists l. split; [exact E | lia].
Qed.

Lemma emitsUpTo_bind (g1 p1 g2 p2 : nat) (m : M A) (k : A -> M B) :
  emitsUpTo g1 p1 m -> (forall a, emitsUpTo g2 p2 (k a)) ->
  emitsUpTo (g1 + g2) (p1 + p2) (bind m k).
Proof.
  intros Hm Hk w. unfold bind.
  destruct (Hm w) as (l1 & E1 & G1 & Q1).
  destruct (m w) as [[a|e] w1]; simpl in E1.
  - destruct (Hk a w1) as (l2 & E2 & G2 & Q2).
    exists (l1 ++ l2). rewrite E2, E1, app_assoc.
    split; [reflexivity|]. rewrite !List.filter_app, !length_app. lia.
  - exists l1. simpl. split; [exact E1 | lia].
Qed.

Lemma emitsUpTo_try_catch (g p : nat) (m : M A) (handler : exn -> M A) :
  emitsUpTo g p m -> (forall e, emitsUpTo 0 0 (handler e)) ->
  emitsUpTo g p (try_catch m handler).
Proof.
  intros Hm Hh w. unfold try_catch.
  destruct (Hm w) as (l1 & E1 & G1 & Q1).
  destruct (m w) as [[a|e] w1]; simpl in E1.
  - exists l1. simpl. auto.
  - destruct (Hh e w1) as (l2 & E2 & G2 & Q2).
    exists (l1 ++ l2). rewrite E2, E1, app_assoc.
    split; [reflexivity|]. rewrite !List.filter_app, !length_app. lia.
Qed.

End EmitsUpTo.

Section BoundedRetry.
Variable platform : Builtins.
Variable searchString : string.

Lemma emitsUpTo_postSearch (retries : nat) (parsed : ParsedBody.t)
  (opts : NormalizedOptions.t) :
  emitsUpTo 0 1 (postSearch searchString retries parsed opts).
Proof.
  assert (Post : forall body,
             is_search_POST (POST BASE_API_URL (Some (postInit opts)) body) = true ->
             emitsUpTo 0 1 (doPost BASE_API_URL (postInit opts) body)).
  { intros body H w. exists [POST BASE_API_URL (Some (postInit opts)) body].
    split; [reflexivity|]. destruct body; simpl; lia. }
  unfold postSearch. destruct (NormalizedOptions.type opts).
  - destruct (_ || _);
      [|apply (emitsUpTo_mono 0 0); [lia | lia | apply emitsUpTo_quiet; reflexivity]].
    apply emitsUpTo_try_catch.
    + apply (emitsUpTo_bind 0 1 0 0); [apply Post; reflexivity|].
      intros json. apply emitsUpTo_quiet. reflexivity.
    + intros e. destruct (Nat.eqb retries 1); apply emitsUpTo_quiet; reflexivity.
  - apply (emitsUpTo_bind 0 0 0 1); [apply emitsUpTo_quiet; reflexivity|].
    intros cache. apply (emitsUpTo_bind 0 1 0 0); [apply Post; reflexivity|].
    intros json. destruct (negb _); apply emitsUpTo_quiet; reflexivity.
Qed.

Lemma parsePage2_on_continuations (net : list reply) :
  forall log token context opts,
  exists added,
    snd (parsePage2_on platform net log token context opts) = log ++ added
    /\ List.filter is_GET added = []
    /\ List.filter is_search_POST added = [].
Proof.
  induction net as [|r net IH]; intros log token context opts.
  - rewrite parsePage2_on_nil. simpl. eexists. split; [reflexivity|]. auto.
  - rewrite parsePage2_on_cons. cbv zeta.
    destruct (doPost_reply (Some r)) as [json|e];
      [|simpl; eexists; split; [reflexivity | auto]].
    destruct (parsePage2Response json) as [items|];
      [|simpl; eexists; split; [reflexivity | auto]].
    destruct (selectItems platform _ opts) as [parsedItems|];
      [|simpl; eexists; split; [reflexivity | auto]].
    destruct (done _ _); [simpl; eexists; split; [reflexivity | auto]|].
    destruct (IH (log ++ [continuationRequest token context opts])
                (Js.str (tokenOf (continuation (parsePage2Wrapper items))))
                context (spend (length parsedItems) opts)) as (l & E & G & Q).
    destruct (parsePage2_on platform net _ _ context _) as [[[[nested|e] o] n] lg];
      simpl in E |- *; rewrite E, <- app_assoc;
      (eexists; split; [reflexivity|]);
      rewrite !List.filter_app, G, Q; auto.
Qed.

Lemma emitsUpTo_parsePage2 (token : string) (context : option Context.t)
  (opts : NormalizedOptions.t) :
  emitsUpTo 0 0 (parsePage2 platform token context opts).
Proof.
  intros w. unfold parsePage2.
  destruct (parsePage2_on_continuations (network w) (requests w) token context opts)
    as (added & E & G & Q).
  destruct (parsePage2_on platform (network w) (requests w) token context opts)
    as [[[[r|e] o] n] lg]; simpl in E; subst lg; exists added;
    rewrite G, Q; simpl; auto.
Qed.

Lemma emitsUpTo_collect (n : nat) (retry : M Result) (parsed : ParsedBody.t)
  (opts : NormalizedOptions.t) :
  emitsUpTo n n retry -> emitsUpTo n n (collect platform retry parsed opts).
Proof.
  intros Hretry. unfold collect.
  destruct (negb _); [exact Hretry|].
  destruct (parseSearchResponse _) as [searchResponse|]; [|exact Hretry].
  cbv zeta. apply (emitsUpTo_mono 0 0); [lia | lia |].
  apply (emitsUpTo_bind 0 0 0 0); [apply emitsUpTo_quiet; reflexivity|].
  intros items. destruct (done _ _); [apply emitsUpTo_quiet; reflexivity|].
  apply (emitsUpTo_bind 0 0 0 0); [apply emitsUpTo_parsePage2|].
  intros nested. apply emitsUpTo_quiet. reflexivity.
Qed.

Lemma emitsUpTo_attempt (n retries : nat) (retry : M Result) :
  emitsUpTo n n retry ->
  emitsUpTo (S n) (S n) (attempt platform searchString retries retry).
Proof.
  intros Hretry. unfold attempt.
  apply (emitsUpTo_bind 0 0 (S n) (S n)).
  { apply emitsUpTo_quiet. intros w. unfold checkArgs_options.
    destruct (checkArgs platform searchString (options w)); reflexivity. }
  intros opts.
  apply (emitsUpTo_bind 0 0 (S n) (S n)); [apply emitsUpTo_quiet; reflexivity|].
  intros cache. apply (emitsUpTo_bind 1 0 n (S n)).
  { destruct (shouldFetch opts cache).
    - intros w. rewrite fetchPage_world. exists [pageRequest opts w].
      split; [reflexivity|]. simpl. lia.
    - apply (emitsUpTo_mono 0 0); [lia | lia | apply emitsUpTo_quiet; reflexivity]. }
  intros fetched. apply (emitsUpTo_bind 0 0 n (S n)).
  { apply emitsUpTo_quiet. intros w.
    destruct (saveCache_world (fst fetched) (snd fetched) w)
      as (parsed' & cache' & ->).
    destruct w; reflexivity. }
  intros parsed. apply (emitsUpTo_bind 0 1 n n); [apply emitsUpTo_postSearch|].
  intros parsed'. now apply emitsUpTo_collect.
Qed.

Lemma emitsUpTo_ytsr (retries : nat) :
  emitsUpTo retries retries (ytsr platform searchString retries).
Proof.
  assert (F : forall n, emitsUpTo 0 0 (forgetOnSecondAttempt n)).
  { intros n. apply emitsUpTo_quiet. intros w. unfold forgetOnSecondAttempt.
    destruct (Nat.eqb n 2); reflexivity. }
  induction retries as [|retries IH]; simpl.
  - apply (emitsUpTo_bind 0 0 0 0); [apply F|].
    intros _. apply emitsUpTo_quiet. reflexivity.
  - apply (emitsUpTo_bind 0 0 (S retries) (S retries)); [apply F|].
    intros _. now apply emitsUpTo_attempt.
Qed.

End BoundedRetry.

(** X9. The retry loop is bounded by the attempt counter: a search
    started with the counter [retries] fetches the results page at most
    [retries] times and posts the search itself at most [retries] times,
    whatever the network answers; every other request it adds is the POST
    of a continuation. *)
Theorem ytsr_attempts_bounded (platform : Builtins) (searchString : string)
  (retries : nat) (w : World) :
  exists added,
    requests (snd (ytsr platform searchString retries w)) = requests w ++ added
    /\ (length (List.filter is_GET added) <= retries)%nat
    /\ (length (List.filter is_search_POST added) <= retries)%nat
    /\ Forall (fun q => is_GET q = false -> is_search_POST q = false ->
                        exists url init context token,
                          q = POST url init (ContinuationPayload context token))
              added.
Proof.
  destruct (emitsUpTo_ytsr platform searchString retries w) as (added & E & G & Q).
  exists added. repeat (split; [assumption|]).
  apply List.Forall_forall. intros [url query init|url init [c q|c p q|c t]] _;
    simpl; try discriminate. eauto.
Qed.

(** ** Text between two delimiters *)

Lemma string_app_assoc (a b c : string) :
  ((a ++ b) ++ c = a ++ (b ++ c))%string.
Proof.
  induction a as [|x a IH]; [reflexivity|].
  change (String x ((a ++ b) ++ c) = String x (a ++ (b ++ c)))%string.
  now rewrite IH.
Qed.

Lemma substring_0_all (s : string) :
  String.substring 0 (String.length s) s = s.
Proof. induction s as [|c s IH]; simpl; [reflexivity | now rewrite IH]. Qed.

(** A string is what precedes a position, the run of a given length from
    there, and what follows the run. *)
Lemma substring_cover (s : string) :
  forall m k,
    s = (String.substring 0 m s
         ++ String.substring m k s
         ++ slice_from (m + k) s)%string.
Proof.
  unfold slice_from.
  induction s as [|c s IH]; intros m k.
  - destruct m, k; reflexivity.
  - destruct m as [|m]; [destruct k as [|k]|].
    + symmetry. apply (substring_0_all (String c s)).
    + transitivity
        (String c (String.substring 0 k s
                   ++ String.substring (0 + k) (String.length s - (0 + k)) s));
        [|reflexivity].
      f_equal. rewrite (IH 0%nat k) at 1.
      now replace (String.substring 0 0 s) with "" by (destruct s; reflexivity).
    + transitivity
        (String c (String.substring 0 m s
                   ++ String.substring m k s
                   ++ String.substring (m + k) (String.length s - (m + k)) s));
        [now rewrite <- IH | reflexivity].
Qed.

Lemma index_decompose (sub s : string) (pos : nat) :
  String.index 0 sub s = Some pos ->
  s = (String.substring 0 pos s ++ sub
       ++ slice_from (pos + String.length sub) s)%string.
Proof.
  intros H. apply index_correct1 in H.
  pose proof (substring_cover s pos (String.length sub)) as C.
  now rewrite H in C.
Qed.

Lemma index_le (sub s : string) :
  forall n pos, String.index n sub s = Some pos -> (pos <= String.length s)%nat.
Proof.
  induction s as [|c s IH]; intros n pos; cbn [String.index String.length].
  - destruct n; [|discriminate]. destruct sub; [|discriminate].
    intros E. injection E as <-. lia.
  - destruct n as [|n].
    + destruct (String.prefix sub (String c s)).
      * intros E. injection E as <-. lia.
      * destruct (String.index 0 sub s) as [m|] eqn:E; [|discriminate].
        intros H. injection H as <-. apply IH in E. lia.
    + destruct (String.index n sub s) as [m|] eqn:E; [|discriminate].
      intros H. injection H as <-. apply IH in E. lia.
Qed.

Lemma length_substring_0 (s : string) :
  forall pos, (pos <= String.length s)%nat ->
              String.length (String.substring 0 pos s) = pos.
Proof.
  induction s as [|c s IH]; intros [|pos] B; simpl in *;
    try reflexivity; try lia.
  f_equal. apply IH. lia.
Qed.

(** X10. [between] is sound: a non-empty result stands in the haystack
    between the two delimiters, right after the first occurrence of
    [left] and right before the first occurrence of [right] that follows
    it.  When [left] does not occur in the haystack the result is
    empty. *)
Theorem between_sound (haystack left right : string) :
  (between haystack left right <> "" ->
   exists before after,
     haystack
     = (before ++ left ++ between haystack left right ++ right ++ after)%string
     /\ String.index 0 left haystack = Some (String.length before))
  /\ (includes left haystack = false -> between haystack left right = "").
Proof.
  unfold between, includes. split.
  - destruct (String.index 0 left haystack) as [pos|] eqn:L; [|congruence].
    cbv zeta.
    destruct (String.index 0 right (slice_from (pos + String.length left) haystack))
      as [pos2|] eqn:R; [|congruence].
    intros _.
    pose proof (index_decompose _ _ _ L) as D1.
    pose proof (index_decompose _ _ _ R) as D2.
    set (rest := slice_from (pos + String.length left) haystack) in *.
    exists (String.substring 0 pos haystack),
           (slice_from (pos2 + String.length right) rest).
    split.
    + rewrite <- D2. exact D1.
    + f_equal. symmetry. apply length_substring_0. eapply index_le, L.
  - destruct (String.index 0 left haystack); [discriminate | reflexivity].
Qed.

(** The text between the first [<] and the [>] after it. *)
Lemma between_sound_witness :
  between "a<b>c>d" "<" ">" = "b"
  /\ exists before after,
       "a<b>c>d"
       = (before ++ "<" ++ between "a<b>c>d" "<" ">" ++ ">" ++ after)%string
       /\ String.index 0 "<" "a<b>c>d" = Some (String.length before).
Proof.
  split; [reflexivity|].
  apply (proj1 (between_sound "a<b>c>d" "<" ">")). discriminate.
Defined.

(** ** [betweenFromRight] *)

Lemma lastIndexOf_correct (sub s : string) :
  forall pos, lastIndexOf sub s = Some pos ->
              String.substring pos (String.length sub) s = sub.
Proof.
  induction s as [|c s IH]; intros pos; cbn [lastIndexOf].
  - destruct (String.prefix sub "") eqn:P; [|discriminate].
    intros E. injection E as <-. now apply prefix_correct.
  - destruct (lastIndexOf sub s) as [m|].
    + intros E. injection E as <-. cbn [String.substring]. now apply IH.
    + destruct (String.prefix sub (String c s)) eqn:P; [|discriminate].
      intros E. injection E as <-. now apply prefix_correct.
Qed.

(** X11. [betweenFromRight] is sound: a non-empty result stands in the
    haystack between the two delimiters, right before the first
    occurrence of [right] and right after the last occurrence of [left]
    that ends before it.  When [right] does not occur in the haystack
    the result is empty. *)
Theorem betweenFromRight_sound (haystack left right : string) :
  (betweenFromRight haystack left right <> "" ->
   exists before after,
     haystack
     = (before ++ left ++ betweenFromRight haystack left right
        ++ right ++ after)%string
     /\ String.index 0 right haystack
        = Some (String.length
                  (before ++ left ++ betweenFromRight haystack left right)))
  /\ (includes right haystack = false ->
      betweenFromRight haystack left right = "").
Proof.
  unfold betweenFromRight, includes. split.
  - destruct (String.index 0 right haystack) as [pos|] eqn:R; [|congruence].
    cbv zeta.
    destruct (lastIndexOf left (String.substring 0 pos haystack))
      as [pos2|] eqn:L; [|congruence].
    intros _.
    pose proof (index_decompose _ _ _ R) as D1.
    set (head := String.substring 0 pos haystack) in *.
    assert (D2 : head = (String.substring 0 pos2 head ++ left
                         ++ slice_from (pos2 + String.length left) head)%string).
    { pose proof (substring_cover head pos2 (String.length left)) as C.
      now rewrite (lastIndexOf_correct _ _ _ L) in C. }
    exists (String.substring 0 pos2 head),
           (slice_from (pos + String.length right) haystack).
    split.
    + rewrite <- !string_app_assoc.
      rewrite (string_app_assoc (String.substring 0 pos2 head)).
      rewrite <- D2. rewrite string_app_assoc. exact D1.
    + rewrite <- D2. f_equal. unfold head. symmetry.
      apply length_substring_0. eapply index_le, R.
  - destruct (String.index 0 right haystack); [discriminate | reflexivity].
Qed.

Example between_and_betweenFromRight :
  between "a[b[c]d]e" "[" "]" = "b[c"
  /\ betweenFromRight "a[b[c]d]e" "[" "]" = "c"
  /\ between "abc" "[" "]" = ""
  /\ betweenFromRight "a[bc" "[" "]" = "".
Proof. repeat split. Qed.

(** The text between the first [>] and the last [<] before it. *)
Lemma betweenFromRight_sound_witness :
  betweenFromRight "a<b<c>d" "<" ">" = "c"
  /\ exists before after,
       "a<b<c>d"
       = (before ++ "<" ++ betweenFromRight "a<b<c>d" "<" ">"
          ++ ">" ++ after)%string
       /\ String.index 0 ">" "a<b<c>d"
          = Some (String.length
                    (before ++ "<" ++ betweenFromRight "a<b<c>d" "<" ">")).
Proof.
  split; [reflexivity|].
  apply (proj1 (betweenFromRight_sound "a<b<c>d" "<" ">")). discriminate.
Defined.

(** ** What [checkArgs] makes of a plain search string *)

Lemma substring_after (a t : string) (k : nat) :
  String.substring (String.length a) k (a ++ t) = String.substring 0 k t.
Proof.
  induction a as [|c a IH]; [reflexivity|].
  change (String.substring (String.length a) k (a ++ t) = String.substring 0 k t).
  exact IH.
Qed.

Lemma substring_prefix (sub b : string) :
  String.substring 0 (String.length sub) (sub ++ b) = sub.
Proof.
  induction sub as [|c sub IH]; [destruct b; reflexivity|].
  change (String c (String.substring 0 (String.length sub) (sub ++ b))
          = String c sub).
  now rewrite IH.
Qed.

(** A string includes what it was made of. *)
Lemma includes_app (sub a b : string) :
  sub <> "" -> includes sub (a ++ sub ++ b) = true.
Proof.
  intros Hne. unfold includes.
  destruct (String.index 0 sub (a ++ sub ++ b)) eqn:E; [reflexivity|].
  exfalso.
  apply (index_correct3 0 (String.length a) _ _ E Hne); [lia|].
  rewrite substring_after. apply substring_prefix.
Qed.

Lemma withConsentCookie_sent (headers : Headers.t) :
  exists c, Headers.get "cookie" (withConsentCookie headers) = Some c
            /\ includes "SOCS=" c = true.
Proof.
  unfold withConsentCookie.
  assert (Set_ : forall v, includes "SOCS=" v = true ->
             exists c, Headers.get "cookie" (Headers.set "cookie" v headers) = Some c
                       /\ includes "SOCS=" c = true).
  { intros v Hv. exists v. split; [apply Dict_get_set | exact Hv]. }
  assert (Same : Headers.get "Cookie" headers = Headers.get "cookie" headers)
    by reflexivity.
  rewrite Same.
  assert (Own : forall c, Headers.get "cookie" headers = Some c ->
             exists c', Headers.get "cookie"
                          (if negb (nonempty c)
                           then Headers.set "cookie" CONSENT_COOKIE headers
                           else if negb (includes "SOCS=" c)
                           then Headers.set "cookie" (c ++ "; " ++ CONSENT_COOKIE)
                                  headers
                           else headers) = Some c'
                        /\ includes "SOCS=" c' = true).
  { intros c Hc. destruct (negb (nonempty c)); [apply Set_; reflexivity|].
    destruct (includes "SOCS=" c) eqn:I; cbn [negb].
    - exists c. auto.
    - apply Set_.
      change (c ++ "; " ++ CONSENT_COOKIE)%string
        with (c ++ "; " ++ "SOCS=" ++ "CAI")%string.
      rewrite <- string_app_assoc. now apply includes_app. }
  destruct (Headers.get "cookie" headers) as [c|] eqn:G.
  - destruct (nonempty c); now apply Own.
  - apply Set_. reflexivity.
Qed.

(** X12. For a search string that is no link to the platform (it does
    not start with the base URL), that resolves as a URL input, and for
    options whose UTC offset is not NaN: when the caller's request
    headers hold a name or a value that [new Headers] refuses, [checkArgs]
    throws a [TypeError]; otherwise it returns normalized options with:
    the string itself as the search term and as the [search_query] of the
    query; the caller's language and country in the query when they are
    non-empty strings, else ['en'] and ['US']; the caller's type when it is
    ['video'] or ['playlist'], else ['video']; and request headers with a
    cookie that holds the consent cookie [SOCS=]. *)
Theorem checkArgs_plain_search (platform : Builtins) (searchString : string)
  (o : SearchOptions.t) (u : URL) :
  searchString <> "" ->
  String.prefix BASE_URL searchString = false ->
  URL_new platform searchString BASE_URL = Some u ->
  SearchOptions.utcOffsetMinutes o <> Some NaN ->
  match
    Headers.new
      (RequestInit.headers
         match SearchOptions.requestOptions o with
         | Some r => r
         | None => RequestInit.empty
         end)
  with
  | None => snd (checkArgs platform searchString o) = Throw TypeError
  | Some _ =>
      exists opts,
        snd (checkArgs platform searchString o) = Return opts
        /\ NormalizedOptions.search opts = searchString
        /\ Dict.get "search_query" (NormalizedOptions.query opts)
           = Some searchString
        /\ Dict.get "gl" (NormalizedOptions.query opts)
           = Some (match SearchOptions.gl o with
                   | Some g => if nonempty g then g else "US"
                   | None => "US"
                   end)
        /\ Dict.get "hl" (NormalizedOptions.query opts)
           = Some (match SearchOptions.hl o with
                   | Some h => if nonempty h then h else "en"
                   | None => "en"
                   end)
        /\ NormalizedOptions.type opts
           = match SearchType_of_value (SearchOptions.type o) with
             | Some t => t
             | None => video
             end
        /\ exists init c,
             NormalizedOptions.requestOptions opts = Some init
             /\ Headers.get "cookie" (RequestInit.headers init) = Some c
             /\ includes "SOCS=" c = true
  end.
Proof.
  intros Hne Hp Hu Hutc. unfold checkArgs.
  destruct (String.eqb_spec searchString ""); [contradiction|].
  cbn [snd]. unfold normalizeOptions.
  destruct (defaultType_frame o) as (_ & _ & Fr & Fh & Fg & Fu).
  rewrite Fr, Fh, Fg, Fu.
  destruct (Headers.new _) as [headers|]; [|reflexivity].
  rewrite Hu, Hp. cbn [andb].
  cbn [Dict.get String.eqb Ascii.eqb Bool.eqb].
  assert (T : match SearchType_of_value (SearchOptions.type (defaultType o)) with
              | Some t => t
              | None => video
              end
              = match SearchType_of_value (SearchOptions.type o) with
                | Some t => t
                | None => video
                end).
  { unfold defaultType.
    destruct (SearchType_of_value (SearchOptions.type o)) eqn:E;
      [now rewrite E | reflexivity]. }
  rewrite T.
  destruct (withConsentCookie_sent headers) as (c & Gc & Ic).
  destruct (SearchOptions.utcOffsetMinutes o) as [[| | |]|];
    try contradiction;
    (eexists; split; [reflexivity|]);
    cbn [NormalizedOptions.search NormalizedOptions.query NormalizedOptions.type
         NormalizedOptions.requestOptions];
    (split; [reflexivity|]);
    (repeat split;
     [ destruct (SearchOptions.gl o) as [g|]; [destruct (nonempty g)|];
       destruct (SearchOptions.hl o) as [h|]; try destruct (nonempty h);
       reflexivity ..
     | eexists; eexists; split; [reflexivity|]; split; [exact Gc | exact Ic] ]).
Qed.

(** A plain search of that caller. *)
Lemma checkArgs_plain_search_witness :
  exists opts,
    snd (checkArgs simplePlatform "lofi beats" cookieCaller) = Return opts
    /\ NormalizedOptions.search opts = "lofi beats"
    /\ Dict.get "search_query" (NormalizedOptions.query opts) = Some "lofi beats"
    /\ Dict.get "gl" (NormalizedOptions.query opts) = Some "US"
    /\ Dict.get "hl" (NormalizedOptions.query opts) = Some "de"
    /\ NormalizedOptions.type opts = video
    /\ exists init c,
         NormalizedOptions.requestOptions opts = Some init
         /\ Headers.get "cookie" (RequestInit.headers init) = Some c
         /\ includes "SOCS=" c = true.
Proof.
  apply (checkArgs_plain_search simplePlatform "lofi beats" cookieCaller
           (mkURL (BASE_URL ++ "lofi beats") ("/" ++ "lofi beats") [])).
  - discriminate.
  - reflexivity.
  - reflexivity.
  - discriminate.
Defined.

(** The cookie that is sent for that caller, and a header name with a
    space in it. *)
Example checkArgs_headers :
  option_map
    (fun init => Headers.get "cookie" (RequestInit.headers init))
    match snd (checkArgs simplePlatform "lofi beats" cookieCaller) with
    | Return opts => NormalizedOptions.requestOptions opts
    | Throw _ => None
    end
  = Some (Some "PREF=f6=8; SOCS=CAI")
  /\ snd (checkArgs simplePlatform "lofi beats"
            (SearchOptions.mk None None None None None VUndef
               (Some (RequestInit.mk [("bad name", "x")] None None None []))))
     = Throw TypeError.
Proof. split; reflexivity. Qed.

(** ** Texts and the numbers in them *)

Lemma runs_parse (runs : list value) (texts : list string) :
  Forall2 (fun r t => Js.get "text" r = VStr t) runs texts ->
  Zod.traverse (Zod.safeParse (Zod.object [("text", Zod.string_)])) runs
  = Some (map (fun t => VObj [("text", VStr t)]) texts).
Proof.
  induction 1 as [|r t runs texts Hr Hrest IH]; [reflexivity|].
  cbn [Zod.traverse map]. rewrite IH.
  destruct r as [| | | | | |fs]; try discriminate Hr.
  rewrite single_key_schema_on. cbn [Js.get] in Hr. rewrite Hr.
  cbn [Zod.safeParse Zod.is_undef negb]. now rewrite orb_true_r.
Qed.

Lemma concat_run_texts (texts : list string) :
  String.concat ""
    (map (fun a => Js.str (Js.get "text" a))
         (map (fun t => VObj [("text", VStr t)]) texts))
  = String.concat "" texts.
Proof.
  rewrite map_map. f_equal.
  induction texts as [|t texts IH]; [reflexivity|]. cbn [map]. now rewrite IH.
Qed.

Lemma parseText_simpleText (fs : list (string * value)) (s : string) :
  Js.lookup "simpleText" fs = VStr s -> parseText (VObj fs) = s.
Proof.
  intros H. unfold parseText, YouTubeTextSchema.
  cbn [Zod.safeParse Zod.firstValid].
  rewrite single_key_schema_on, H.
  cbn [Zod.safeParse Zod.is_undef negb]. rewrite orb_true_r. reflexivity.
Qed.

Lemma parseText_runs (fs : list (string * value)) (runs : list value)
  (texts : list string) :
  Js.is_string (Js.lookup "simpleText" fs) = false ->
  Js.lookup "runs" fs = VArr runs ->
  Forall2 (fun r t => Js.get "text" r = VStr t) runs texts ->
  parseText (VObj fs) = String.concat "" texts.
Proof.
  intros Hs Hr Ht. unfold parseText, YouTubeTextSchema.
  cbn [Zod.safeParse Zod.firstValid].
  rewrite !single_key_schema_on, Hr.
  assert (N : Zod.safeParse Zod.string_ (Js.lookup "simpleText" fs) = None).
  { destruct (Js.lookup "simpleText" fs); try reflexivity. discriminate Hs. }
  rewrite N.
  change (Zod.safeParse (Zod.array_ (Zod.object [("text", Zod.string_)]))
            (VArr runs))
    with (match Zod.traverse
                  (Zod.safeParse (Zod.object [("text", Zod.string_)])) runs with
          | Some l' => Some (VArr l')
          | None => None
          end).
  rewrite (runs_parse runs texts Ht).
  cbn [Zod.is_undef negb]. rewrite orb_true_r.
  cbn [Js.has_key Js.has String.eqb Ascii.eqb Bool.eqb Js.get Js.lookup
       Js.elements].
  apply concat_run_texts.
Qed.

Lemma parseText_no_text (x : value) :
  Js.get "simpleText" x = VUndef -> Js.get "runs" x = VUndef ->
  parseText x = "".
Proof.
  intros Hs Hr. unfold parseText, YouTubeTextSchema.
  destruct x as [| | | | | |fs]; try reflexivity.
  cbn [Zod.safeParse Zod.firstValid]. cbn [Js.get] in Hs, Hr.
  rewrite !single_key_schema_on, Hs, Hr. reflexivity.
Qed.

(** X13. [parseText] reads a text object: a string [simpleText] is the
    text, whatever else the object holds; without one, the texts of the
    [runs] are joined in order; and what is no text object (no object, or
    an object with neither) reads as the empty string. *)
Theorem parseText_cases :
  (forall fs s, Js.lookup "simpleText" fs = VStr s -> parseText (VObj fs) = s)
  /\ (forall fs runs texts,
        Js.is_string (Js.lookup "simpleText" fs) = false ->
        Js.lookup "runs" fs = VArr runs ->
        Forall2 (fun r t => Js.get "text" r = VStr t) runs texts ->
        parseText (VObj fs) = String.concat "" texts)
  /\ (forall x, Js.get "simpleText" x = VUndef -> Js.get "runs" x = VUndef ->
                parseText x = "").
Proof.
  split; [exact parseText_simpleText|].
  split; [exact parseText_runs | exact parseText_no_text].
Qed.

(** X14. [parseIntegerFromText] on anything but a string gives a number
    that is not negative, never NaN.  On a text object with a string
    [simpleText] it gives the number that the digits of the text spell
    (for up to 15 digits, which a double holds exactly), 0 when the text
    has no digit; [null] and [undefined] give 0; and a string that is a
    run of up to 15 digits reads as that number. *)
Theorem parseIntegerFromText_digits (platform : Builtins) :
  (forall x, Js.is_string x = false ->
             JsNum.leb (JsNum.of_Z 0) (parseIntegerFromText platform x) = true)
  /\ (forall fs s, Js.lookup "simpleText" fs = VStr s ->
                   (String.length (remove_non_digits s) <= 15)%nat ->
                   parseIntegerFromText platform (VObj fs)
                   = JsNum.of_Z (digits_value 0 (remove_non_digits s)))
  /\ parseIntegerFromText platform VNull = JsNum.of_Z 0
  /\ parseIntegerFromText platform VUndef = JsNum.of_Z 0
  /\ (forall s, all_digits s = true -> (String.length s <= 15)%nat ->
                parseIntegerFromText platform (VStr s)
                = JsNum.of_Z (digits_value 0 s)).
Proof.
  assert (G : forall x, Js.is_string x = false ->
                parseIntegerFromText platform x
                = Number_of_string platform (remove_non_digits (parseText x))).
  { intros x Hx. unfold parseIntegerFromText.
    destruct x; try discriminate Hx; reflexivity. }
  split; [|split; [|split; [|split]]].
  - intros x Hx. rewrite G by exact Hx. apply Number_of_digits.
  - intros fs s H L. rewrite G by reflexivity.
    rewrite (parseText_simpleText fs s H).
    apply Number_of_few_digits; [apply all_digits_remove_non_digits | exact L].
  - reflexivity.
  - reflexivity.
  - intros s H L. now apply Number_of_few_digits.
Qed.

(** A view count and a text without digits. *)
Lemma parseIntegerFromText_digits_witness :
  parseIntegerFromText simplePlatform (VObj [("simpleText", VStr "1,234 views")])
  = JsNum.of_Z 1234
  /\ JsNum.leb (JsNum.of_Z 0)
       (parseIntegerFromText simplePlatform
          (VObj [("simpleText", VStr "No views")]))
     = true.
Proof.
  split.
  - apply (proj1 (proj2 (parseIntegerFromText_digits simplePlatform))
             [("simpleText", VStr "1,234 views")] "1,234 views");
      [reflexivity | vm_compute; lia].
  - apply (proj1 (parseIntegerFromText_digits simplePlatform)). reflexivity.
Defined.

Example parseIntegerFromText_examples :
  parseIntegerFromText simplePlatform (VObj [("simpleText", VStr "1,234 views")])
  = JsNum.of_Z 1234
  /\ parseIntegerFromText simplePlatform (VObj [("simpleText", VStr "No views")])
     = JsNum.of_Z 0
  /\ parseText (VObj [("runs", VArr [VObj [("text", VStr "12 ")];
                                     VObj [("text", VStr "videos")]])])
     = "12 videos".
Proof. repeat split. Qed.

(** A text object with a simple text, and one with runs. *)
Lemma parseText_cases_witness :
  parseText (VObj [("simpleText", VStr "a title"); ("runs", VArr [])])
  = "a title"
  /\ parseText (VObj [("runs", VArr [VObj [("text", VStr "12 ")];
                                     VObj [("text", VStr "videos")]])])
     = String.concat "" ["12 "; "videos"].
Proof.
  split.
  - apply (proj1 parseText_cases). reflexivity.
  - apply (proj1 (proj2 parseText_cases) _
             [VObj [("text", VStr "12 ")]; VObj [("text", VStr "videos")]]);
      [reflexivity | reflexivity | repeat constructor].
Defined.

(** ** The unwrapper of the first page, off its main path *)

Lemma traverse_fails {A B : Type} (f : A -> option B) (l1 l2 : list A) (x : A) :
  f x = None -> Zod.traverse f (l1 ++ x :: l2) = None.
Proof.
  intros H. induction l1 as [|y l1 IH]; simpl.
  - now rewrite H.
  - destruct (f y); [now rewrite IH | reflexivity].
Qed.

Lemma rendererItem_non_object (x : value) :
  (forall fs, x <> VObj fs) ->
  Zod.safeParse YouTubeRendererItemSchema x = None.
Proof.
  intros H. destruct x; try reflexivity. now destruct (H fields).
Qed.

(** X15. One element of the section list that is no object (a string, a
    number, [null], an array) makes [parseWrapper] return nothing at all,
    neither the items of the item section nor the continuation: the schema
    of the whole list fails.  ([parsePage2Wrapper] skips such an element
    and goes on.) *)
Theorem parseWrapper_non_object_element (doc : value)
  (before after : list value) (x : value) :
  hasSectionList (before ++ x :: after) doc ->
  (forall fs, x <> VObj fs) ->
  lacks "richGridRenderer" doc ->
  parseWrapper doc = mkWrapper [] None
  /\ parsePage2Wrapper (before ++ x :: after)
     = parsePage2Wrapper (before ++ after).
Proof.
  intros H Hx Hg. split.
  - unfold parseWrapper.
    assert (E : Zod.safeParse YouTubePrimaryContentsSchema doc = None).
    { unfold hasSectionList in H.
      destruct doc as [| | | | | |fs]; try discriminate H.
      unfold YouTubePrimaryContentsSchema. cbn [Zod.safeParse Zod.firstValid].
      unfold lacks in Hg. cbn [Js.has_key] in Hg.
      rewrite (single_key_schema_without "richGridRenderer" _ fs Hg)
        by (intros v; discriminate).
      rewrite single_key_schema_on.
      cbn [Js.get] in H.
      destruct (Js.lookup "sectionListRenderer" fs) as [| | | | | |gs];
        try discriminate H.
      rewrite single_key_schema_on. cbn [Js.get] in H. rewrite H.
      cbn [Zod.safeParse].
      now rewrite (traverse_fails _ before after x
                     (rendererItem_non_object x Hx)). }
    now rewrite E.
  - unfold parsePage2Wrapper. rewrite !fold_left_app. cbn [fold_left].
    unfold parsePage2Wrapper_step at 2.
    now rewrite (rendererItem_non_object x Hx).
Qed.

(** A first page whose section list holds a stray string beside its item
    section. *)
Lemma parseWrapper_non_object_element_witness :
  let contents := [itemSection [videoRenderer "a"]; VStr "stray";
                   continuationItem "tok"] in
  parseWrapper (primaryContentsOf contents) = mkWrapper [] None
  /\ parsePage2Wrapper contents
     = parsePage2Wrapper [itemSection [videoRenderer "a"]; continuationItem "tok"].
Proof.
  cbv zeta.
  apply (parseWrapper_non_object_element
           (primaryContentsOf [itemSection [videoRenderer "a"]; VStr "stray";
                               continuationItem "tok"])
           [itemSection [videoRenderer "a"]] [continuationItem "tok"]
           (VStr "stray")).
  - reflexivity.
  - intros fs. discriminate.
  - reflexivity.
Defined.

(** ** Rich grids *)

Lemma holdsContent_object (e c : value) : holdsContent e c -> is_object e.
Proof.
  intros (H & (fs & ->) & _). destruct e; try discriminate H. eexists; eauto.
Qed.

Lemma holdsContent_parsed (e c : value) :
  holdsContent e c -> parsedElement e = richItem c.
Proof.
  intros (H & (cs & ->) & L1 & L2).
  destruct e as [| | | | | |fs]; try discriminate H.
  unfold parsedElement, YouTubeRendererItemSchema.
  cbn [Zod.safeParse Zod.firstValid].
  unfold lacks in L1. cbn [Js.has_key] in L1.
  unfold YouTubeItemSectionRendererSchema.
  rewrite (single_key_schema_without "itemSectionRenderer" _ fs L1)
    by (intros v; discriminate).
  unfold YouTubeRichItemRendererSchema. rewrite single_key_schema_on.
  cbn [Js.get] in H.
  destruct (Js.lookup "richItemRenderer" fs) as [| | | | | |gs];
    try discriminate H.
  rewrite single_key_schema_on. cbn [Js.get] in H. rewrite H.
  rewrite record_unknown_on. cbn [Zod.is_undef negb]. rewrite !orb_true_r.
  reflexivity.
Qed.

Lemma richContent_richItem (c : value) :
  is_object c -> richContent (richItem c) = Some c.
Proof.
  intros (cs & ->). unfold richContent, richItem.
  cbn [Js.has_key Js.has String.eqb Ascii.eqb Bool.eqb].
  unfold YouTubeRichItemRendererSchema. rewrite single_key_schema_on.
  cbn [Js.lookup String.eqb Ascii.eqb Bool.eqb].
  rewrite single_key_schema_on.
  cbn [Js.lookup String.eqb Ascii.eqb Bool.eqb].
  rewrite record_unknown_on. reflexivity.
Qed.

Lemma richGrid_parsed (contents : list value) (doc : value) :
  hasRichGrid contents doc ->
  lacks "sectionListRenderer" doc ->
  Forall is_object contents ->
  Zod.safeParse YouTubePrimaryContentsSchema doc
  = Some (VObj [("richGridRenderer",
                 VObj [("contents", VArr (map parsedElement contents))])]).
Proof.
  unfold hasRichGrid. intros H L F.
  destruct doc as [| | | | | |fs]; try discriminate H.
  unfold YouTubePrimaryContentsSchema. cbn [Zod.safeParse Zod.firstValid].
  unfold lacks in L. cbn [Js.has_key] in L.
  rewrite (single_key_schema_without "sectionListRenderer" _ fs L)
    by (intros v; discriminate).
  rewrite single_key_schema_on. cbn [Js.get] in H.
  destruct (Js.lookup "richGridRenderer" fs) as [| | | | | |gs];
    try discriminate H.
  rewrite single_key_schema_on. cbn [Js.get] in H. rewrite H.
  cbn [Zod.safeParse]. rewrite (section_list_parsed contents F).
  cbn [Zod.is_undef negb]. rewrite !orb_true_r. reflexivity.
Qed.

Lemma richItems_unwrapped (items cs : list value) :
  Forall2 holdsContent items cs ->
  map parsedElement items = map richItem cs
  /\ Forall is_object items
  /\ Forall is_object cs.
Proof.
  induction 1 as [|e c items cs H Hrest (IH & Fi & Fc)]; [auto|].
  cbn [map]. rewrite IH, (holdsContent_parsed e c H).
  split; [reflexivity|]. split; constructor; auto.
  - eapply holdsContent_object, H.
  - apply H.
Qed.

Lemma richItems_kept (cs tail : list value) :
  Forall is_object cs ->
  filter_map richContent
    (List.filter (fun x => negb (Js.has_key "continuationItemRenderer" x))
       (map richItem cs ++ tail))
  = cs ++ filter_map richContent
            (List.filter (fun x => negb (Js.has_key "continuationItemRenderer" x))
               tail).
Proof.
  induction 1 as [|c cs Hc Hcs IH]; [reflexivity|].
  cbn [map app List.filter].
  change (Js.has_key "continuationItemRenderer" (richItem c)) with false.
  cbn [negb filter_map]. now rewrite (richContent_richItem c Hc), IH.
Qed.

(** X16. The grid branch of [parseWrapper]: when the primary contents
    are a rich grid whose elements are rich-item wrappers around objects,
    the raw items are exactly these objects, in order; a well-formed
    continuation wrapper that ends the grid is the continuation and adds
    no item, and without it the continuation is null. *)
Theorem parseWrapper_richGrid (doc : value) (items cs tail : list value) :
  hasRichGrid (items ++ tail) doc ->
  lacks "sectionListRenderer" doc ->
  Forall2 holdsContent items cs ->
  (tail = [] -> parseWrapper doc = mkWrapper cs None)
  /\ (forall cont token,
        tail = [cont] -> carriesToken token cont ->
        parseWrapper doc = mkWrapper cs (Some (continuationItem token))).
Proof.
  intros Hdoc L Hitems.
  destruct (richItems_unwrapped items cs Hitems) as (Pitems & Fi & Fc).
  assert (NoCont : Forall (fun y => Js.has_key "continuationItemRenderer" y = false)
                     (map richItem cs)).
  { apply List.Forall_forall. intros y Hy.
    apply in_map_iff in Hy as (c & <- & _). reflexivity. }
  assert (W : forall tail',
             Forall is_object tail' -> tail = tail' ->
             parseWrapper doc
             = mkWrapper
                 (cs ++ filter_map richContent
                          (List.filter
                             (fun x => negb (Js.has_key "continuationItemRenderer" x))
                             (map parsedElement tail')))
                 (findContinuation (map richItem cs ++ map parsedElement tail'))).
  { intros tail' Ft ->. unfold parseWrapper.
    rewrite (richGrid_parsed (items ++ tail') doc Hdoc L)
      by (apply Forall_app; auto).
    cbn [Js.has_key Js.has String.eqb Ascii.eqb Bool.eqb Js.get Js.lookup
         Js.elements].
    rewrite map_app, Pitems. now rewrite (richItems_kept cs _ Fc). }
  split.
  - intros T. rewrite (W [] (List.Forall_nil _) T).
    cbn [map List.filter filter_map]. rewrite !app_nil_r.
    unfold findContinuation, Js.find.
    now rewrite (find_nowhere _ _ NoCont).
  - intros cont token T Hc.
    destruct (carriesToken_parsed token cont Hc) as (c & Pc & Vc).
    assert (Oc : is_object cont).
    { destruct Hc as (Tk & _). destruct cont; try discriminate Tk.
      eexists; eauto. }
    assert (Ec : parsedElement cont = VObj [("continuationItemRenderer", c)]).
    { unfold parsedElement. now rewrite Pc. }
    rewrite (W [cont] (List.Forall_cons _ _ _ Oc (List.Forall_nil _)) T).
    cbn [map]. rewrite Ec.
    cbn [List.filter Js.has_key Js.has String.eqb Ascii.eqb Bool.eqb negb
         filter_map].
    rewrite app_nil_r. f_equal.
    unfold findContinuation, Js.find.
    rewrite (find_first _ _ [] _ NoCont) by reflexivity.
    cbn [Js.truthy]. exact Vc.
Qed.

Lemma parseWrapper_richGrid_witness :
  let doc contents :=
    VObj [("richGridRenderer", VObj [("contents", VArr contents)])] in
  let items := [richItem (videoRenderer "a"); richItem (videoRenderer "b")] in
  let cs := [videoRenderer "a"; videoRenderer "b"] in
  parseWrapper (doc (items ++ [richContinuationItem "tok"]))
  = mkWrapper cs (Some (continuationItem "tok")).
Proof.
  cbv zeta.
  refine (proj2 (parseWrapper_richGrid _
                   [richItem (videoRenderer "a"); richItem (videoRenderer "b")]
                   [videoRenderer "a"; videoRenderer "b"]
                   [richContinuationItem "tok"] _ _ _)
            (richContinuationItem "tok") "tok" eq_refl _).
  - reflexivity.
  - reflexivity.
  - repeat constructor; eexists; reflexivity.
  - repeat split.
Defined.

(** ** The playlist parameter of a page *)

(** X17. [getPlaylistParams] takes the parameter of the third filter of
    the second filter group of the page's search header, and nothing
    when the header has fewer than two groups or that group fewer than
    three filters. *)
Theorem getPlaylistParams_third_filter (parsed : ParsedBody.t)
  (gs : list (list string)) :
  ParsedBodySchema_accepts parsed = true ->
  Zod.safeParse YouTubeSearchHeaderSchema (ParsedBody.json parsed)
  = Some (searchHeader gs) ->
  getPlaylistParams parsed
  = match nth_error gs 1 with
    | Some ps => nth_error ps 2
    | None => None
    end.
Proof.
  intros Ha H. unfold getPlaylistParams. rewrite Ha.
  assert (T : Js.truthy (ParsedBody.json parsed) = true).
  { destruct (ParsedBody.json parsed); try discriminate H; reflexivity. }
  rewrite T, H. cbn [negb orb].
  cbn [searchHeader nested Js.get Js.lookup String.eqb Ascii.eqb Bool.eqb
       Js.elements].
  destruct gs as [|g0 [|g1 gs]]; try reflexivity.
  cbn [map length Nat.ltb Nat.leb nth nth_error filterGroup nested Js.truthy negb
       Js.get Js.lookup String.eqb Ascii.eqb Bool.eqb Js.elements].
  destruct g1 as [|a [|b [|c g1]]]; reflexivity.
Qed.

Lemma getPlaylistParams_third_filter_witness :
  getPlaylistParams (ParsedBody.mk pageHeader None None) = Some "EgIQAw%3D%3D".
Proof.
  apply (getPlaylistParams_third_filter (ParsedBody.mk pageHeader None None)
           [["EgIIAQ%3D%3D"]; ["EgIQAQ%3D%3D"; "EgIQAg%3D%3D"; "EgIQAw%3D%3D"]]);
    reflexivity.
Defined.

(** ** The client version of a page *)

Lemma array_outputs (s : Zod.schema) (x r : value) :
  Zod.safeParse (Zod.array_ s) x = Some r ->
  exists l', r = VArr l'
             /\ Forall (fun y => exists x, Zod.safeParse s x = Some y) l'.
Proof.
  destruct x as [| | | | |l|]; try discriminate.
  change (Zod.safeParse (Zod.array_ s) (VArr l))
    with (match Zod.traverse (Zod.safeParse s) l with
          | Some l' => Some (VArr l')
          | None => None
          end).
  destruct (Zod.traverse (Zod.safeParse s) l) as [l'|] eqn:T; [|discriminate].
  intros E. injection E as <-. exists l'. split; [reflexivity|].
  eapply traverse_outputs, T.
Qed.

Lemma find_found (p : value -> bool) (l : list value) :
  Js.truthy (Js.find p l) = true -> In (Js.find p l) l /\ p (Js.find p l) = true.
Proof.
  unfold Js.find. destruct (List.find p l) as [x|] eqn:F; [|discriminate].
  intros _. apply find_some in F. exact F.
Qed.

(** X18. The client version that [getClientVersion] finds is sound and
    never empty: it is the value of a tracking parameter of the page
    whose key is [cver], taken from one of the services of the response
    context. *)
Theorem getClientVersion_sound (json : value) (v : string) :
  getClientVersion json = Some v ->
  v <> ""
  /\ exists data service param,
       Zod.safeParse YouTubeInitialDataSchema json = Some data
       /\ In service
            (Js.elements
               (Js.get "serviceTrackingParams" (Js.get "responseContext" data)))
       /\ In param (Js.elements (Js.get "params" service))
       /\ Js.get "key" param = VStr "cver"
       /\ Js.get "value" param = VStr v.
Proof.
  unfold getClientVersion.
  destruct (Zod.safeParse YouTubeInitialDataSchema json) as [data|] eqn:P;
    [|discriminate].
  intros H.
  (* what the schema says of the services *)
  destruct (object_field _ _ _ _ P "responseContext" _ eq_refl
              (or_introl eq_refl)) as (rc & Prc & Erc).
  destruct (object_field _ _ _ _ Prc "serviceTrackingParams" _ eq_refl
              (or_introl eq_refl)) as (stp & Pstp & Estp).
  destruct (array_outputs _ _ _ Pstp) as (services & -> & Fs).
  rewrite Erc, Estp in H. cbn [Js.elements] in H.
  assert (G : v <> ""
              /\ exists service param,
                   In service services
                   /\ In param (Js.elements (Js.get "params" service))
                   /\ Js.get "key" param = VStr "cver"
                   /\ Js.get "value" param = VStr v).
  { clear - H Fs. induction Fs as [|service services (x & Px) Fs IH].
    - discriminate H.
    - cbn [getClientVersion_loop] in H.
      assert (Rest : getClientVersion_loop services = Some v ->
                     v <> "" /\ exists service0 param,
                       In service0 (service :: services)
                       /\ In param (Js.elements (Js.get "params" service0))
                       /\ Js.get "key" param = VStr "cver"
                       /\ Js.get "value" param = VStr v).
      { intros R. destruct (IH R) as (N & s0 & p0 & I0 & R0).
        split; [exact N|]. exists s0, p0. split; [now right | exact R0]. }
      destruct (negb (Js.truthy (Js.get "params" service))); [now apply Rest|].
      set (param := Js.find (fun p => is_str "cver" (Js.get "key" p))
                      (Js.elements (Js.get "params" service))) in *.
      destruct (Js.truthy param) eqn:Tp; cbn [negb orb] in H; [|now apply Rest].
      destruct (Js.truthy (Js.get "value" param)) eqn:Tv; cbn [negb] in H;
        [|now apply Rest].
      injection H as <-.
      destruct (find_found _ _ Tp) as (Ip & Kp). fold param in Ip, Kp.
      (* the parameter is a parsed one: its value is a string *)
      destruct (object_field _ _ _ _ Px "params" _ eq_refl (or_introl eq_refl))
        as (ps & Pps & Eps).
      assert (Fp : Forall (fun y => exists x,
                     Zod.safeParse
                       (Zod.object [("key", Zod.string_); ("value", Zod.string_)])
                       x = Some y)
                     (Js.elements (Js.get "params" service))).
      { rewrite Eps.
        destruct (Js.get "params" x) as [| | | | |l|] eqn:Ex;
          cbn [Zod.safeParse] in Pps; try discriminate Pps.
        - injection Pps as <-. constructor.
        - change (match Zod.traverse
                          (Zod.safeParse
                             (Zod.object [("key", Zod.string_);
                                          ("value", Zod.string_)])) l with
                  | Some l' => Some (VArr l')
                  | None => None
                  end = Some ps) in Pps.
          destruct (Zod.traverse _ l) as [l'|] eqn:T; [|discriminate Pps].
          injection Pps as <-. cbn [Js.elements].
          eapply traverse_outputs, T. }
      rewrite List.Forall_forall in Fp. destruct (Fp param Ip) as (x0 & Px0).
      destruct (object_field _ _ _ _ Px0 "value" Zod.string_ eq_refl)
        as (val & Pval & Eval); [cbn; tauto|].
      assert (Sv : exists s, Js.get "value" param = VStr s).
      { rewrite Eval. destruct (Js.get "value" x0); try discriminate Pval.
        injection Pval as <-. eauto. }
      destruct Sv as (s & Es). rewrite Es in Tv |- *. cbn [Js.str].
      split.
      + intros ->. discriminate Tv.
      + exists service, param. split; [now left|]. split; [exact Ip|].
        split; [|now rewrite Es].
        unfold is_str in Kp.
        destruct (Js.get "key" param) as [| | | |k| |]; try discriminate Kp.
        apply String.eqb_eq in Kp. now subst k. }
  destruct G as (N & service & param & G).
  split; [exact N|]. exists data, service, param. split; [reflexivity|].
  rewrite Erc, Estp. exact G.
Qed.

(** The version found on that page. *)
Lemma getClientVersion_sound_witness :
  getClientVersion trackedPage = Some "2.20250101.00.00"
  /\ "2.20250101.00.00" <> ""
  /\ exists data service param,
       Zod.safeParse YouTubeInitialDataSchema trackedPage = Some data
       /\ In service
            (Js.elements
               (Js.get "serviceTrackingParams" (Js.get "responseContext" data)))
       /\ In param (Js.elements (Js.get "params" service))
       /\ Js.get "key" param = VStr "cver"
       /\ Js.get "value" param = VStr "2.20250101.00.00".
Proof.
  split; [reflexivity|].
  apply (getClientVersion_sound trackedPage "2.20250101.00.00"). reflexivity.
Defined.

(** ** Playlists from lockup view models *)

Lemma take_digits_all_digits (s : string) :
  all_digits (Lockup.take_digits s) = true.
Proof.
  induction s as [|c s IH]; simpl; [reflexivity|].
  destruct (is_digit c) eqn:E; simpl; [now rewrite E | reflexivity].
Qed.

Lemma firstDigits_all_digits (text digits : string) :
  Lockup.firstDigits text = Some digits -> all_digits digits = true.
Proof.
  revert digits.
  induction text as [|c text IH]; intros digits; cbn [Lockup.firstDigits];
    [discriminate|].
  destruct (is_digit c) eqn:D; [|apply IH].
  intros E. injection E as <-.
  apply (take_digits_all_digits (String c text)).
Qed.

Lemma badgeCount_counted (platform : Builtins) (tb : value) (n : number) :
  Lockup.badgeCount platform tb = Some n -> counted n.
Proof.
  unfold Lockup.badgeCount.
  destruct (negb _); [discriminate|]. destruct (negb _); [discriminate|].
  destruct (Js.get "text" _) as [| | | |text| |]; try discriminate.
  destruct (Lockup.firstDigits text) as [digits|] eqn:F; [|discriminate].
  intros E. injection E as <-.
  unfold counted, Number_of_string.
  rewrite (firstDigits_all_digits text digits F).
  apply nearest_nonneg, digits_value_nonneg. lia.
Qed.

Lemma overlayCount_counted (platform : Builtins) (overlay : value) (n : number) :
  Lockup.overlayCount platform overlay = Some n -> counted n.
Proof.
  unfold Lockup.overlayCount.
  destruct (negb _); [discriminate|]. destruct (negb _); [discriminate|].
  destruct (Js.get "thumbnailBadges" _) as [| | | | |tbs|]; try discriminate.
  induction tbs as [|tb tbs IH]; cbn [Lockup.firstCount]; [discriminate|].
  destruct (Lockup.badgeCount platform tb) as [m|] eqn:B; [|exact IH].
  intros E. injection E as <-. eapply badgeCount_counted, B.
Qed.

Lemma countOverlays_from (platform : Builtins) (overlays : list value) :
  forall start,
    counted start ->
    counted
      (fold_left
         (fun length overlay =>
            match Lockup.overlayCount platform overlay with
            | Some n => n
            | None => length
            end)
         overlays start).
Proof.
  induction overlays as [|o overlays IH]; intros start Hs; cbn [fold_left];
    [exact Hs|].
  apply IH. destruct (Lockup.overlayCount platform o) as [n|] eqn:E; [|exact Hs].
  eapply overlayCount_counted, E.
Qed.

Lemma lengthOf_counted (platform : Builtins) (lockup : value) :
  counted (Lockup.lengthOf platform lockup).
Proof.
  assert (Z0 : counted (JsNum.of_Z 0)) by reflexivity.
  unfold Lockup.lengthOf.
  repeat (destruct (negb _); [exact Z0|]).
  destruct (Js.get "overlays" _); try exact Z0.
  now apply countOverlays_from.
Qed.

Lemma ownerOf_accepted (lockupMeta : value) :
  exists owner,
    Zod.safeParse (Zod.nullable_ AuthorSchema) (Lockup.ownerOf lockupMeta)
    = Some owner
    /\ (owner = VNull
        \/ exists ownerName,
             owner = VObj [("name", VStr ownerName); ("channelID", VStr "");
                           ("url", VStr ""); ("bestAvatar", VNull);
                           ("avatars", VArr []); ("ownerBadges", VArr []);
                           ("verified", VBool false)]).
Proof.
  assert (N : exists owner,
             Zod.safeParse (Zod.nullable_ AuthorSchema) VNull = Some owner
             /\ (owner = VNull
                 \/ exists ownerName,
                      owner = VObj [("name", VStr ownerName); ("channelID", VStr "");
                                    ("url", VStr ""); ("bestAvatar", VNull);
                                    ("avatars", VArr []); ("ownerBadges", VArr []);
                                    ("verified", VBool false)]))
    by (exists VNull; auto).
  unfold Lockup.ownerOf.
  repeat (destruct (negb _); [exact N|]).
  destruct (Js.get "metadataRows" _) as [| | | | |[|firstRow rows]|]; try exact N.
  destruct (negb _); [exact N|].
  destruct (Js.get "metadataParts" _) as [| | | | |[|firstPart parts]|];
    try exact N.
  repeat (destruct (negb _); [exact N|]).
  destruct (Js.get "content" _) as [| | | |ownerName| |]; try exact N.
  eexists. split; [reflexivity|]. right. exists ownerName. reflexivity.
Qed.

Lemma get_string_objectish (k : string) (x : value) (s : string) :
  Js.get k x = VStr s -> Lockup.is_objectish x = true.
Proof. destruct x; try discriminate. reflexivity. Qed.

(** X19. An item that carries a [lockupViewModel] whose [contentId] and
    title content are strings is normalized to a playlist, without any
    exception and without any URL being parsed: its id is the content id,
    its URL the playlist URL of that id, its name the title, it has no
    publication date, its length is a number that is not negative (and
    so not NaN), and its owner is [null] or an author known by name only.  The branch is taken
    whatever renderer the item holds beside. *)
Theorem lockup_playlist (platform : Builtins) (fs : list (string * value))
  (id name : string) :
  let lockup := Js.lookup "lockupViewModel" fs in
  Js.get "contentId" lockup = VStr id ->
  Js.get "content"
    (Js.get "title" (Js.get "lockupMetadataViewModel" (Js.get "metadata" lockup)))
  = VStr name ->
  exists p n,
    Lockup.parseItem platform (VObj fs) = Return (Some p)
    /\ Js.get "type" p = VStr "playlist"
    /\ Js.get "id" p = VStr id
    /\ Js.get "name" p = VStr name
    /\ Js.get "url" p = VStr ("https://www.youtube.com/playlist?list=" ++ id)
    /\ Js.get "publishedAt" p = VNull
    /\ Js.get "length" p = VNum n /\ JsNum.leb (JsNum.of_Z 0) n = true
    /\ (Js.get "owner" p = VNull
        \/ exists ownerName,
             Js.get "name" (Js.get "owner" p) = VStr ownerName
             /\ Js.get "channelID" (Js.get "owner" p) = VStr ""
             /\ Js.get "url" (Js.get "owner" p) = VStr "").
Proof.
  intros lockup Hid Hname.
  assert (K : Js.has "lockupViewModel" fs = true).
  { apply has_of_lookup. fold lockup. intros E. rewrite E in Hid. discriminate Hid. }
  cbn [Lockup.parseItem]. rewrite K. fold lockup.
  unfold Lockup.parsePlaylistFromLockup. rewrite Hid.
  set (metadata := Js.get "metadata" lockup) in *.
  set (lockupMeta := Js.get "lockupMetadataViewModel" metadata) in *.
  set (title := Js.get "title" lockupMeta) in *.
  assert (Ot : Lockup.is_objectish title = true)
    by (eapply get_string_objectish, Hname).
  assert (Om : Lockup.is_objectish lockupMeta = true).
  { destruct lockupMeta; try reflexivity; subst title; discriminate Hname. }
  assert (Oo : Lockup.is_objectish metadata = true).
  { destruct metadata; try reflexivity; subst title lockupMeta;
      discriminate Hname. }
  rewrite Oo, Om, Ot, Hname. cbn [negb].
  pose proof (lengthOf_counted platform lockup) as Hl. unfold counted in Hl.
  set (len := Lockup.lengthOf platform lockup) in *.
  pose proof (leb_not_NaN _ _ Hl) as Nn.
  destruct (ownerOf_accepted lockupMeta) as (owner & Po & Co).
  set (result := VObj _).
  assert (T : exists p, Zod.safeParse PlaylistSchema result = Some p).
  { unfold PlaylistSchema, Zod.object, result. apply object_total.
    repeat (apply List.Forall_cons;
            [cbn [fst snd Js.lookup String.eqb Ascii.eqb Bool.eqb]|]);
      [..|apply List.Forall_nil]; cbn [Zod.safeParse]; rewrite ?Nn; eauto. }
  destruct T as (p & P). exists p, len. rewrite P. split; [reflexivity|].
  pose proof (fun k s => object_field _ _ _ _ P k s eq_refl) as F.
  destruct (F "type" (Zod.literal_ "playlist")) as (r1 & P1 & ->); [cbn; tauto|].
  destruct (F "id" Zod.string_) as (r2 & P2 & ->); [cbn; tauto|].
  destruct (F "name" Zod.string_) as (r3 & P3 & ->); [cbn; tauto|].
  destruct (F "url" Zod.string_) as (r4 & P4 & ->); [cbn; tauto|].
  destruct (F "publishedAt" (Zod.nullable_ Zod.string_)) as (r5 & P5 & ->);
    [cbn; tauto|].
  destruct (F "length" Zod.number_) as (r6 & P6 & ->); [cbn; tauto|].
  destruct (F "owner" (Zod.nullable_ AuthorSchema)) as (r7 & P7 & ->);
    [cbn; tauto|].
  change (Js.get "owner" result) with (Lockup.ownerOf lockupMeta) in P7.
  rewrite Po in P7. injection P7 as <-.
  cbn in P1, P2, P3, P4, P5, P6. rewrite Nn in P6.
  do 6 (split; [congruence|]). split; [exact Hl|].
  destruct Co as [->|(ownerName & ->)]; [now left|].
  right. exists ownerName. repeat split.
Qed.

(** X20. The video count of a lockup is the number of the last overlay
    that shows one (the first badge with a number in that overlay): the
    [break] of the inner loop does not end the walk over the overlays,
    and an overlay without a number changes nothing. *)
Theorem lockup_count_last_overlay (platform : Builtins)
  (before after : list value) (overlay : value) (n : number) :
  Lockup.overlayCount platform overlay = Some n ->
  Forall (fun o => Lockup.overlayCount platform o = None) after ->
  Lockup.countOverlays platform (before ++ overlay :: after) = n
  /\ Lockup.countOverlays platform after = JsNum.of_Z 0.
Proof.
  intros Ho Ha.
  assert (Skip : forall start,
             fold_left
               (fun length o =>
                  match Lockup.overlayCount platform o with
                  | Some m => m
                  | None => length
                  end) after start = start).
  { induction Ha as [|o after Hn Ha IH]; intros start; cbn [fold_left];
      [reflexivity|].
    now rewrite Hn, IH. }
  unfold Lockup.countOverlays. split; [|apply Skip].
  rewrite fold_left_app. cbn [fold_left]. now rewrite Ho, Skip.
Qed.

(** The lockup item is normalized as a playlist, not as the video it
    also carries. *)
Lemma lockup_playlist_witness :
  exists p n,
    Lockup.parseItem simplePlatform (VObj lockupItem) = Return (Some p)
    /\ Js.get "type" p = VStr "playlist"
    /\ Js.get "id" p = VStr "PL1"
    /\ Js.get "name" p = VStr "A mix"
    /\ Js.get "url" p = VStr ("https://www.youtube.com/playlist?list=" ++ "PL1")
    /\ Js.get "publishedAt" p = VNull
    /\ Js.get "length" p = VNum n /\ JsNum.leb (JsNum.of_Z 0) n = true
    /\ (Js.get "owner" p = VNull
        \/ exists ownerName,
             Js.get "name" (Js.get "owner" p) = VStr ownerName
             /\ Js.get "channelID" (Js.get "owner" p) = VStr ""
             /\ Js.get "url" (Js.get "owner" p) = VStr "").
Proof.
  apply (lockup_playlist simplePlatform lockupItem "PL1" "A mix"); reflexivity.
Defined.

(** Its length is read from the badge [12 videos], and its owner from
    the first metadata part. *)
Example lockup_playlist_run :
  option_map (fun p => (Js.get "length" p, Js.get "name" (Js.get "owner" p)))
    (Lockup.parsePlaylistFromLockup simplePlatform
       (Js.lookup "lockupViewModel" lockupItem))
  = Some (VNum (JsNum.of_Z 12), VStr "An owner").
Proof. reflexivity. Qed.

(** Two overlays with a count: the later one gives the length, by its
    first badge with digits. *)
Lemma lockup_count_last_overlay_witness :
  Lockup.countOverlays simplePlatform
    ([badgeOverlay ["12 videos"]] ++ badgeOverlay ["Mix"; "7 episodes"; "9"]
     :: [VObj []; VStr "no overlay"])
  = JsNum.of_Z 7
  /\ Lockup.countOverlays simplePlatform [VObj []; VStr "no overlay"]
     = JsNum.of_Z 0.
Proof.
  apply (lockup_count_last_overlay simplePlatform
           [badgeOverlay ["12 videos"]] [VObj []; VStr "no overlay"]
           (badgeOverlay ["Mix"; "7 episodes"; "9"]) (JsNum.of_Z 7)).
  - reflexivity.
  - repeat constructor.
Defined.

(** ** What a search returns *)

Lemma requestedType_defaultType (o : SearchOptions.t) :
  requestedType (defaultType o) = requestedType o.
Proof.
  unfold requestedType, defaultType.
  destruct (SearchType_of_value (SearchOptions.type o)) eqn:E;
    [now rewrite E | reflexivity].
Qed.

Lemma follows_requestedType (w w' : World) :
  follows w w' -> requestedType (options w') = requestedType (options w).
Proof.
  intros (_ & _ & _ & [->| ->]); [reflexivity|].
  apply requestedType_defaultType.
Qed.

Lemma entityOf_type (t : SearchType) (item : value) :
  entityOf t item -> Js.get "type" item = VStr (SearchType_name t).
Proof.
  intros (x & P). destruct t; cbn [entitySchema] in P.
  - destruct (object_field _ _ _ _ P "type" (Zod.literal_ "video") eq_refl
                (or_introl eq_refl)) as (r & Pr & <-).
    destruct (Js.get "type" x) as [| | | |s| |]; try discriminate Pr.
    cbn in Pr. destruct (String.eqb_spec s "video"); [|discriminate Pr].
    injection Pr as <-. now subst s.
  - destruct (object_field _ _ _ _ P "type" (Zod.literal_ "playlist") eq_refl
                (or_introl eq_refl)) as (r & Pr & <-).
    destruct (Js.get "type" x) as [| | | |s| |]; try discriminate Pr.
    cbn in Pr. destruct (String.eqb_spec s "playlist"); [|discriminate Pr].
    injection Pr as <-. now subst s.
Qed.

Lemma entity_typed (t : SearchType) (item : value) :
  entity item -> has_type t item = true -> entityOf t item.
Proof.
  intros [E|E] H; pose proof (entityOf_type _ _ E) as T;
    unfold has_type in H; rewrite T in H; destruct t; try exact E;
    discriminate H.
Qed.

Lemma Return_inj {A : Type} (a b : A) : Return a = Return b -> a = b.
Proof. intros H. now injection H. Qed.

Section Entities.
Variable platform : Builtins.

Lemma parseItem_entity (raw item : value) :
  parseItem platform raw = Return (Some item) -> entity item.
Proof.
  assert (V : forall obj, parseVideo platform obj = Return (Some item) ->
                          entity item).
  { intros obj. unfold parseVideo.
    destruct (prepImg platform _) as [thumbnails|]; [|discriminate].
    destruct (parseAuthor platform obj) as [author|]; [|discriminate].
    intros H. left. eexists. exact (Return_inj _ _ H). }
  unfold parseItem.
  destruct (Zod.safeParse YouTubeItemSchema raw) as [itemData|]; [|discriminate].
  destruct (Js.has_key "videoRenderer" itemData); [apply V|].
  destruct (Js.has_key "playlistRenderer" itemData).
  - unfold parsePlaylist.
    destruct (parseOwner platform _) as [owner|]; [|discriminate].
    intros H. right. eexists. exact (Return_inj _ _ H).
  - destruct (Js.has_key "gridVideoRenderer" itemData); [apply V | discriminate].
Qed.

Lemma parseItems_entities (rawItems : list value) :
  forall parsed,
    parseItems platform rawItems = Return parsed ->
    Forall entity (filter_map (fun r => r) parsed).
Proof.
  induction rawItems as [|a rest IH]; intros parsed; cbn [parseItems].
  - intros H. injection H as <-. constructor.
  - destruct (parseItem platform a) as [r|] eqn:P; [|discriminate].
    destruct (parseItems platform rest) as [rs|]; [|discriminate].
    intros H. injection H as <-. cbn [filter_map].
    destruct r as [item|]; [|now apply IH].
    constructor; [eapply parseItem_entity, P | now apply IH].
Qed.

Lemma filter_index_lt_Forall (P : value -> Prop) (limit : number)
  (l : list value) :
  Forall P l -> forall i, Forall P (Js.filter_index_lt limit i l).
Proof.
  induction 1 as [|x l Hx Hl IH]; intros i; cbn [Js.filter_index_lt];
    [constructor|].
  destruct (JsNum.ltb _ limit); [constructor|]; auto.
Qed.

Lemma selectItems_entities (rawItems kept : list value)
  (opts : NormalizedOptions.t) :
  selectItems platform rawItems opts = Return kept ->
  Forall (entityOf (NormalizedOptions.type opts)) kept.
Proof.
  unfold selectItems.
  destruct (parseItems platform rawItems) as [parsed|] eqn:P; [|discriminate].
  intros H. injection H as <-.
  apply filter_index_lt_Forall.
  apply List.Forall_forall. intros item Hi. apply filter_In in Hi as (Hi & Ht).
  apply entity_typed; [|exact Ht].
  pose proof (parseItems_entities rawItems parsed P) as F.
  rewrite List.Forall_forall in F. now apply F.
Qed.

Lemma Forall_filter (P : value -> Prop) (p : value -> bool) (l : list value) :
  Forall P l -> Forall P (List.filter p l).
Proof.
  intros H. apply List.Forall_forall. intros x Hx. apply filter_In in Hx as (Hx & _).
  rewrite List.Forall_forall in H. now apply H.
Qed.

Lemma parsePage2_on_entities (net : list reply) :
  forall log token context opts r opts' net' log',
    parsePage2_on platform net log token context opts
    = (Return r, opts', net', log') ->
    Forall (entityOf (NormalizedOptions.type opts)) r.
Proof.
  induction net as [|rep net IH]; intros log token context opts r opts' net' log'.
  - rewrite parsePage2_on_nil. discriminate.
  - rewrite parsePage2_on_cons. cbv zeta.
    destruct (doPost_reply (Some rep)) as [json|e]; [|discriminate].
    destruct (parsePage2Response json) as [batch|];
      [|intros H; injection H as <- _ _ _; constructor].
    destruct (selectItems platform _ opts) as [parsedItems|e] eqn:S;
      [|intros H; injection H as <- _ _ _; constructor].
    apply selectItems_entities in S.
    destruct (done _ _).
    + intros H. injection H as <- _ _ _. exact S.
    + match goal with
      | |- context [parsePage2_on platform net ?l ?t ?c ?o] =>
          specialize (IH l t c o);
          destruct (parsePage2_on platform net l t c o) as [[[[x|e] o1] n1] l1]
      end; intros H; injection H as <- _ _ _; [|constructor].
      apply Forall_app. split; [exact S|].
      apply Forall_filter. eapply IH. reflexivity.
Qed.

Lemma resultsOf_not_NaN (json : value) (searchResponse : SearchResponse) :
  parseSearchResponse json = Some searchResponse ->
  JsNum.isNaN (resultsOf platform (estimatedResults searchResponse)) = false.
Proof.
  unfold parseSearchResponse.
  destruct (Zod.safeParse YouTubeSearchResponseSchema json) as [data|] eqn:P;
    [|discriminate].
  intros H. injection H as <-. cbn [estimatedResults].
  destruct (object_field _ _ _ _ P "estimatedResults"
              (Zod.optional_ (Zod.union_ [Zod.string_; Zod.number_])) eq_refl)
    as (r & Pr & ->); [cbn; tauto|].
  unfold resultsOf.
  destruct (Js.get "estimatedResults" json) as [| | |n|s| |]; cbn in Pr;
    try discriminate Pr.
  - injection Pr as <-. reflexivity.
  - destruct (JsNum.isNaN n) eqn:N; [discriminate Pr|].
    injection Pr as <-. exact N.
  - injection Pr as <-.
    destruct (JsNum.truthy (Number_of_string platform s)) eqn:T; [|reflexivity].
    destruct (Number_of_string platform s); try reflexivity. discriminate T.
Qed.

Lemma normalizeOptions_search (searchString : string) (o : SearchOptions.t)
  (opts : NormalizedOptions.t) :
  normalizeOptions platform searchString o = Return opts ->
  String.prefix BASE_URL searchString = false ->
  NormalizedOptions.search opts = searchString.
Proof.
  unfold normalizeOptions. intros H Hp. rewrite Hp in H.
  destruct (Headers.new _) as [headers|]; [|discriminate H].
  destruct (URL_new platform searchString BASE_URL) as [u|]; [|discriminate H].
  cbn [andb Dict.get String.eqb Ascii.eqb Bool.eqb] in H.
  destruct (SearchOptions.utcOffsetMinutes o) as [[| | |]|];
    try discriminate H; injection H as <-; reflexivity.
Qed.

Lemma fetchPage_search (opts opts' : NormalizedOptions.t) (parsed : ParsedBody.t)
  (w w' : World) :
  fetchPage platform opts w = (Return (parsed, opts'), w') ->
  NormalizedOptions.search opts' = NormalizedOptions.search opts.
Proof.
  unfold fetchPage, bind, gets, fetchText, ret.
  destruct (head (network w)) as [[|text json]|]; try discriminate.
  intros H. injection H as _ <- _.
  destruct (NormalizedOptions.requestOptions opts); auto.
Qed.

Variable searchString : string.
Variable t : SearchType.

Let yields := yieldsResult searchString t.

Lemma yields_collect (retry : M Result) (parsed : ParsedBody.t)
  (opts : NormalizedOptions.t) :
  yields retry ->
  NormalizedOptions.type opts = t ->
  (String.prefix BASE_URL searchString = false ->
   NormalizedOptions.search opts = searchString) ->
  yields (collect platform retry parsed opts).
Proof.
  intros Hretry Ht Hs w r w' Ho. unfold collect.
  destruct (negb _); [apply Hretry, Ho|].
  destruct (parseSearchResponse _) as [searchResponse|] eqn:SR;
    [|apply Hretry, Ho].
  pose proof (resultsOf_not_NaN _ _ SR) as N.
  unfold bind at 1, lift.
  destruct (selectItems platform _ opts) as [kept|e] eqn:S; [|discriminate].
  apply selectItems_entities in S. rewrite Ht in S.
  destruct (done _ _).
  - unfold ret. intros H. injection H as <- _.
    split; [apply Forall_filter, S|]. split; [exact N | exact Hs].
  - unfold bind, parsePage2, ret.
    destruct (parsePage2_on platform (network w) (requests w) _ _ _)
      as [[[[nested|e] o1] n1] l1] eqn:P; [|discriminate].
    apply parsePage2_on_entities in P. cbn [NormalizedOptions.type spend
      NormalizedOptions.set_limit] in P. rewrite Ht in P.
    intros H. injection H as <- _.
    split; [|split; [exact N | exact Hs]].
    cbn [items resultOf]. apply Forall_filter, Forall_app.
    split; [exact S | apply Forall_filter, P].
Qed.

Lemma yields_attempt (retries : nat) (retry : M Result) :
  yields retry -> yields (attempt platform searchString retries retry).
Proof.
  intros Hretry w r w' Ho. rewrite attempt_unfold.
  pose proof (follows_checkArgs platform searchString w) as F0.
  destruct (checkArgs platform searchString (options w)) as [o' [opts|e]] eqn:C;
    [|discriminate].
  apply checkArgs_Return in C as (_ & _ & N).
  pose proof (normalizeOptions_search _ _ _ N) as Hsearch.
  apply normalizeOptions_Return in N as (_ & _ & Ty).
  rewrite defaultType_idempotent in Ty.
  assert (Ht : NormalizedOptions.type opts = t).
  { rewrite <- Ho, <- requestedType_defaultType. unfold requestedType.
    now rewrite Ty. }
  cbv zeta. simpl in F0. set (w1 := set_options o' w) in *.
  unfold bind at 1.
  pose proof (preserves_obtainPage platform opts w1) as F1.
  unfold bind at 1 in F1. unfold bind at 1.
  destruct (shouldFetch opts (CACHE w1)).
  - destruct (fetchPage platform opts w1) as [[[p o2]|e] w2] eqn:FP;
      [|discriminate].
    pose proof (fetchPage_search _ _ _ _ _ FP) as Hs2.
    apply fetchPage_opts in FP as (_ & Ht2 & _).
    unfold bind at 1. cbn [fst snd] in F1 |- *.
    destruct (saveCache p o2 w2) as [[parsed|e] w3]; [|discriminate].
    unfold ret at 1. cbn [fst snd] in F1 |- *. unfold bind at 1.
    pose proof (preserves_postSearch searchString retries parsed o2 w3) as F2.
    destruct (postSearch searchString retries parsed o2 w3) as [[p'|e] w4];
      [|discriminate].
    simpl in F2. apply yields_collect; [exact Hretry | congruence | |].
    + intros Hp. rewrite Hs2. now apply Hsearch.
    + rewrite <- Ho. apply follows_requestedType.
      eapply follows_trans; [exact F0|].
      eapply follows_trans; [exact F1 | exact F2].
  - unfold ret at 1. unfold ret at 1 in F1. cbn [fst snd] in F1 |- *.
    unfold bind at 1.
    destruct (saveCache _ opts w1) as [[parsed|e] w3]; [|discriminate].
    unfold ret at 1. cbn [fst snd] in F1 |- *. unfold bind at 1.
    pose proof (preserves_postSearch searchString retries parsed opts w3) as F2.
    destruct (postSearch searchString retries parsed opts w3) as [[p'|e] w4];
      [|discriminate].
    simpl in F2. apply yields_collect; [exact Hretry | exact Ht | exact Hsearch |].
    rewrite <- Ho. apply follows_requestedType.
    eapply follows_trans; [exact F0|].
    eapply follows_trans; [exact F1 | exact F2].
Qed.

Lemma yields_ytsr (retries : nat) : yields (ytsr platform searchString retries).
Proof.
  induction retries as [|retries IH]; intros w r w' Ho.
  - rewrite ytsr_0. discriminate.
  - rewrite ytsr_S. apply yields_attempt; [exact IH|].
    now rewrite (proj1 (atAttempt_frame (S retries) w)).
Qed.

End Entities.

(** X21. Whatever the platform answers, a result of a search holds only
    entities of the requested type that validate against the schema of
    that type ([VideoSchema] for a video search, [PlaylistSchema] for a
    playlist search; the type is ['video'] unless the caller asked for
    playlists); its [results] count is never NaN; and its [query] is the
    search string, when that is no link to the platform. *)
Theorem ytsr_result (platform : Builtins) (searchString : string)
  (retries : nat) (w w' : World) (r : Result) :
  ytsr platform searchString retries w = (Return r, w') ->
  let t := requestedType (options w) in
  Forall (fun item =>
            (exists x, Zod.safeParse (entitySchema t) x = Some item)
            /\ Js.get "type" item = VStr (SearchType_name t))
         (items r)
  /\ JsNum.isNaN (results r) = false
  /\ (String.prefix BASE_URL searchString = false -> query r = searchString).
Proof.
  intros H t.
  destruct (yields_ytsr platform searchString t retries w r w' eq_refl H)
    as (F & N & Q).
  split; [|split; assumption].
  eapply List.Forall_impl; [|exact F].
  intros item E. split; [exact E | now apply entityOf_type].
Qed.

(** A video search on a first page that holds two videos and a playlist:
    the result keeps the two videos. *)
Lemma ytsr_result_witness :
  let w :=
    mkWorld CACHE_at_load
      (SearchOptions.mk None None None None None VUndef None)
      None
      [Response "<html></html>" None;
       Response ""
         (Some (searchResponse
                  [itemSection
                     [videoRenderer "a";
                      VObj [("playlistRenderer", playlistRenderer "PL1" "12")];
                      videoRenderer "b"]]))]
      [] in
  exists r w',
    ytsr simplePlatform "test" 3 w = (Return r, w')
    /\ length (items r) = 2%nat
    /\ let t := requestedType (options w) in
       Forall (fun item =>
                 (exists x, Zod.safeParse (entitySchema t) x = Some item)
                 /\ Js.get "type" item = VStr (SearchType_name t))
              (items r)
       /\ JsNum.isNaN (results r) = false
       /\ (String.prefix BASE_URL "test" = false -> query r = "test").
Proof.
  cbv zeta. eexists. eexists.
  split; [vm_compute; reflexivity|].
  split; [reflexivity|].
  eapply (ytsr_result simplePlatform "test" 3).
  vm_compute. reflexivity.
Defined.

(** ** The keep-alive switch *)

Section Sends.
Context {A B : Type} (I : World -> Prop) (P : request -> Prop).

Lemma sends_quiet (Q : A -> Prop) (m : M A) :
  (forall w, I w ->
     requests (snd (m w)) = requests w
     /\ I (snd (m w))
     /\ (forall a, fst (m w) = Return a -> Q a)) ->
  sends I P Q m.
Proof.
  intros H w Hw. destruct (H w Hw) as (E & Hi & Hq).
  exists []. rewrite app_nil_r. repeat split; auto.
Qed.

Lemma sends_bind (Q : A -> Prop) (R : B -> Prop) (m : M A) (k : A -> M B) :
  sends I P Q m -> (forall a, Q a -> sends I P R (k a)) ->
  sends I P R (bind m k).
Proof.
  intros Hm Hk w Hw. unfold bind.
  destruct (Hm w Hw) as (l1 & E1 & F1 & I1 & Q1).
  destruct (m w) as [[a|e] w1]; simpl in E1, I1, Q1.
  - destruct (Hk a (Q1 a eq_refl) w1 I1) as (l2 & E2 & F2 & I2 & Q2).
    exists (l1 ++ l2). rewrite E2, E1, app_assoc.
    repeat split; auto. now apply Forall_app.
  - exists l1. simpl. repeat split; auto. discriminate.
Qed.

Lemma sends_try_catch (Q : A -> Prop) (m : M A) (handler : exn -> M A) :
  sends I P Q m -> (forall e, sends I P Q (handler e)) ->
  sends I P Q (try_catch m handler).
Proof.
  intros Hm Hh w Hw. unfold try_catch.
  destruct (Hm w Hw) as (l1 & E1 & F1 & I1 & Q1).
  destruct (m w) as [[a|e] w1]; simpl in E1, I1, Q1.
  - exists l1. simpl. repeat split; auto.
  - destruct (Hh e w1 I1) as (l2 & E2 & F2 & I2 & Q2).
    exists (l1 ++ l2). rewrite E2, E1, app_assoc.
    repeat split; auto. now apply Forall_app.
Qed.

Lemma sends_weaken (Q Q' : A -> Prop) (m : M A) :
  sends I P Q m -> (forall a, Q a -> Q' a) -> sends I P Q' m.
Proof.
  intros Hm H w Hw. destruct (Hm w Hw) as (l & E & F & Hi & Hq).
  exists l. repeat split; auto.
Qed.

End Sends.

Lemma normalizeOptions_requestOptions (platform : Builtins)
  (searchString : string) (o : SearchOptions.t) (opts : NormalizedOptions.t) :
  normalizeOptions platform searchString o = Return opts ->
  exists r, NormalizedOptions.requestOptions opts = Some r.
Proof.
  unfold normalizeOptions.
  destruct (Headers.new _) as [headers|]; [|discriminate].
  destruct (URL_new platform searchString BASE_URL) as [u|]; [|discriminate].
  match goal with |- context [if ?c then Throw _ else _] => destruct c end;
    [discriminate|].
  match goal with |- context [match ?x with Some _ => _ | None => Throw ZodError end] =>
    destruct x end; [|discriminate].
  destruct (SearchOptions.utcOffsetMinutes o) as [[| | |]|];
    intros H; try discriminate; injection H as <-; simpl; eauto.
Qed.

Lemma postInit_keepalive (opts : NormalizedOptions.t) :
  keepaliveOffIn opts -> RequestInit.keepalive (postInit opts) = Some false.
Proof. intros (r & E & K). unfold postInit. now rewrite E. Qed.

Lemma keepaliveOffIn_spend (n : nat) (opts : NormalizedOptions.t) :
  keepaliveOffIn opts -> keepaliveOffIn (spend n opts).
Proof. intros H. exact H. Qed.

Ltac quiet :=
  apply sends_quiet;
  let w := fresh "w" in
  let Hw := fresh "Hw" in
  intros w Hw; split; [reflexivity|]; split; [exact Hw | intros; exact I].

Section KeepAlive.
Variable platform : Builtins.
Variable searchString : string.

Let sending {A : Type} := @sends A switchedOff keepaliveOff.
Let anything {A : Type} (a : A) := True.

Lemma keepaliveOff_POST (url : string) (opts : NormalizedOptions.t)
  (body : payload) :
  keepaliveOffIn opts -> keepaliveOff (POST url (Some (postInit opts)) body).
Proof.
  intros H. exists (postInit opts). split; [reflexivity|].
  now apply postInit_keepalive.
Qed.

Lemma sends_doPost (opts : NormalizedOptions.t) (body : payload) :
  keepaliveOffIn opts ->
  sending anything (doPost BASE_API_URL (postInit opts) body).
Proof.
  intros H w Hw. exists [POST BASE_API_URL (Some (postInit opts)) body].
  split; [reflexivity|].
  split; [constructor; [now apply keepaliveOff_POST | constructor]|].
  split; [exact Hw | intros; exact I].
Qed.

Lemma sends_checkArgs :
  sending (fun opts => NormalizedOptions.safeSearch opts = false
                       /\ exists r, NormalizedOptions.requestOptions opts = Some r)
          (checkArgs_options platform searchString).
Proof.
  apply sends_quiet. intros w (He & Hs). unfold checkArgs_options.
  destruct (checkArgs platform searchString (options w)) as [o' r] eqn:C.
  split; [reflexivity|]. split.
  - split; [exact He|]. cbn.
    unfold checkArgs in C.
    destruct (String.eqb searchString ""); injection C as <- _; [exact Hs|].
    now rewrite (proj1 (proj2 (defaultType_frame (options w)))).
  - intros opts E. cbn in E. subst r.
    apply checkArgs_Return in C as (_ & _ & N).
    split; [|eapply normalizeOptions_requestOptions, N].
    apply normalizeOptions_Return in N as (_ & -> & _).
    rewrite (proj1 (proj2 (defaultType_frame (options w)))).
    destruct (SearchOptions.safeSearch (options w)) as [[|]|];
      [now destruct Hs | reflexivity | reflexivity].
Qed.

Lemma sends_fetchPage (opts : NormalizedOptions.t) :
  (exists r, NormalizedOptions.requestOptions opts = Some r) ->
  sending (fun fetched => keepaliveOffIn (snd fetched))
          (fetchPage platform opts).
Proof.
  intros (r & Er) w Hw. pose proof Hw as (He & Hs).
  exists [pageRequest opts w]. rewrite fetchPage_world.
  split; [reflexivity|]. split; [|split; [exact Hw|]].
  - constructor; [|constructor]. unfold pageRequest. rewrite He. cbn.
    eexists. split; reflexivity.
  - unfold fetchPage, bind, gets, fetchText, ret. rewrite He, Er.
    destruct (head (network w)) as [[|text json]|]; try discriminate.
    intros [parsed opts'] H. injection H as _ <-. cbn.
    eexists. split; reflexivity.
Qed.

Lemma sends_saveCache (parsed : ParsedBody.t) (opts : NormalizedOptions.t) :
  sending anything (saveCache parsed opts).
Proof.
  apply sends_quiet. intros w Hw.
  destruct (saveCache_world parsed opts w) as (parsed' & cache & ->).
  destruct w; repeat split; auto; apply Hw.
Qed.

Lemma sends_postSearch (retries : nat) (parsed : ParsedBody.t)
  (opts : NormalizedOptions.t) :
  keepaliveOffIn opts ->
  sending anything (postSearch searchString retries parsed opts).
Proof.
  intros K. unfold postSearch. destruct (NormalizedOptions.type opts).
  - destruct (_ || _); [|quiet].
    apply sends_try_catch.
    + apply sends_bind with (Q := anything); [now apply sends_doPost|].
      intros json _. quiet.
    + intros e. destruct (Nat.eqb retries 1);
        quiet.
  - apply sends_bind with (Q := anything);
      [quiet|].
    intros cache _. apply sends_bind with (Q := anything);
      [now apply sends_doPost|].
    intros json _. destruct (negb _); quiet.
Qed.

Lemma parsePage2_on_keepalive (net : list reply) :
  forall log token context opts,
    keepaliveOffIn opts ->
    exists added,
      snd (parsePage2_on platform net log token context opts) = log ++ added
      /\ Forall keepaliveOff added.
Proof.
  induction net as [|r net IH]; intros log token context opts K.
  - rewrite parsePage2_on_nil. simpl. eexists. split; [reflexivity|].
    constructor; [now apply keepaliveOff_POST | constructor].
  - rewrite parsePage2_on_cons. cbv zeta.
    assert (One : Forall keepaliveOff [continuationRequest token context opts]).
    { constructor; [now apply keepaliveOff_POST | constructor]. }
    destruct (doPost_reply (Some r)) as [json|e]; [|simpl; eauto].
    destruct (parsePage2Response json) as [items|]; [|simpl; eauto].
    destruct (selectItems platform _ opts) as [parsedItems|]; [|simpl; eauto].
    destruct (done _ _); [simpl; eauto|].
    destruct (IH (log ++ [continuationRequest token context opts])
                (Js.str (tokenOf (continuation (parsePage2Wrapper items))))
                context (spend (length parsedItems) opts)
                (keepaliveOffIn_spend _ _ K)) as (l & E & F).
    destruct (parsePage2_on platform net _ _ context _) as [[[[nested|e] o] n] lg];
      simpl in E |- *; rewrite E, <- app_assoc;
      (eexists; split; [reflexivity|]); apply Forall_app; auto.
Qed.

Lemma sends_parsePage2 (token : string) (context : option Context.t)
  (opts : NormalizedOptions.t) :
  keepaliveOffIn opts ->
  sending anything (parsePage2 platform token context opts).
Proof.
  intros K w Hw. unfold parsePage2.
  destruct (parsePage2_on_keepalive (network w) (requests w) token context opts K)
    as (added & E & F).
  destruct (parsePage2_on platform (network w) (requests w) token context opts)
    as [[[[r|e] o] n] lg]; simpl in E; subst lg; exists added;
    repeat split; auto; apply Hw.
Qed.

Lemma sends_collect (retry : M Result) (parsed : ParsedBody.t)
  (opts : NormalizedOptions.t) :
  keepaliveOffIn opts ->
  sending anything retry ->
  sending anything (collect platform retry parsed opts).
Proof.
  intros K Hretry. unfold collect.
  destruct (negb _); [exact Hretry|].
  destruct (parseSearchResponse _) as [searchResponse|]; [|exact Hretry].
  cbv zeta. apply sends_bind with (Q := anything);
    [quiet|].
  intros items _.
  destruct (done _ _); [quiet|].
  apply sends_bind with (Q := anything);
    [apply sends_parsePage2, keepaliveOffIn_spend, K|].
  intros nested _. quiet.
Qed.

Lemma sends_attempt (retries : nat) (retry : M Result) :
  sending anything retry ->
  sending anything (attempt platform searchString retries retry).
Proof.
  intros Hretry. unfold attempt.
  eapply sends_bind; [apply sends_checkArgs|].
  intros opts (Hs & Hr). cbv beta.
  apply sends_bind with (Q := anything);
    [quiet|].
  intros cache _.
  apply sends_bind with (Q := fun fetched => keepaliveOffIn (snd fetched)).
  { unfold shouldFetch. rewrite Hs. cbn [negb orb].
    now apply sends_fetchPage. }
  intros fetched K.
  apply sends_bind with (Q := anything); [apply sends_saveCache|].
  intros parsed _.
  apply sends_bind with (Q := anything); [now apply sends_postSearch|].
  intros parsed' _. now apply sends_collect.
Qed.

Lemma sends_ytsr (retries : nat) :
  sending anything (ytsr platform searchString retries).
Proof.
  assert (F : forall n, sending anything (forgetOnSecondAttempt n)).
  { intros n. apply sends_quiet. intros w Hw. unfold forgetOnSecondAttempt.
    destruct (Nat.eqb n 2); repeat split; auto; apply Hw. }
  induction retries as [|retries IH]; simpl.
  - eapply sends_bind; [apply F|]. intros _ _.
    quiet.
  - eapply sends_bind; [apply F|]. intros _ _. now apply sends_attempt.
Qed.

End KeepAlive.

(** X22. With [YTSR_DISABLE_KEEPALIVE] set to ['true'] and no safe search
    asked for, every request of a search is sent with [keepalive: false],
    whatever the caller's request options say: the page fetch of each
    attempt, and also the POSTs of the search and of its continuations,
    which take it from [opts.requestOptions], the object the page fetch
    wrote it to. *)
Theorem ytsr_keepalive_switched_off (platform : Builtins)
  (searchString : string) (retries : nat) (w : World) :
  YTSR_DISABLE_KEEPALIVE w = Some "true" ->
  SearchOptions.safeSearch (options w) <> Some true ->
  exists added,
    requests (snd (ytsr platform searchString retries w)) = requests w ++ added
    /\ Forall keepaliveOff added.
Proof.
  intros He Hs.
  destruct (sends_ytsr platform searchString retries w (conj He Hs))
    as (added & E & F & _).
  eauto.
Qed.

Lemma ytsr_keepalive_switched_off_witness :
  let w := keepaliveCaller None [Response "<html></html>" None] in
  exists added,
    requests (snd (ytsr simplePlatform "test" 3 w)) = requests w ++ added
    /\ Forall keepaliveOff added.
Proof.
  cbv zeta.
  apply (ytsr_keepalive_switched_off simplePlatform "test" 3
           (keepaliveCaller None [Response "<html></html>" None])); [reflexivity | discriminate].
Defined.

(** The two requests of that search, and the one of the same search
    under safe search: with the cache as it is at load no page is
    fetched, and the POST goes out with the caller's [keepalive: true]
    although the switch is on. *)
Example keepalive_with_and_without_page_fetch :
  map keepaliveOf
    (requests
       (snd (ytsr simplePlatform "test" 3
               (keepaliveCaller None [Response "<html></html>" None]))))
  = [Some false; Some false]
  /\ map keepaliveOf
       (requests
          (snd (ytsr simplePlatform "test" 3 (keepaliveCaller (Some true) []))))
     = [Some true].
Proof. split; vm_compute; reflexivity. Qed.

(** ** Numbers, headers and object keys on examples *)

(** [Number] of a run of digits: exact up to 2^53, then the nearest
    double, ties to even, and [Infinity] for a run too long. *)
Example Number_of_long_digits :
  Number_of_string simplePlatform "9007199254740992"
  = JsNum.of_Z 9007199254740992
  /\ Number_of_string simplePlatform "9007199254740993"
     = JsNum.of_Z 9007199254740992
  /\ Number_of_string simplePlatform "9007199254740995"
     = JsNum.of_Z 9007199254740996
  /\ Number_of_string simplePlatform "123456789012345678901234567890"
     = JsNum.of_Z 123456789012345677877719597056
  /\ JsNum.nearest (10 ^ 308) = JsNum.of_Z (5010420900022432 * 2 ^ 971)
  /\ JsNum.nearest (10 ^ 309) = PosInf.
Proof. repeat split; vm_compute; reflexivity. Qed.

(** [new Headers]: names in lower case, the values of a name joined
    (cookies with a semicolon), whitespace around a value dropped, and a
    [TypeError] for a name with a space or a value with a line feed. *)
Example Headers_new_examples :
  Headers.new [("Cookie", " a=1 "); ("cookie", "b=2");
               ("Accept", "text/html"); ("accept", "*/*")]
  = Some [("cookie", "a=1; b=2"); ("accept", "text/html, */*")]
  /\ Headers.new [("bad name", "x")] = None
  /\ Headers.new [("x", String (ascii_of_nat 97)
                          (String (ascii_of_nat 10) "b"))] = None
  /\ Headers.new [] = Some [].
Proof. repeat split. Qed.

(** The query of a filter link is read back with its array indices
    first. *)
Example Object_entries_order :
  Object_entries
    (Dict.spread DEFAULT_QUERY
       (queryOfSearchParams
          [("sp", "EgIQAQ"); ("search_query", "a"); ("10", "x"); ("2", "y");
           ("hl", "de"); ("02", "z")]))
  = [("2", "y"); ("10", "x"); ("gl", "US"); ("hl", "de"); ("sp", "EgIQAQ");
     ("search_query", "a"); ("02", "z")].
Proof. reflexivity. Qed.
